(** * cellcontrol: handler -> service -> repository -> store

    A shallow embedding of the Go packages [domain], [repository],
    [service], [handlers], [config] and [http] of gonzalo-wi/cellcontrol,
    together with the parts of the Go library they call ([unicode/utf8],
    [unicode], [strings], the environment of [os]), what [godotenv] does
    with the file [.env], and a model of the relational store behind
    GORM.  Go strings are byte sequences; runes and indices are
    integers. *)

From Stdlib Require Import ZArith List Bool Ascii String Lia.
Import ListNotations.
Local Open Scope Z_scope.

(** ** Go strings *)

Definition byte := ascii.
Definition gostring := list byte.
Definition rune := Z.

(** A string literal of the source, as its bytes. *)
Definition go (s : string) : gostring := list_ascii_of_string s.

(** The numeric value of a byte, and the conversion [byte(x)]. *)
Definition b2z (b : byte) : Z := Z.of_N (N_of_ascii b).
Definition z2b (z : Z) : byte := ascii_of_N (Z.to_N (z mod 256)).

(** [len(s)], [s[i]], [s[i:]] and [s[:j]]. *)
Definition len (s : gostring) : nat := List.length s.
Definition at_ (s : gostring) (i : Z) : Z := b2z (nth (Z.to_nat i) s zero).
Definition from (i : nat) (s : gostring) : gostring := skipn i s.
Definition upto (j : nat) (s : gostring) : gostring := firstn j s.

(** ** Package unicode/utf8 *)

Module utf8.

Definition RuneError : rune := 0xFFFD.
Definition RuneSelf : Z := 0x80.
Definition MaxRune : rune := 0x10FFFF.
Definition UTFMax : nat := 4.

Definition surrogateMin : Z := 0xD800.
Definition surrogateMax : Z := 0xDFFF.

Definition tx : Z := 0x80.
Definition t2 : Z := 0xC0.
Definition t3 : Z := 0xE0.
Definition t4 : Z := 0xF0.

Definition maskx : Z := 0x3F.
Definition mask2 : Z := 0x1F.
Definition mask3 : Z := 0x0F.
Definition mask4 : Z := 0x07.

Definition rune1Max : Z := 0x7F.
Definition rune2Max : Z := 0x7FF.
Definition rune3Max : Z := 0xFFFF.

Definition locb : Z := 0x80.
Definition hicb : Z := 0xBF.

(** Codes of the [first] table: the low three bits are the length of the
    sequence, the high four bits index [acceptRanges]. *)
Definition xx : Z := 0xF1.
Definition as_ : Z := 0xF0.
Definition s1 : Z := 0x02.
Definition s2 : Z := 0x13.
Definition s3 : Z := 0x03.
Definition s4 : Z := 0x23.
Definition s5 : Z := 0x34.
Definition s6 : Z := 0x04.
Definition s7 : Z := 0x44.

(** The 256-entry table [first], written by its runs. *)
Definition first (b : Z) : Z :=
  if b <? 0x80 then as_
  else if b <? 0xC2 then xx
  else if b <? 0xE0 then s1
  else if b =? 0xE0 then s2
  else if b <? 0xED then s3
  else if b =? 0xED then s4
  else if b <? 0xF0 then s3
  else if b =? 0xF0 then s5
  else if b <? 0xF4 then s6
  else if b =? 0xF4 then s7
  else xx.

Definition acceptRanges (i : Z) : Z * Z :=
  if i =? 0 then (locb, hicb)
  else if i =? 1 then (0xA0, hicb)
  else if i =? 2 then (locb, 0x9F)
  else if i =? 3 then (0x90, hicb)
  else if i =? 4 then (locb, 0x8F)
  else (0, 0).

Definition outside (lo_hi : Z * Z) (b : Z) : bool :=
  (b <? fst lo_hi) || (snd lo_hi <? b).

(** [DecodeRuneInString]: the first rune of [s] and its width in bytes;
    [(RuneError, 0)] on the empty string, [(RuneError, 1)] on an invalid
    encoding. *)
Definition DecodeRuneInString (s : gostring) : rune * nat :=
  match s with
  | [] => (RuneError, 0%nat)
  | c0 :: _ =>
    let s0 := b2z c0 in
    let x := first s0 in
    if as_ <=? x then
      (* mask := rune(x) << 31 >> 31: all ones exactly when x is odd *)
      ((if Z.testbit x 0 then RuneError else s0), 1%nat)
    else
      let sz := Z.to_nat (Z.land x 7) in
      let accept := acceptRanges (Z.shiftr x 4) in
      if (len s <? sz)%nat then (RuneError, 1%nat)
      else
        let b1 := at_ s 1 in
        if outside accept b1 then (RuneError, 1%nat)
        else if (sz <=? 2)%nat then
          (Z.lor (Z.shiftl (Z.land s0 mask2) 6) (Z.land b1 maskx), 2%nat)
        else
          let b2 := at_ s 2 in
          if outside (locb, hicb) b2 then (RuneError, 1%nat)
          else if (sz <=? 3)%nat then
            (Z.lor (Z.lor (Z.shiftl (Z.land s0 mask3) 12)
                          (Z.shiftl (Z.land b1 maskx) 6))
                   (Z.land b2 maskx), 3%nat)
          else
            let b3 := at_ s 3 in
            if outside (locb, hicb) b3 then (RuneError, 1%nat)
            else
              (Z.lor (Z.lor (Z.lor (Z.shiftl (Z.land s0 mask4) 18)
                                   (Z.shiftl (Z.land b1 maskx) 12))
                            (Z.shiftl (Z.land b2 maskx) 6))
                     (Z.land b3 maskx), 4%nat)
  end.

(** [RuneStart]: the byte is not a continuation byte. *)
Definition RuneStart (b : Z) : bool := negb (Z.land b 0xC0 =? 0x80).

(** The loop [for start--; start >= lim; start-- { if RuneStart(s[start]) { break } }]
    of [DecodeLastRuneInString]; it runs at most [UTFMax] times. *)
Fixpoint scanStart (fuel : nat) (s : gostring) (lim start : Z) : Z :=
  match fuel with
  | O => start
  | S k =>
    if start <? lim then start
    else if RuneStart (at_ s start) then start
    else scanStart k s lim (start - 1)
  end.

(** [DecodeLastRuneInString]: the last rune of [s] and its width. *)
Definition DecodeLastRuneInString (s : gostring) : rune * nat :=
  let end_ := Z.of_nat (len s) in
  if end_ =? 0 then (RuneError, 0%nat)
  else
    let start := end_ - 1 in
    let r := at_ s start in
    if r <? RuneSelf then (r, 1%nat)
    else
      let lim := Z.max 0 (end_ - Z.of_nat UTFMax) in
      let start := scanStart UTFMax s lim (start - 1) in
      let start := Z.max 0 start in
      let '(r, size) := DecodeRuneInString (from (Z.to_nat start) s) in
      if start + Z.of_nat size =? end_ then (r, size)
      else (RuneError, 1%nat).

(** [RuneLen]: the number of bytes of the encoding of [r], -1 if [r] is
    not a valid value to encode. *)
Definition RuneLen (r : rune) : Z :=
  if r <? 0 then -1
  else if r <=? rune1Max then 1
  else if r <=? rune2Max then 2
  else if (surrogateMin <=? r) && (r <=? surrogateMax) then -1
  else if r <=? rune3Max then 3
  else if r <=? MaxRune then 4
  else -1.

(** [AppendRune] on an empty buffer: the encoding of [r]; a value that is
    out of range or a surrogate is written as [RuneError].  The source
    compares [uint32(r)], so a negative [r] is out of range. *)
Definition encode3 (r : rune) : gostring :=
  [ z2b (Z.lor t3 (Z.shiftr r 12));
    z2b (Z.lor tx (Z.land (Z.shiftr r 6) maskx));
    z2b (Z.lor tx (Z.land r maskx)) ].

Definition EncodeRune (r : rune) : gostring :=
  if (0 <=? r) && (r <=? rune1Max) then [ z2b r ]
  else if (0 <=? r) && (r <=? rune2Max) then
    [ z2b (Z.lor t2 (Z.shiftr r 6)); z2b (Z.lor tx (Z.land r maskx)) ]
  else if (r <? 0) || (MaxRune <? r)
          || ((surrogateMin <=? r) && (r <=? surrogateMax)) then
    encode3 RuneError
  else if r <=? rune3Max then encode3 r
  else
    [ z2b (Z.lor t4 (Z.shiftr r 18));
      z2b (Z.lor tx (Z.land (Z.shiftr r 12) maskx));
      z2b (Z.lor tx (Z.land (Z.shiftr r 6) maskx));
      z2b (Z.lor tx (Z.land r maskx)) ].

End utf8.

(** ** Package unicode *)

Module unicode.

Definition MaxASCII : rune := 0x7F.
Definition MaxLatin1 : rune := 0xFF.

(** A [Range16] of a range table: [Lo], [Hi], [Stride]. *)
Record Range16 := { Lo : Z; Hi : Z; Stride : Z }.

(** The table [White_Space]. *)
Definition White_Space : list Range16 :=
  [ {| Lo := 0x0009; Hi := 0x000d; Stride := 1 |};
    {| Lo := 0x0020; Hi := 0x0085; Stride := 101 |};
    {| Lo := 0x00a0; Hi := 0x1680; Stride := 5600 |};
    {| Lo := 0x2000; Hi := 0x200a; Stride := 1 |};
    {| Lo := 0x2028; Hi := 0x2029; Stride := 1 |};
    {| Lo := 0x202f; Hi := 0x205f; Stride := 48 |};
    {| Lo := 0x3000; Hi := 0x3000; Stride := 1 |} ].

(** [is16]: membership of [r] in a table of ranges. *)
Definition is16 (ranges : list Range16) (r : Z) : bool :=
  existsb (fun g => (Lo g <=? r) && (r <=? Hi g)
                    && ((r - Lo g) mod Stride g =? 0)) ranges.

(** [White_Space.LatinOffset]: the number of ranges that end in Latin-1. *)
Definition LatinOffset : nat := 2.

(** [isExcludingLatin]: the search skips the Latin-1 ranges; the runes are
    compared as [uint32], so a negative rune is above every range.  The
    table has no 32-bit ranges. *)
Definition isExcludingLatin (r16 : list Range16) (r : rune) : bool :=
  if (LatinOffset <? List.length r16)%nat
     && (0 <=? r) && (r <=? Hi (last r16 {| Lo := 0; Hi := 0; Stride := 1 |}))
  then is16 (skipn LatinOffset r16) r
  else false.

Definition IsSpace (r : rune) : bool :=
  if (0 <=? r) && (r <=? MaxLatin1) then
    (r =? 0x09) || (r =? 0x0A) || (r =? 0x0B) || (r =? 0x0C) || (r =? 0x0D)
    || (r =? 0x20) || (r =? 0x85) || (r =? 0xA0)
  else isExcludingLatin White_Space r.

(** [ToLower] on a rune.  The case table [CaseRanges] of the Go
    distribution is data that the program does not contain: [caseLower] is
    [To(LowerCase, r)], the lookup in it, used above ASCII only. *)
Section Case.
Variable caseLower : rune -> rune.

Definition ToLower (r : rune) : rune :=
  if r <=? MaxASCII then
    if (0x41 <=? r) && (r <=? 0x5A) then r + (0x61 - 0x41) else r
  else caseLower r.

End Case.

End unicode.

(** ** Package strings *)

Module strings.

Definition asciiSpace (c : Z) : bool :=
  (c =? 0x09) || (c =? 0x0A) || (c =? 0x0B) || (c =? 0x0C) || (c =? 0x0D)
  || (c =? 0x20).

(** [indexFunc]: the index of the first rune [r] of [s] with
    [f(r) == truth], or -1.  [i] is the index of [s] in the whole string;
    every round consumes at least one byte. *)
Fixpoint indexFunc_loop (fuel : nat) (f : rune -> bool) (truth : bool)
         (s : gostring) (i : Z) : Z :=
  match fuel with
  | O => -1
  | S k =>
    match s with
    | [] => -1
    | _ =>
      let '(r, w) := utf8.DecodeRuneInString s in
      if Bool.eqb (f r) truth then i
      else indexFunc_loop k f truth (from w s) (i + Z.of_nat w)
    end
  end.

Definition indexFunc (s : gostring) (f : rune -> bool) (truth : bool) : Z :=
  indexFunc_loop (len s) f truth s 0.

(** [lastIndexFunc]: the index of the last rune [r] of [s] with
    [f(r) == truth], or -1; [for i := len(s); i > 0; ]. *)
Fixpoint lastIndexFunc_loop (fuel : nat) (f : rune -> bool) (truth : bool)
         (s : gostring) (i : Z) : Z :=
  match fuel with
  | O => -1
  | S k =>
    if 0 <? i then
      let '(r, size) := utf8.DecodeLastRuneInString (upto (Z.to_nat i) s) in
      let i := i - Z.of_nat size in
      if Bool.eqb (f r) truth then i
      else lastIndexFunc_loop k f truth s i
    else -1
  end.

Definition lastIndexFunc (s : gostring) (f : rune -> bool) (truth : bool) : Z :=
  lastIndexFunc_loop (S (len s)) f truth s (Z.of_nat (len s)).

Definition TrimLeftFunc (s : gostring) (f : rune -> bool) : gostring :=
  let i := indexFunc s f false in
  if i =? -1 then [] else from (Z.to_nat i) s.

Definition TrimRightFunc (s : gostring) (f : rune -> bool) : gostring :=
  let i := lastIndexFunc s f false in
  let i :=
    if (0 <=? i) && (utf8.RuneSelf <=? at_ s i) then
      let '(_, wid) := utf8.DecodeRuneInString (from (Z.to_nat i) s) in
      i + Z.of_nat wid
    else i + 1 in
  upto (Z.to_nat i) s.

Definition TrimFunc (s : gostring) (f : rune -> bool) : gostring :=
  TrimRightFunc (TrimLeftFunc s f) f.

(** The second loop of [TrimSpace], from the end of [s[start:]]; [rs] is
    [s[start:stop]] backwards. *)
Fixpoint TrimSpace_stop (rs : list byte) : gostring :=
  match rs with
  | [] => []
  | c :: t =>
    if utf8.RuneSelf <=? b2z c then TrimRightFunc (rev rs) unicode.IsSpace
    else if asciiSpace (b2z c) then TrimSpace_stop t
    else rev rs
  end.

(** [TrimSpace]: the ASCII loops, and the Unicode-aware functions from the
    first byte that is not ASCII. *)
Fixpoint TrimSpace (s : gostring) : gostring :=
  match s with
  | [] => []
  | c :: t =>
    if utf8.RuneSelf <=? b2z c then TrimFunc s unicode.IsSpace
    else if asciiSpace (b2z c) then TrimSpace t
    else TrimSpace_stop (rev s)
  end.

(** The second loop of [Map], once the output buffer exists: every rune of
    the rest is mapped and written, a negative result is dropped. *)
Fixpoint Map_rest (fuel : nat) (mapping : rune -> rune) (s : gostring)
  : gostring :=
  match fuel with
  | O => []
  | S k =>
    match s with
    | [] => []
    | _ =>
      let '(c, w) := utf8.DecodeRuneInString s in
      let r := mapping c in
      (if 0 <=? r then
         if r <? utf8.RuneSelf then [ z2b r ] else utf8.EncodeRune r
       else [])
      ++ Map_rest k mapping (from w s)
    end
  end.

(** The first loop of [Map]: [None] while nothing differs (the buffer is
    not allocated), otherwise the output. *)
Fixpoint Map_first (fuel : nat) (mapping : rune -> rune) (s : gostring)
  : option gostring :=
  match fuel with
  | O => None
  | S k =>
    match s with
    | [] => None
    | _ =>
      let '(c, w) := utf8.DecodeRuneInString s in
      let r := mapping c in
      if (r =? c) && negb (c =? utf8.RuneError) then
        option_map (app (upto w s)) (Map_first k mapping (from w s))
      else if (c =? utf8.RuneError) && negb (w =? 1)%nat && (r =? c) then
        option_map (app (upto w s)) (Map_first k mapping (from w s))
      else
        let width :=
          if c =? utf8.RuneError then w else Z.to_nat (utf8.RuneLen c) in
        Some ((if 0 <=? r then utf8.EncodeRune r else [])
              ++ Map_rest k mapping (from width s))
    end
  end.

Definition Map (mapping : rune -> rune) (s : gostring) : gostring :=
  match Map_first (len s) mapping s with
  | None => s
  | Some b => b
  end.

Section Case.
Variable caseLower : rune -> rune.

(** [ToLower]: a string of ASCII bytes is copied with its upper-case
    letters replaced; any other string goes through [Map]. *)
Definition ToLower (s : gostring) : gostring :=
  let isASCII := forallb (fun c => b2z c <? utf8.RuneSelf) s in
  let hasUpper := existsb (fun c => (0x41 <=? b2z c) && (b2z c <=? 0x5A)) s in
  if isASCII then
    if negb hasUpper then s
    else map (fun c => if (0x41 <=? b2z c) && (b2z c <=? 0x5A)
                       then z2b (b2z c + (0x61 - 0x41)) else c) s
  else Map (unicode.ToLower caseLower) s.

End Case.

End strings.

(** Equality of strings, as Go's [==] and the store's binary collation
    compare them: byte by byte. *)
Definition string_eq_dec : forall a b : gostring, {a = b} + {a <> b} :=
  list_eq_dec ascii_dec.

Definition streq (a b : gostring) : bool :=
  if string_eq_dec a b then true else false.

(** A Go slice: [nil], or a (possibly empty) sequence of elements. *)
Inductive slice (A : Type) : Type :=
| nil_slice
| mk_slice (elems : list A).
Arguments nil_slice {A}.
Arguments mk_slice {A} elems.

(** ** Effects

    A method that reads or writes what lies behind a handle (the database
    behind [*gorm.DB]) is a function of that state. *)
Definition M (St A : Type) : Type := St -> A * St.

Definition ret {St A : Type} (a : A) : M St A := fun st => (a, st).

Definition bind {St A B : Type} (m : M St A) (k : A -> M St B) : M St B :=
  fun st => let '(a, st') := m st in k a st'.

Notation "x <- m ;; k" := (bind m (fun x => k))
  (at level 61, m at next level, right associativity).
Notation "' pat <- m ;; k" := (bind m (fun x => match x with pat => k end))
  (at level 61, pat pattern, m at next level, right associativity).

(** ** Errors

    The values of Go's [error] that this program meets; [nil] is [None]. *)

(** A [validator.FieldError]: namespace, field and failed tag. *)
Record FieldError := { fe_ns : gostring; fe_field : gostring; fe_tag : gostring }.

Inductive error :=
| SyntaxError (msg : gostring)
  (* encoding/json: the body is not a JSON text; [msg] is the decoder's *)
| UnmarshalTypeError (Value : gostring) (Field : option gostring)
  (* encoding/json: a JSON value of the wrong kind for the Go target *)
| ValidationErrors (fes : list FieldError)
  (* go-playground/validator *)
| DriverError (msg : gostring)
  (* database/sql: the connection or the statement failed *)
| UniqueConstraintError (column : gostring)
  (* sqlite: a UNIQUE or PRIMARY KEY constraint failed *).

Definition newline : gostring := [ "010"%char ].

Definition FieldError_Error (fe : FieldError) : gostring :=
  go "Key: '" ++ fe_ns fe ++ go "' Error:Field validation for '"
  ++ fe_field fe ++ go "' failed on the '" ++ fe_tag fe ++ go "' tag".

(** The method [Error()]. *)
Definition Error (e : error) : gostring :=
  match e with
  | SyntaxError msg => msg
  | UnmarshalTypeError v None =>
    go "json: cannot unmarshal " ++ v
    ++ go " into Go value of type handlers.createUserRequest"
  | UnmarshalTypeError v (Some f) =>
    go "json: cannot unmarshal " ++ v
    ++ go " into Go struct field createUserRequest." ++ f
    ++ go " of type string"
  | ValidationErrors fes =>
    strings.TrimSpace
      (List.concat (map (fun fe => FieldError_Error fe ++ newline) fes))
  | DriverError msg => msg
  | UniqueConstraintError column => go "UNIQUE constraint failed: " ++ column
  end.

(** ** Package domain *)

Module domain.

(** A [time.Time], as the time elapsed since its zero value. *)
Definition Time := Z.
Definition zeroTime : Time := 0.

Record User := {
  ID : Z;                 (* uint; gorm:"primaryKey;autoIncrement" *)
  Nombre : gostring;
  Apellido : gostring;
  Email : gostring;       (* gorm:"uniqueIndex" *)
  Reparto : gostring;
  CreatedAt : Time;
  UpdatedAt : Time
}.

End domain.
Import domain.

(** ** The store behind [*gorm.DB]

    The mapper (GORM) and the database (SQLite) are libraries, not part of
    the program; this is what the program relies on.  The state is the
    table [users] that [AutoMigrate] creates from the tags of
    [domain.User] (an autoincremented primary key, a unique index on
    [email], compared byte by byte), the clock the mapper reads, and the
    condition of the connection. *)

Module gorm.

Record DB := {
  users : list User;      (* the rows, in the order they were inserted *)
  seq : Z;                (* the largest id the table has given out *)
  now : Time;             (* the current time *)
  fault : option error    (* the failure of the next statement, if the
                             connection is not in order *)
}.

Definition with_rows (d : DB) (rows : list User) (n : Z) : DB :=
  {| users := rows; seq := n; now := now d; fault := fault d |}.

(** The timestamps the mapper fills in before an insert: a zero field
    becomes the current time. *)
Definition stamp (d : DB) (u : User) : User :=
  {| ID := ID u; Nombre := Nombre u; Apellido := Apellido u;
     Email := Email u; Reparto := Reparto u;
     CreatedAt := if CreatedAt u =? zeroTime then now d else CreatedAt u;
     UpdatedAt := if UpdatedAt u =? zeroTime then now d else UpdatedAt u |}.

Definition with_ID (u : User) (id : Z) : User :=
  {| ID := id; Nombre := Nombre u; Apellido := Apellido u;
     Email := Email u; Reparto := Reparto u;
     CreatedAt := CreatedAt u; UpdatedAt := UpdatedAt u |}.

(** [db.Create(user).Error]: one INSERT.  A zero [ID] is assigned by the
    table; the row is refused when its key or its email is already there.
    The record behind the pointer is updated, so the result carries it. *)
Definition Create (u : User) : M DB (User * option error) :=
  fun d =>
    let u := stamp d u in
    match fault d with
    | Some e => ((u, Some e), d)
    | None =>
      let id := if ID u =? 0 then seq d + 1 else ID u in
      if existsb (fun r => ID r =? id) (users d) then
        ((u, Some (UniqueConstraintError (go "users.id"))), d)
      else if existsb (fun r => streq (Email r) (Email u)) (users d) then
        ((u, Some (UniqueConstraintError (go "users.email"))), d)
      else
        let row := with_ID u id in
        ((row, None), with_rows d (users d ++ [row]) (Z.max (seq d) id))
    end.

(** [db.Find(&users).Error]: one SELECT of the whole table.  The mapper
    makes the destination a slice that is not nil even when there is no
    row. *)
Definition Find : M DB (slice User * option error) :=
  fun d =>
    match fault d with
    | Some e => ((nil_slice, Some e), d)
    | None => ((mk_slice (users d), None), d)
    end.

End gorm.

(** ** Package repository *)

Module repository.

(** The interface [UserRepository], over whatever state an implementation
    works on.  [CreateUser] takes a pointer: it returns the record as the
    callee leaves it, with the error. *)
Record UserRepository (St : Type) := {
  CreateUser : User -> M St (User * option error);
  GetAllUsers : M St (slice User * option error)
}.
Arguments CreateUser {St}.
Arguments GetAllUsers {St}.

(** The implementation [userRepository], on a [*gorm.DB]. *)
Definition userRepository_CreateUser (user : User)
  : M gorm.DB (User * option error) :=
  gorm.Create user.

Definition userRepository_GetAllUsers : M gorm.DB (slice User * option error) :=
  '(users, err) <- gorm.Find ;;
  ret (users, err).

Definition NewUserRepository : UserRepository gorm.DB :=
  {| CreateUser := userRepository_CreateUser;
     GetAllUsers := userRepository_GetAllUsers |}.

End repository.

(** ** Package service *)

Module service.

(** The interface [UserService]. *)
Record UserService (St : Type) := {
  CreateUser : gostring -> gostring -> gostring -> gostring -> M St (option error);
  GetAllUsers : M St (slice User * option error)
}.
Arguments CreateUser {St}.
Arguments GetAllUsers {St}.

Section userService.
Variable caseLower : rune -> rune.
Context {St : Type}.
(** The field [repo] of [userService]. *)
Variable repo : repository.UserRepository St.

Definition userService_CreateUser (nombre apellido email reparto : gostring)
  : M St (option error) :=
  let u := {| ID := 0;
              Nombre := strings.TrimSpace nombre;
              Apellido := strings.TrimSpace apellido;
              Email := strings.ToLower caseLower (strings.TrimSpace email);
              Reparto := strings.TrimSpace reparto;
              CreatedAt := zeroTime;
              UpdatedAt := zeroTime |} in
  '(_, err) <- repository.CreateUser repo u ;;
  match err with
  | Some e => ret (Some e)
  | None => ret None
  end.

Definition userService_GetAllUsers : M St (slice User * option error) :=
  repository.GetAllUsers repo.

Definition NewUserService : UserService St :=
  {| CreateUser := userService_CreateUser;
     GetAllUsers := userService_GetAllUsers |}.

End userService.

End service.

(** ** JSON values and HTTP messages *)

#[local] Unset Elimination Schemes.
Inductive JSON :=
| JNull
| JBool (b : bool)
| JNumber (n : Z)
| JString (s : gostring)
| JArray (elems : list JSON)
| JObject (members : list (gostring * JSON)).
#[local] Set Elimination Schemes.

(** The body of a request as [encoding/json] reads it: no JSON text (or no
    body at all), with the text of the error the decoder gives, or the
    first JSON value of the body. *)
Inductive RequestBody :=
| Unreadable (msg : gostring)
| Document (v : JSON).

Record Request := { Method : gostring; Path : gostring; Body : RequestBody }.

(** What [c.JSON(code, obj)] writes. *)
Record Response := { Status : Z; Payload : JSON }.

Definition StatusOK : Z := 200.
Definition StatusCreated : Z := 201.
Definition StatusBadRequest : Z := 400.
Definition StatusInternalServerError : Z := 500.

Definition HandlerFunc (St : Type) : Type := Request -> M St Response.

(** [gin.H] with one string entry. *)
Definition H (key : string) (value : gostring) : JSON :=
  JObject [ (go key, JString value) ].

(** ** Package handlers *)

Module handlers.

Record createUserRequest := {
  Nombre : gostring;      (* json:"nombre" binding:"required" *)
  Apellido : gostring;    (* json:"apellido" binding:"required" *)
  Email : gostring;       (* json:"email" binding:"required,email" *)
  Reparto : gostring      (* json:"reparto" binding:"required" *)
}.

Inductive field := fNombre | fApellido | fEmail | fReparto.

Definition jsonName (f : field) : gostring :=
  match f with
  | fNombre => go "nombre"
  | fApellido => go "apellido"
  | fEmail => go "email"
  | fReparto => go "reparto"
  end.

Definition goName (f : field) : gostring :=
  match f with
  | fNombre => go "Nombre"
  | fApellido => go "Apellido"
  | fEmail => go "Email"
  | fReparto => go "Reparto"
  end.

Definition get (f : field) (req : createUserRequest) : gostring :=
  match f with
  | fNombre => Nombre req
  | fApellido => Apellido req
  | fEmail => Email req
  | fReparto => Reparto req
  end.

Definition set (f : field) (v : gostring) (req : createUserRequest)
  : createUserRequest :=
  match f with
  | fNombre => {| Nombre := v; Apellido := Apellido req;
                  Email := Email req; Reparto := Reparto req |}
  | fApellido => {| Nombre := Nombre req; Apellido := v;
                    Email := Email req; Reparto := Reparto req |}
  | fEmail => {| Nombre := Nombre req; Apellido := Apellido req;
                 Email := v; Reparto := Reparto req |}
  | fReparto => {| Nombre := Nombre req; Apellido := Apellido req;
                   Email := Email req; Reparto := v |}
  end.

(** The zero value of [var req createUserRequest]. *)
Definition zeroRequest : createUserRequest :=
  {| Nombre := []; Apellido := []; Email := []; Reparto := [] |}.

(** *** Decoding ([encoding/json] into [createUserRequest])

    A key selects the field whose name it equals, or else equals without
    regard to case.  The four names are ASCII letters without [k] or [s],
    so only keys of ASCII letters can match them. *)
Definition foldByte (c : byte) : byte :=
  if (0x61 <=? b2z c) && (b2z c <=? 0x7A) then z2b (b2z c - (0x61 - 0x41))
  else c.

Definition foldName (s : gostring) : gostring := map foldByte s.

Definition fields : list field := [fNombre; fApellido; fEmail; fReparto].

Definition fieldOf (key : gostring) : option field :=
  match find (fun f => streq key (jsonName f)) fields with
  | Some f => Some f
  | None =>
    find (fun f => streq (foldName key) (foldName (jsonName f))) fields
  end.

Definition kindName (v : JSON) : gostring :=
  match v with
  | JNull => go "null"
  | JBool _ => go "bool"
  | JNumber _ => go "number"
  | JString _ => go "string"
  | JArray _ => go "array"
  | JObject _ => go "object"
  end.

(** The decoder keeps the first type error and goes on. *)
Definition saveError (saved : option error) (e : error) : option error :=
  match saved with
  | None => Some e
  | Some _ => saved
  end.

Fixpoint decodeObject (members : list (gostring * JSON))
         (req : createUserRequest) (saved : option error)
  : createUserRequest * option error :=
  match members with
  | [] => (req, saved)
  | (key, v) :: rest =>
    match fieldOf key with
    | None => decodeObject rest req saved
    | Some f =>
      match v with
      | JString s => decodeObject rest (set f s req) saved
      | JNull => decodeObject rest req saved
      | _ =>
        decodeObject rest req
          (saveError saved (UnmarshalTypeError (kindName v) (Some (jsonName f))))
      end
    end
  end.

Definition Unmarshal (v : JSON) (req : createUserRequest)
  : createUserRequest * option error :=
  match v with
  | JNull => (req, None)
  | JObject members => decodeObject members req None
  | _ => (req, Some (UnmarshalTypeError (kindName v) None))
  end.

Section Handler.
(** The pattern of the validator's [email] tag, a regular expression of
    that library, as a predicate. *)
Variable emailFormat : gostring -> bool.
(** [time.Time.MarshalJSON]: the RFC 3339 form of a time. *)
Variable formatTime : Time -> gostring.
Context {St : Type}.

(** *** Validation (the [binding] tags) *)

Definition failed (f : field) (tag : string) : FieldError :=
  {| fe_ns := go "createUserRequest." ++ goName f;
     fe_field := goName f;
     fe_tag := go tag |}.

(** [required]: the string is not the zero value. *)
Definition required (f : field) (req : createUserRequest) : list FieldError :=
  if (len (get f req) =? 0)%nat then [ failed f "required" ] else [].

(** [required,email]: the second tag is tried when the first holds. *)
Definition required_email (f : field) (req : createUserRequest)
  : list FieldError :=
  if (len (get f req) =? 0)%nat then [ failed f "required" ]
  else if emailFormat (get f req) then []
  else [ failed f "email" ].

Definition validate (req : createUserRequest) : option error :=
  match required fNombre req ++ required fApellido req
        ++ required_email fEmail req ++ required fReparto req with
  | [] => None
  | fes => Some (ValidationErrors fes)
  end.

(** [c.ShouldBindJSON(&req)]: decode, then validate. *)
Definition ShouldBindJSON (body : RequestBody) (req : createUserRequest)
  : createUserRequest * option error :=
  match body with
  | Unreadable msg => (req, Some (SyntaxError msg))
  | Document v =>
    let '(req, err) := Unmarshal v req in
    match err with
    | Some e => (req, Some e)
    | None => (req, validate req)
    end
  end.

(** *** Encoding ([encoding/json] on [domain.User], by the [json] tags);
    a nil slice is written as [null]. *)
Definition User_JSON (u : User) : JSON :=
  JObject [ (go "id", JNumber (ID u));
            (go "nombre", JString (domain.Nombre u));
            (go "apellido", JString (domain.Apellido u));
            (go "email", JString (domain.Email u));
            (go "reparto", JString (domain.Reparto u));
            (go "created_at", JString (formatTime (CreatedAt u)));
            (go "updated_at", JString (formatTime (UpdatedAt u))) ].

Definition Users_JSON (users : slice User) : JSON :=
  match users with
  | nil_slice => JNull
  | mk_slice l => JArray (map User_JSON l)
  end.

(** *** The handler *)

Record UserHandler := { svc : service.UserService St }.

Definition NewUserHandler (svc : service.UserService St) : UserHandler :=
  {| svc := svc |}.

Definition CreateUser (h : UserHandler) : HandlerFunc St :=
  fun c =>
    let '(req, err) := ShouldBindJSON (Body c) zeroRequest in
    match err with
    | Some e =>
      ret {| Status := StatusBadRequest; Payload := H "error" (Error e) |}
    | None =>
      err <- service.CreateUser (svc h) (Nombre req) (Apellido req)
                                (Email req) (Reparto req) ;;
      match err with
      | Some _ =>
        ret {| Status := StatusInternalServerError;
               Payload := H "error" (go "no se pudo crear el usuario") |}
      | None =>
        ret {| Status := StatusCreated;
               Payload := H "message" (go "usuario creado exitosamente") |}
      end
    end.

Definition ListUsers (h : UserHandler) : HandlerFunc St :=
  fun c =>
    '(users, err) <- service.GetAllUsers (svc h) ;;
    match err with
    | Some _ =>
      ret {| Status := StatusInternalServerError;
             Payload := H "error" (go "no se pudo obtener usuarios") |}
    | None => ret {| Status := StatusOK; Payload := Users_JSON users |}
    end.

(** A route: method, full path, handler. *)
Definition Route : Type := gostring * gostring * HandlerFunc St.

(** [RegisterRoutes], on a [*gin.RouterGroup] with the given base path:
    the routes it adds to the engine. *)
Definition RegisterRoutes (h : UserHandler) (basePath : gostring)
  : list Route :=
  [ (go "POST", basePath ++ go "/usuarios", CreateUser h);
    (go "GET", basePath ++ go "/usuarios", ListUsers h) ].

End Handler.

End handlers.

(** ** The environment of the process (package os)

    The variables of the process, the one set last first; a name has the
    value of its first entry. *)

Module os.

Definition Environ : Type := list (gostring * gostring).

Inductive Errno := EINVAL.

Definition isSet (key : gostring) (env : Environ) : bool :=
  existsb (fun kv => streq (fst kv) key) env.

(** [os.LookupEnv]: the value and [ok], or not [ok]. *)
Definition LookupEnv (key : gostring) (env : Environ) : option gostring :=
  if (len key =? 0)%nat then None
  else match find (fun kv => streq (fst kv) key) env with
       | Some kv => Some (snd kv)
       | None => None
       end.

(** [os.Setenv]: a name that is empty or has [=] or a zero byte, and a
    value that has a zero byte, are refused. *)
Definition Setenv (key value : gostring) : M Environ (option Errno) :=
  fun env =>
    if (len key =? 0)%nat then (Some EINVAL, env)
    else if existsb (fun c => (b2z c =? 0x3D) || (b2z c =? 0)) key then
      (Some EINVAL, env)
    else if existsb (fun c => b2z c =? 0) value then (Some EINVAL, env)
    else (None, (key, value) :: env).

End os.

(** ** The file [.env] (package godotenv, a library)

    What the library reads from the file: the text of its error when the
    file is not there or is not well formed, or else the variables of the
    file, a name having the value of its first entry. *)

Module godotenv.

Inductive File :=
| NoFile (msg : gostring)
| Vars (envMap : list (gostring * gostring)).

(** [godotenv.Load()]: every variable of the file that the process does
    not have when the call begins is set; what [Setenv] answers is
    dropped. *)
Definition Load (file : File) : M os.Environ (option gostring) :=
  fun env =>
    match file with
    | NoFile msg => (Some msg, env)
    | Vars envMap =>
      (None,
       fold_right (fun kv e =>
                     if os.isSet (fst kv) env then e
                     else snd (os.Setenv (fst kv) (snd kv) e))
                  env envMap)
    end.

End godotenv.

(** ** Package config *)

Module config.

Record Config := { Env : gostring; HttpPort : gostring; DatabaseDSN : gostring }.

Definition getEnv (key def : gostring) : M os.Environ gostring :=
  fun env =>
    match os.LookupEnv key env with
    | Some val => (val, env)
    | None => (def, env)
    end.

Definition Load (file : godotenv.File) : M os.Environ Config :=
  _ <- godotenv.Load file ;;
  env <- getEnv (go "APP_ENV") (go "dev") ;;
  port <- getEnv (go "HTTP_PORT") (go "8080") ;;
  dsn <- getEnv (go "DATABASE_DSN")
                (go "user:password@tcp(localhost:3306)/dbname") ;;
  ret {| Env := env; HttpPort := port; DatabaseDSN := dsn |}.

End config.

(** ** Package http *)

Module http.

Section Server.
Variable emailFormat : gostring -> bool.
Variable formatTime : Time -> gostring.
Context {St : Type}.

(** A [*gin.Engine] is its routes; [gin.Default] has none, and its two
    middlewares (logging, recovery from panics) do not change what a
    handler writes. *)
Record Server := { engine : list (@handlers.Route St); cfg : config.Config }.

Definition health : HandlerFunc St :=
  fun c => ret {| Status := 200; Payload := H "status" (go "ok") |}.

Definition NewServer (cfg : config.Config) (userHandler : handlers.UserHandler)
  : Server :=
  let r := [ (go "GET", go "/health", health) ] in
  let api := go "/api/v1" in
  {| engine := r ++ handlers.RegisterRoutes emailFormat formatTime userHandler api;
     cfg := cfg |}.

(** The handler the engine has for a method and a path; every path here is
    fixed, so a route is found by equality. *)
Definition route (s : Server) (method path : gostring)
  : option (HandlerFunc St) :=
  match find (fun rt => streq (fst (fst rt)) method && streq (snd (fst rt)) path)
             (engine s) with
  | Some rt => Some (snd rt)
  | None => None
  end.

(** Serving a request that has a route. *)
Definition ServeHTTP (s : Server) (c : Request) : option (M St Response) :=
  match route s (Method c) (Path c) with
  | Some h => Some (h c)
  | None => None
  end.

(** [Run]: the address is written to the log and the engine listens on
    it.  [listen] is [Engine.Run], which returns when listening fails;
    the state is the text the program has logged, a message a line. *)
Definition Run (s : Server) (listen : gostring -> option error)
  : M (list gostring) (option error) :=
  fun lines =>
    let addr := go ":" ++ config.HttpPort (cfg s) in
    (listen addr, lines ++ [ go "escuchando en " ++ addr ]).

End Server.

End http.

(** ** Package db and the wiring of [main] *)

Module db.

(** [NewDatabase]: the handle on a database whose table [users] exists.
    On a new database the table is empty. *)
Definition NewDatabase (clock : Time) : gorm.DB :=
  {| gorm.users := []; gorm.seq := 0; gorm.now := clock; gorm.fault := None |}.

End db.

Section Main.
Variable caseLower : rune -> rune.
Variable emailFormat : gostring -> bool.
Variable formatTime : Time -> gostring.

Definition userRepo : repository.UserRepository gorm.DB :=
  repository.NewUserRepository.

Definition userSvc : service.UserService gorm.DB :=
  service.NewUserService caseLower userRepo.

Definition userHandler : @handlers.UserHandler gorm.DB :=
  handlers.NewUserHandler userSvc.

Definition server (cfg : config.Config) : @http.Server gorm.DB :=
  http.NewServer emailFormat formatTime cfg userHandler.

End Main.
(** ** Vocabulary of the properties *)

(** A rune that [EncodeRune] writes as it is. *)
Definition ValidRune (r : rune) : Prop :=
  0 <= r <= utf8.MaxRune /\ ~ (utf8.surrogateMin <= r <= utf8.surrogateMax).

(** The byte ranges a second byte may be in, by the first byte. *)
Definition second_lo (s0 : Z) : Z :=
  if s0 =? 0xE0 then 0xA0 else if s0 =? 0xF0 then 0x90 else 0x80.
Definition second_hi (s0 : Z) : Z :=
  if s0 =? 0xED then 0x9F else if s0 =? 0xF4 then 0x8F else 0xBF.

(** The strings [DecodeRuneInString] accepts, by their bytes. *)
Inductive Shape : gostring -> Prop :=
| Shape1 c0 t : b2z c0 < 0x80 -> Shape (c0 :: t)
| Shape2 c0 c1 t :
    0xC2 <= b2z c0 <= 0xDF -> 0x80 <= b2z c1 <= 0xBF -> Shape (c0 :: c1 :: t)
| Shape3 c0 c1 c2 t :
    0xE0 <= b2z c0 <= 0xEF ->
    second_lo (b2z c0) <= b2z c1 <= second_hi (b2z c0) ->
    0x80 <= b2z c2 <= 0xBF -> Shape (c0 :: c1 :: c2 :: t)
| Shape4 c0 c1 c2 c3 t :
    0xF0 <= b2z c0 <= 0xF4 ->
    second_lo (b2z c0) <= b2z c1 <= second_hi (b2z c0) ->
    0x80 <= b2z c2 <= 0xBF -> 0x80 <= b2z c3 <= 0xBF ->
    Shape (c0 :: c1 :: c2 :: c3 :: t).

(** The form of an encoding: a first byte, then continuation bytes. *)
Inductive Enc : gostring -> Prop :=
| Enc1 a : b2z a < 0x80 -> Enc [a]
| Enc2 a b : 0xC0 <= b2z a -> 0x80 <= b2z b <= 0xBF -> Enc [a; b]
| Enc3 a b c :
    0xC0 <= b2z a -> 0x80 <= b2z b <= 0xBF -> 0x80 <= b2z c <= 0xBF ->
    Enc [a; b; c]
| Enc4 a b c d :
    0xC0 <= b2z a -> 0x80 <= b2z b <= 0xBF -> 0x80 <= b2z c <= 0xBF ->
    0x80 <= b2z d <= 0xBF -> Enc [a; b; c; d].

(** The concatenated encodings of a sequence of runes. *)
Definition encodeAll (rs : list rune) : gostring :=
  List.concat (map utf8.EncodeRune rs).

(** A string made of white space only. *)
Definition Spaces (s : gostring) : Prop :=
  exists rs, Forall (fun r => unicode.IsSpace r = true) rs /\ s = encodeAll rs.

(** The first, respectively last, rune of the string is white space. *)
Definition startsSpace (s : gostring) : bool :=
  unicode.IsSpace (fst (utf8.DecodeRuneInString s)).
Definition endsSpace (s : gostring) : bool :=
  unicode.IsSpace (fst (utf8.DecodeLastRuneInString s)).

(** A string without white space at either end. *)
Definition Trimmed (s : gostring) : Prop :=
  startsSpace s = false /\ endsSpace s = false.

(** [TrimLeftFunc] and [TrimRightFunc] with [unicode.IsSpace], without the
    indices: the runes are dropped one by one. *)
Fixpoint trimLeft (fuel : nat) (s : gostring) : gostring :=
  match fuel with
  | O => []
  | S k =>
    match s with
    | [] => []
    | _ =>
      let '(r, w) := utf8.DecodeRuneInString s in
      if unicode.IsSpace r then trimLeft k (from w s) else s
    end
  end.

Fixpoint trimRight (fuel : nat) (s : gostring) : gostring :=
  match fuel with
  | O => []
  | S k =>
    match s with
    | [] => []
    | _ =>
      let '(r, w) := utf8.DecodeLastRuneInString s in
      if unicode.IsSpace r then trimRight k (upto (len s - w) s) else s
    end
  end.

(** What [Map] writes for a mapped rune. *)
Definition written (r : rune) : gostring :=
  if 0 <=? r then
    if r <? utf8.RuneSelf then [ z2b r ] else utf8.EncodeRune r
  else [].

(** [Map] as the replacement of every rune. *)
Definition mapAll (mapping : rune -> rune) (s : gostring) : gostring :=
  strings.Map_rest (len s) mapping s.

(** What the properties of [ToLower] need of the case table of the Go
    distribution: a lower-case form is a valid rune, has itself as its
    lower-case form, and is white space only when the rune is. *)
Record LowerTable (caseLower : rune -> rune) : Prop := {
  lower_valid : forall r,
    ValidRune r -> unicode.MaxASCII < r -> ValidRune (caseLower r);
  lower_idem : forall r,
    ValidRune r -> unicode.MaxASCII < r ->
    unicode.ToLower caseLower (caseLower r) = caseLower r;
  lower_space : forall r,
    ValidRune r -> unicode.MaxASCII < r ->
    unicode.IsSpace (caseLower r) = true -> unicode.IsSpace r = true
}.

Definition isUpperByte (c : byte) : bool :=
  (0x41 <=? b2z c) && (b2z c <=? 0x5A).

(** A string of well-formed UTF-8 whose letters are all in lower case. *)
Definition LowerCased (caseLower : rune -> rune) (s : gostring) : Prop :=
  exists rs, s = encodeAll rs
    /\ Forall ValidRune rs
    /\ Forall (fun r => unicode.ToLower caseLower r = r) rs.

(** ** Vocabulary of the system *)

(** The record [CreateUser] of the service builds from its arguments. *)
Definition normalized (caseLower : rune -> rune)
           (nombre apellido email reparto : gostring) : User :=
  {| ID := 0;
     Nombre := strings.TrimSpace nombre;
     Apellido := strings.TrimSpace apellido;
     Email := strings.ToLower caseLower (strings.TrimSpace email);
     Reparto := strings.TrimSpace reparto;
     CreatedAt := zeroTime;
     UpdatedAt := zeroTime |}.

(** A repository that keeps, besides its own state, the list of the
    records [CreateUser] was called with. *)
Definition recording {St : Type} (repo : repository.UserRepository St)
  : repository.UserRepository (St * list User) :=
  {| repository.CreateUser := fun u st =>
       let '(res, st') := repository.CreateUser repo u (fst st) in
       (res, (st', snd st ++ [u]));
     repository.GetAllUsers := fun st =>
       let '(res, st') := repository.GetAllUsers repo (fst st) in
       (res, (st', snd st)) |}.

(** A service that counts the calls of its methods. *)
Definition counting {St : Type} (svc : service.UserService St)
  : service.UserService (St * nat) :=
  {| service.CreateUser := fun n a e r st =>
       let '(res, st') := service.CreateUser svc n a e r (fst st) in
       (res, (st', S (snd st)));
     service.GetAllUsers := fun st =>
       let '(res, st') := service.GetAllUsers svc (fst st) in
       (res, (st', S (snd st))) |}.

(** The body of a create request with the four fields. *)
Definition createBody (nombre apellido email reparto : gostring)
  : RequestBody :=
  Document (JObject [ (go "nombre", JString nombre);
                      (go "apellido", JString apellido);
                      (go "email", JString email);
                      (go "reparto", JString reparto) ]).

Definition POST_usuarios (body : RequestBody) : Request :=
  {| Method := go "POST"; Path := go "/api/v1/usuarios"; Body := body |}.

Definition GET_usuarios (body : RequestBody) : Request :=
  {| Method := go "GET"; Path := go "/api/v1/usuarios"; Body := body |}.

Definition GET_health (body : RequestBody) : Request :=
  {| Method := go "GET"; Path := go "/health"; Body := body |}.

(** A JSON object without a member for the field. *)
Definition Missing (f : handlers.field) (body : RequestBody) : Prop :=
  exists members,
    body = Document (JObject members)
    /\ forall key v, In (key, v) members -> handlers.fieldOf key <> Some f.

(** The submitted address is the stored one up to the case of its letters
    and to white space around it. *)
Definition SameAddress (caseLower : rune -> rune)
           (stored submitted : gostring) : Prop :=
  exists l c r,
    submitted = l ++ c ++ r /\ Spaces l /\ Spaces r /\ Trimmed c
    /\ strings.ToLower caseLower c = strings.ToLower caseLower stored.

(** What happens to the store: a request is served, time passes, the
    connection breaks or recovers. *)
Inductive event :=
| Serve (c : Request)
| Tick (t : Time)
| Connection (f : option error).

Section System.
Variable caseLower : rune -> rune.
Variable emailFormat : gostring -> bool.
Variable formatTime : Time -> gostring.
Variable cfg : config.Config.

Definition serve (c : Request) (d : gorm.DB) : option (Response * gorm.DB) :=
  match http.ServeHTTP (server caseLower emailFormat formatTime cfg) c with
  | Some m => Some (m d)
  | None => None
  end.

Definition after (d : gorm.DB) (ev : event) : gorm.DB :=
  match ev with
  | Serve c =>
    match serve c d with
    | Some (_, d') => d'
    | None => d
    end
  | Tick t =>
    {| gorm.users := gorm.users d; gorm.seq := gorm.seq d;
       gorm.now := t; gorm.fault := gorm.fault d |}
  | Connection f =>
    {| gorm.users := gorm.users d; gorm.seq := gorm.seq d;
       gorm.now := gorm.now d; gorm.fault := f |}
  end.

(** The states of the store the running program can be in. *)
Inductive Reachable : gorm.DB -> Prop :=
| Reachable_new clock : Reachable (db.NewDatabase clock)
| Reachable_after d ev : Reachable d -> Reachable (after d ev).

(** The invariant of the table. *)
Definition TableInv (d : gorm.DB) : Prop :=
  NoDup (map Email (gorm.users d))
  /\ NoDup (map ID (gorm.users d))
  /\ Forall (fun u => 0 < ID u <= gorm.seq d) (gorm.users d)
  /\ 0 <= gorm.seq d
  /\ Forall (fun u => exists e,
                 Email u = strings.ToLower caseLower (strings.TrimSpace e))
            (gorm.users d).

End System.

(** A fragment of the case table, the letters of Latin-1, and stand-ins
    for the mail pattern and the time format, to evaluate the system on
    examples. *)
Definition latin1Lower (r : rune) : rune :=
  if (0xC0 <=? r) && (r <=? 0xDE) && negb (r =? 0xD7) then r + 32 else r.

Definition hasAt (s : gostring) : bool := existsb (fun c => b2z c =? 0x40) s.

Definition noFormat (t : Time) : gostring := go "0001-01-01T00:00:00Z".

Definition devConfig : config.Config :=
  {| config.Env := go "dev"; config.HttpPort := go "8080";
     config.DatabaseDSN := go "user:password@tcp(localhost:3306)/dbname" |}.

(** The store after the create request of the documentation. *)
Definition juan : Request :=
  POST_usuarios (createBody (go "  Juan  ") (go "Pérez")
                            (go "JUAN@EXAMPLE.COM") (go "  IT  ")).

Definition withJuan : gorm.DB :=
  after latin1Lower hasAt noFormat devConfig (db.NewDatabase 1000) (Serve juan).

(** ** Vocabulary of the further properties *)

(** The store after a sequence of events. *)
Definition run (caseLower : rune -> rune) (emailFormat : gostring -> bool)
           (formatTime : Time -> gostring) (cfg : config.Config)
           (d : gorm.DB) (evs : list event) : gorm.DB :=
  fold_left (after caseLower emailFormat formatTime cfg) evs d.

(** The row the table makes of the record the service builds: the next
    id of the table and the time of the insert. *)
Definition inserted (caseLower : rune -> rune)
           (nombre apellido email reparto : gostring) (d : gorm.DB) : User :=
  {| ID := gorm.seq d + 1;
     Nombre := strings.TrimSpace nombre;
     Apellido := strings.TrimSpace apellido;
     Email := strings.ToLower caseLower (strings.TrimSpace email);
     Reparto := strings.TrimSpace reparto;
     CreatedAt := gorm.now d;
     UpdatedAt := gorm.now d |}.

(** A string of ASCII bytes, and its lower-case form byte by byte. *)
Definition isASCII (s : gostring) : Prop := Forall (fun c => b2z c < 0x80) s.

Definition lowerByte (c : byte) : byte :=
  if isUpperByte c then z2b (b2z c + 32) else c.

(** The variables of the configuration: name, default, field. *)
Definition variables : list (gostring * gostring * (config.Config -> gostring)) :=
  [ (go "APP_ENV", go "dev", config.Env);
    (go "HTTP_PORT", go "8080", config.HttpPort);
    (go "DATABASE_DSN", go "user:password@tcp(localhost:3306)/dbname",
     config.DatabaseDSN) ].

(** An entry of the file [.env] for the name, with a value the
    environment accepts. *)
Definition usable (key : gostring) (kv : gostring * gostring) : bool :=
  streq (fst kv) key && negb (existsb (fun c => b2z c =? 0) (snd kv)).

(** A member of a JSON object that decoding assigns to the field. *)
Definition assigns (f : handlers.field) (member : gostring * JSON) : Prop :=
  handlers.fieldOf (fst member) = Some f /\ exists s, snd member = JString s.


(** * Examples

    The library functions and the system on the requests of the
    documentation. *)

Example decode_two_bytes :
  utf8.DecodeRuneInString (go "éx") = (0xE9, 2%nat).
Proof. reflexivity. Qed.

Example decode_four_bytes :
  utf8.DecodeRuneInString (go "𝄞x") = (0x1D11E, 4%nat).
Proof. reflexivity. Qed.

Example decode_invalid :
  utf8.DecodeRuneInString [ z2b 0xE2; z2b 0x80; z2b 0x41 ]
  = (utf8.RuneError, 1%nat).
Proof. reflexivity. Qed.

Example decode_last_three_bytes :
  utf8.DecodeLastRuneInString (go "a€") = (0x20AC, 3%nat).
Proof. reflexivity. Qed.

Example encode_three_bytes : utf8.EncodeRune 0x20AC = go "€".
Proof. reflexivity. Qed.

Example encode_surrogate : utf8.EncodeRune 0xD800 = go "�".
Proof. reflexivity. Qed.

Example white_space :
  map unicode.IsSpace [0x20; 0x0A; 0x85; 0xA0; 0x1680; 0x2003; 0x3000;
                       0x200B; 0x41; -1]
  = [true; true; true; true; true; true; true; false; false; false].
Proof. reflexivity. Qed.

Example trim_ascii : strings.TrimSpace (go "  Juan  ") = go "Juan".
Proof. reflexivity. Qed.

Example trim_inner : strings.TrimSpace (go " a  b ") = go "a  b".
Proof. reflexivity. Qed.

Example trim_blank : strings.TrimSpace (go "   ") = [].
Proof. reflexivity. Qed.

(** An ideographic space and a no-break space around the text. *)
Example trim_unicode :
  strings.TrimSpace (go " 　 Pérez " ++ [ z2b 0xC2; z2b 0xA0 ]) = go "Pérez".
Proof. reflexivity. Qed.

(** A byte that is no UTF-8 is not white space. *)
Example trim_invalid :
  strings.TrimSpace ([ z2b 0xA0 ] ++ go " x ") = [ z2b 0xA0 ] ++ go " x".
Proof. reflexivity. Qed.

Example lower_ascii :
  strings.ToLower latin1Lower (go "JUAN@EXAMPLE.COM") = go "juan@example.com".
Proof. reflexivity. Qed.

Example lower_latin1 : strings.ToLower latin1Lower (go "PÉREZ") = go "pérez".
Proof. reflexivity. Qed.

(** [Map] writes a byte that is no UTF-8 as the error rune. *)
Example lower_invalid :
  strings.ToLower latin1Lower (go "É" ++ [ z2b 0xFF ]) = go "é�".
Proof. reflexivity. Qed.

(** The create request of the documentation: 201, and the row. *)
Example create_juan :
  serve latin1Lower hasAt noFormat devConfig juan (db.NewDatabase 1000)
  = Some ({| Status := 201;
             Payload := H "message" (go "usuario creado exitosamente") |},
          withJuan)
  /\ gorm.users withJuan
     = [ {| ID := 1; Nombre := go "Juan"; Apellido := go "Pérez";
            Email := go "juan@example.com"; Reparto := go "IT";
            CreatedAt := 1000; UpdatedAt := 1000 |} ].
Proof. split; reflexivity. Qed.

Example list_after_juan :
  serve latin1Lower hasAt noFormat devConfig
        (GET_usuarios (Unreadable (go "EOF"))) withJuan
  = Some ({| Status := 200;
             Payload :=
               JArray [ JObject [ (go "id", JNumber 1);
                                  (go "nombre", JString (go "Juan"));
                                  (go "apellido", JString (go "Pérez"));
                                  (go "email", JString (go "juan@example.com"));
                                  (go "reparto", JString (go "IT"));
                                  (go "created_at", JString (noFormat 1000));
                                  (go "updated_at", JString (noFormat 1000)) ] ] |},
          withJuan).
Proof. reflexivity. Qed.

Example list_empty :
  serve latin1Lower hasAt noFormat devConfig
        (GET_usuarios (Unreadable (go "EOF"))) (db.NewDatabase 1000)
  = Some ({| Status := 200; Payload := JArray [] |}, db.NewDatabase 1000).
Proof. reflexivity. Qed.

Example create_again :
  serve latin1Lower hasAt noFormat devConfig
        (POST_usuarios (createBody (go "Juana") (go "Paz")
                                   (go "Juan@Example.com") (go "IT")))
        withJuan
  = Some ({| Status := 500;
             Payload := H "error" (go "no se pudo crear el usuario") |},
          withJuan).
Proof. reflexivity. Qed.

Example create_bad_address :
  serve latin1Lower hasAt noFormat devConfig
        (POST_usuarios (createBody (go "Juana") (go "Paz")
                                   (go "not-an-email") (go "IT")))
        withJuan
  = Some ({| Status := 400;
             Payload :=
               H "error"
                 (go "Key: 'createUserRequest.Email' Error:Field validation for 'Email' failed on the 'email' tag") |},
          withJuan).
Proof. reflexivity. Qed.

Example create_without_fields :
  serve latin1Lower hasAt noFormat devConfig
        (POST_usuarios (Document (JObject [ (go "NOMBRE", JString (go "Juana"));
                                            (go "email", JNull);
                                            (go "edad", JNumber 30) ])))
        withJuan
  = Some ({| Status := 400;
             Payload :=
               H "error"
                 (go "Key: 'createUserRequest.Apellido' Error:Field validation for 'Apellido' failed on the 'required' tag"
                  ++ newline
                  ++ go "Key: 'createUserRequest.Email' Error:Field validation for 'Email' failed on the 'required' tag"
                  ++ newline
                  ++ go "Key: 'createUserRequest.Reparto' Error:Field validation for 'Reparto' failed on the 'required' tag") |},
          withJuan).
Proof. reflexivity. Qed.

Example create_wrong_kind :
  serve latin1Lower hasAt noFormat devConfig
        (POST_usuarios (Document (JObject [ (go "nombre", JNumber 7) ])))
        withJuan
  = Some ({| Status := 400;
             Payload :=
               H "error"
                 (go "json: cannot unmarshal number into Go struct field createUserRequest.nombre of type string") |},
          withJuan).
Proof. reflexivity. Qed.

Example health_ok :
  serve latin1Lower hasAt noFormat devConfig
        (GET_health (Unreadable (go "EOF"))) withJuan
  = Some ({| Status := 200; Payload := H "status" (go "ok") |}, withJuan).
Proof. reflexivity. Qed.

Example no_route :
  serve latin1Lower hasAt noFormat devConfig
        {| Method := go "DELETE"; Path := go "/api/v1/usuarios";
           Body := Unreadable (go "EOF") |} withJuan
  = None.
Proof. reflexivity. Qed.

Example load_defaults :
  config.Load (godotenv.NoFile (go "open .env: no such file or directory")) []
  = (devConfig, []).
Proof. reflexivity. Qed.

Example load_environment_first :
  config.Load (godotenv.Vars [ (go "HTTP_PORT", go "3000");
                               (go "APP_ENV", go "prod") ])
              [ (go "HTTP_PORT", go "9090") ]
  = ({| config.Env := go "prod"; config.HttpPort := go "9090";
        config.DatabaseDSN := go "user:password@tcp(localhost:3306)/dbname" |},
     [ (go "APP_ENV", go "prod"); (go "HTTP_PORT", go "9090") ]).
Proof. reflexivity. Qed.

Example load_empty_port :
  config.HttpPort
    (fst (config.Load (godotenv.Vars [ (go "HTTP_PORT", go "3000") ])
                      [ (go "HTTP_PORT", []) ]))
  = [].
Proof. reflexivity. Qed.

Example run_default_port :
  http.Run (server latin1Lower hasAt noFormat devConfig) (fun _ => None) []
  = (None, [ go "escuchando en :8080" ]).
Proof. reflexivity. Qed.
(** * Properties *)

(** ** Bytes and bit operations as arithmetic *)

Lemma b2z_range (c : byte) : 0 <= b2z c < 256.
Proof.
  unfold b2z. pose proof (N_ascii_bounded c). lia.
Qed.

Lemma z2b_b2z (c : byte) : z2b (b2z c) = c.
Proof.
  unfold z2b. rewrite Z.mod_small by apply b2z_range.
  unfold b2z. rewrite N2Z.id. apply ascii_N_embedding.
Qed.

Lemma b2z_z2b (z : Z) : b2z (z2b z) = z mod 256.
Proof.
  unfold b2z, z2b.
  pose proof (Z.mod_pos_bound z 256 ltac:(lia)) as Hb.
  rewrite N_ascii_embedding by lia.
  rewrite Z2N.id; lia.
Qed.

Lemma land_shiftl_low (a b n : Z) :
  0 <= n -> 0 <= b < 2 ^ n -> Z.land (Z.shiftl a n) b = 0.
Proof.
  intros Hn Hb. apply Z.bits_inj'. intros m Hm.
  rewrite Z.land_spec, Z.bits_0.
  destruct (Z.lt_ge_cases m n) as [Hlt | Hge].
  - now rewrite Z.shiftl_spec_low.
  - rewrite <- (Z.mod_small b (2 ^ n)) by lia.
    rewrite Z.mod_pow2_bits_high by lia. apply andb_false_r.
Qed.

Lemma lor_shiftl_add (a b n : Z) :
  0 <= n -> 0 <= b < 2 ^ n -> Z.lor (Z.shiftl a n) b = a * 2 ^ n + b.
Proof.
  intros Hn Hb.
  pose proof (Z.add_lor_land (Z.shiftl a n) b) as H.
  rewrite land_shiftl_low in H by assumption.
  rewrite Z.shiftl_mul_pow2 in * by assumption. lia.
Qed.

(** A property of all 256 byte values, by enumeration. *)
Lemma byte_values (f : Z -> bool) :
  forallb f (map Z.of_nat (seq 0 256)) = true ->
  forall b, 0 <= b < 256 -> f b = true.
Proof.
  intros H b Hb. rewrite forallb_forall in H. apply H.
  apply in_map_iff. exists (Z.to_nat b). split; [lia|].
  apply in_seq. lia.
Qed.

Import utf8.

Lemma RuneStart_spec (b : Z) :
  0 <= b < 256 -> RuneStart b = negb ((0x80 <=? b) && (b <=? 0xBF)).
Proof.
  intros Hb. apply Bool.eqb_prop.
  now apply (byte_values
    (fun b => Bool.eqb (RuneStart b) (negb ((0x80 <=? b) && (b <=? 0xBF))))).
Qed.


Ltac dlia := Z.div_mod_to_equations; lia.

Ltac pick :=
  repeat first [ split; [reflexivity | lia]
               | left; split; [reflexivity | lia]
               | right ].

Ltac zcmp :=
  repeat match goal with
  | |- context [?a <? ?b] =>
    destruct (Z.ltb_spec a b); cbn [andb orb negb]; cbv iota; try (exfalso; lia)
  | |- context [?a <=? ?b] =>
    destruct (Z.leb_spec a b); cbn [andb orb negb]; cbv iota; try (exfalso; lia)
  | |- context [?a =? ?b] =>
    destruct (Z.eqb_spec a b); cbn [andb orb negb]; cbv iota; try (exfalso; lia)
  end.

Lemma first_ascii b : b < 0x80 -> first b = as_.
Proof. intros. unfold first. zcmp; try reflexivity. Qed.
Lemma first_s1 b : 0xC2 <= b < 0xE0 -> first b = s1.
Proof. intros. unfold first. zcmp; try reflexivity. Qed.
Lemma at_0 c t : at_ (c :: t) 0 = b2z c.
Proof. reflexivity. Qed.
Lemma at_1 c0 c1 t : at_ (c0 :: c1 :: t) 1 = b2z c1.
Proof. reflexivity. Qed.
Lemma at_2 c0 c1 c2 t : at_ (c0 :: c1 :: c2 :: t) 2 = b2z c2.
Proof. reflexivity. Qed.
Lemma at_3 c0 c1 c2 c3 t : at_ (c0 :: c1 :: c2 :: c3 :: t) 3 = b2z c3.
Proof. reflexivity. Qed.

Lemma land_maskx a : Z.land a maskx = a mod 64.
Proof. apply (Z.land_ones a 6). lia. Qed.
Lemma land_mask2 a : Z.land a mask2 = a mod 32.
Proof. apply (Z.land_ones a 5). lia. Qed.
Lemma land_mask3 a : Z.land a mask3 = a mod 16.
Proof. apply (Z.land_ones a 4). lia. Qed.
Lemma land_mask4 a : Z.land a mask4 = a mod 8.
Proof. apply (Z.land_ones a 3). lia. Qed.

Lemma lor2 (a b : Z) :
  0 <= b < 64 -> Z.lor (Z.shiftl a 6) b = a * 64 + b.
Proof.
  intros Hb. rewrite lor_shiftl_add; change (2 ^ 6) with 64; lia.
Qed.

Lemma lor3 (a b c : Z) :
  0 <= b < 64 -> 0 <= c < 64 ->
  Z.lor (Z.lor (Z.shiftl a 12) (Z.shiftl b 6)) c = a * 4096 + b * 64 + c.
Proof.
  intros Hb Hc.
  rewrite (Z.shiftl_mul_pow2 b 6) by lia. change (2 ^ 6) with 64.
  rewrite lor_shiftl_add; change (2 ^ 12) with 4096; try lia.
  assert (E : a * 4096 + b * 64 = Z.shiftl (a * 64 + b) 6)
    by (rewrite Z.shiftl_mul_pow2 by lia; change (2 ^ 6) with 64; lia).
  rewrite E, lor2, <- E by lia. lia.
Qed.

Lemma lor4 (a b c d : Z) :
  0 <= b < 64 -> 0 <= c < 64 -> 0 <= d < 64 ->
  Z.lor (Z.lor (Z.lor (Z.shiftl a 18) (Z.shiftl b 12)) (Z.shiftl c 6)) d
  = a * 262144 + b * 4096 + c * 64 + d.
Proof.
  intros Hb Hc Hd.
  rewrite (Z.shiftl_mul_pow2 b 12) by lia. change (2 ^ 12) with 4096.
  rewrite lor_shiftl_add; change (2 ^ 18) with 262144; try lia.
  assert (E : a * 262144 + b * 4096 = Z.shiftl (a * 64 + b) 12)
    by (rewrite Z.shiftl_mul_pow2 by lia; change (2 ^ 12) with 4096; lia).
  rewrite E, lor3 by lia. lia.
Qed.

Lemma Decode_1 c0 t :
  b2z c0 < 0x80 -> DecodeRuneInString (c0 :: t) = (b2z c0, 1%nat).
Proof.
  intros H. unfold DecodeRuneInString. rewrite first_ascii by lia. reflexivity.
Qed.


Ltac codes :=
  change (Z.to_nat (Z.land s1 7)) with 2%nat;
  change (Z.to_nat (Z.land s2 7)) with 3%nat;
  change (Z.to_nat (Z.land s3 7)) with 3%nat;
  change (Z.to_nat (Z.land s4 7)) with 3%nat;
  change (Z.to_nat (Z.land s5 7)) with 4%nat;
  change (Z.to_nat (Z.land s6 7)) with 4%nat;
  change (Z.to_nat (Z.land s7 7)) with 4%nat;
  change (acceptRanges (Z.shiftr s1 4)) with (0x80, 0xBF);
  change (acceptRanges (Z.shiftr s2 4)) with (0xA0, 0xBF);
  change (acceptRanges (Z.shiftr s3 4)) with (0x80, 0xBF);
  change (acceptRanges (Z.shiftr s4 4)) with (0x80, 0x9F);
  change (acceptRanges (Z.shiftr s5 4)) with (0x90, 0xBF);
  change (acceptRanges (Z.shiftr s6 4)) with (0x80, 0xBF);
  change (acceptRanges (Z.shiftr s7 4)) with (0x80, 0x8F);
  change (as_ <=? s1) with false; change (as_ <=? s2) with false;
  change (as_ <=? s3) with false; change (as_ <=? s4) with false;
  change (as_ <=? s5) with false; change (as_ <=? s6) with false;
  change (as_ <=? s7) with false;
  change (as_ <=? xx) with true; change (as_ <=? as_) with true;
  change (Z.testbit xx 0) with true; change (Z.testbit as_ 0) with false;
  unfold outside, locb, hicb; cbn [fst snd len List.length Nat.ltb Nat.leb].

Lemma Decode_2 c0 c1 t :
  0xC2 <= b2z c0 <= 0xDF -> 0x80 <= b2z c1 <= 0xBF ->
  DecodeRuneInString (c0 :: c1 :: t)
  = ((b2z c0 - 0xC0) * 64 + (b2z c1 - 0x80), 2%nat).
Proof.
  intros H0 H1. unfold DecodeRuneInString. rewrite first_s1 by lia.
  rewrite at_1. codes. zcmp. cbn [orb]. 
  rewrite land_mask2, land_maskx, lor2 by dlia.
  f_equal. dlia.
Qed.

Lemma first_3 (b : Z) :
  0xE0 <= b <= 0xEF ->
  first b = s2 /\ b = 0xE0 \/ first b = s4 /\ b = 0xED
  \/ first b = s3 /\ b <> 0xE0 /\ b <> 0xED.
Proof.
  intros H. unfold first. zcmp; pick.
Qed.

Lemma first_4 (b : Z) :
  0xF0 <= b <= 0xF4 ->
  first b = s5 /\ b = 0xF0 \/ first b = s7 /\ b = 0xF4
  \/ first b = s6 /\ b <> 0xF0 /\ b <> 0xF4.
Proof.
  intros H. unfold first. zcmp; pick.
Qed.

Lemma Decode_3 c0 c1 c2 t :
  0xE0 <= b2z c0 <= 0xEF ->
  second_lo (b2z c0) <= b2z c1 <= second_hi (b2z c0) ->
  0x80 <= b2z c2 <= 0xBF ->
  DecodeRuneInString (c0 :: c1 :: c2 :: t)
  = ((b2z c0 - 0xE0) * 4096 + (b2z c1 - 0x80) * 64 + (b2z c2 - 0x80), 3%nat).
Proof.
  intros H0 H1 H2. unfold second_lo, second_hi in H1.
  unfold DecodeRuneInString. rewrite at_1, at_2.
  rewrite land_mask3, !land_maskx, lor3 by dlia.
  destruct (first_3 _ H0) as [[-> E] | [[-> E] | [-> E]]];
    codes; revert H1; zcmp; intros; zcmp; cbn [orb]; f_equal; dlia.
Qed.

Lemma Decode_4 c0 c1 c2 c3 t :
  0xF0 <= b2z c0 <= 0xF4 ->
  second_lo (b2z c0) <= b2z c1 <= second_hi (b2z c0) ->
  0x80 <= b2z c2 <= 0xBF -> 0x80 <= b2z c3 <= 0xBF ->
  DecodeRuneInString (c0 :: c1 :: c2 :: c3 :: t)
  = ((b2z c0 - 0xF0) * 262144 + (b2z c1 - 0x80) * 4096
     + (b2z c2 - 0x80) * 64 + (b2z c3 - 0x80), 4%nat).
Proof.
  intros H0 H1 H2 H3. unfold second_lo, second_hi in H1.
  unfold DecodeRuneInString. rewrite at_1, at_2, at_3.
  destruct (first_4 _ H0) as [[-> E] | [[-> E] | [-> E]]];
    codes; rewrite land_mask4, !land_maskx, lor4 by dlia;
    revert H1; zcmp; intros; zcmp; cbn [orb]. all: f_equal; dlia.
Qed.

Lemma first_cases (b : Z) :
  0 <= b < 256 ->
  (first b = as_ /\ b < 0x80) \/ (first b = xx /\ (0x80 <= b < 0xC2 \/ 0xF5 <= b))
  \/ (first b = s1 /\ 0xC2 <= b <= 0xDF)
  \/ (first b = s2 /\ b = 0xE0) \/ (first b = s3 /\ 0xE1 <= b <= 0xEF /\ b <> 0xED)
  \/ (first b = s4 /\ b = 0xED) \/ (first b = s5 /\ b = 0xF0)
  \/ (first b = s6 /\ 0xF1 <= b <= 0xF3) \/ (first b = s7 /\ b = 0xF4).
Proof.
  intros H. unfold first.
  zcmp; pick.
Qed.

Ltac dec_fail := try (left; reflexivity).

Lemma Decode_cases (s : gostring) :
  s <> [] -> DecodeRuneInString s = (RuneError, 1%nat) \/ Shape s.
Proof.
  intros Hs. destruct s as [|c0 t]; [congruence|].
  pose proof (b2z_range c0) as R0.
  unfold DecodeRuneInString.
  destruct (first_cases _ R0) as [H|[H|[H|[H|[H|[H|[H|[H|H]]]]]]]];
    destruct H as [-> E]; codes.
  - right. now constructor.
  - now left.
  - destruct t as [|c1 t1]; dec_fail. rewrite at_1. cbn [Nat.leb].
    zcmp; cbn [orb]; dec_fail. right. constructor; lia.
  - destruct t as [|c1 [|c2 t2]]; dec_fail.
    cbn [Nat.leb]. rewrite at_1, at_2. zcmp; dec_fail. cbn [orb]. right.
    constructor; unfold second_lo, second_hi; zcmp; lia.
  - destruct t as [|c1 [|c2 t2]]; dec_fail.
    cbn [Nat.leb]. rewrite at_1, at_2. zcmp; dec_fail. cbn [orb]. right.
    constructor; unfold second_lo, second_hi; zcmp; lia.
  - destruct t as [|c1 [|c2 t2]]; dec_fail.
    cbn [Nat.leb]. rewrite at_1, at_2. zcmp; dec_fail. cbn [orb]. right.
    constructor; unfold second_lo, second_hi; zcmp; lia.
  - destruct t as [|c1 [|c2 [|c3 t3]]]; dec_fail.
    cbn [Nat.leb]. rewrite at_1, at_2, at_3. zcmp; dec_fail. cbn [orb]. right.
    constructor; unfold second_lo, second_hi; zcmp; lia.
  - destruct t as [|c1 [|c2 [|c3 t3]]]; dec_fail.
    cbn [Nat.leb]. rewrite at_1, at_2, at_3. zcmp; dec_fail. cbn [orb]. right.
    constructor; unfold second_lo, second_hi; zcmp; lia.
  - destruct t as [|c1 [|c2 [|c3 t3]]]; dec_fail.
    cbn [Nat.leb]. rewrite at_1, at_2, at_3. zcmp; dec_fail. cbn [orb]. right.
    constructor; unfold second_lo, second_hi; zcmp; lia.
Qed.

Lemma shiftr6 r : Z.shiftr r 6 = r / 64.
Proof. now rewrite Z.shiftr_div_pow2. Qed.
Lemma shiftr12 r : Z.shiftr r 12 = r / 4096.
Proof. now rewrite Z.shiftr_div_pow2. Qed.
Lemma shiftr18 r : Z.shiftr r 18 = r / 262144.
Proof. now rewrite Z.shiftr_div_pow2. Qed.

Lemma lor_tx b : 0 <= b < 64 -> Z.lor tx b = 0x80 + b.
Proof. intros H. change tx with (Z.shiftl 2 6). rewrite lor2; lia. Qed.
Lemma lor_t2 b : 0 <= b < 64 -> Z.lor t2 b = 0xC0 + b.
Proof. intros H. change t2 with (Z.shiftl 3 6). rewrite lor2; lia. Qed.
Lemma lor_t3 b : 0 <= b < 16 -> Z.lor t3 b = 0xE0 + b.
Proof.
  intros H. change t3 with (Z.shiftl 14 4).
  rewrite lor_shiftl_add; change (2 ^ 4) with 16; lia.
Qed.
Lemma lor_t4 b : 0 <= b < 16 -> Z.lor t4 b = 0xF0 + b.
Proof.
  intros H. change t4 with (Z.shiftl 15 4).
  rewrite lor_shiftl_add; change (2 ^ 4) with 16; lia.
Qed.

Lemma Encode_1 r : 0 <= r <= 0x7F -> EncodeRune r = [ z2b r ].
Proof.
  intros H.
  unfold EncodeRune, rune1Max, rune2Max, rune3Max, MaxRune, surrogateMin,
    surrogateMax.
  zcmp; reflexivity.
Qed.

Lemma Encode_2 r :
  0x80 <= r <= 0x7FF ->
  EncodeRune r = [ z2b (0xC0 + r / 64); z2b (0x80 + r mod 64) ].
Proof.
  intros H.
  unfold EncodeRune, rune1Max, rune2Max, rune3Max, MaxRune, surrogateMin,
    surrogateMax.
  zcmp; rewrite land_maskx, shiftr6, lor_t2, lor_tx by dlia; reflexivity.
Qed.

Lemma encode3_eq r :
  0 <= r <= 0xFFFF ->
  encode3 r = [ z2b (0xE0 + r / 4096); z2b (0x80 + (r / 64) mod 64);
                z2b (0x80 + r mod 64) ].
Proof.
  intros H. unfold encode3.
  rewrite !land_maskx, shiftr6, shiftr12, lor_t3, !lor_tx by dlia.
  reflexivity.
Qed.

Lemma Encode_3 r :
  0x800 <= r <= 0xFFFF -> ~ (0xD800 <= r <= 0xDFFF) ->
  EncodeRune r = [ z2b (0xE0 + r / 4096); z2b (0x80 + (r / 64) mod 64);
                   z2b (0x80 + r mod 64) ].
Proof.
  intros H Hs.
  unfold EncodeRune, rune1Max, rune2Max, rune3Max, MaxRune, surrogateMin,
    surrogateMax.
  zcmp; apply encode3_eq; lia.
Qed.

Lemma Encode_4 r :
  0x10000 <= r <= 0x10FFFF ->
  EncodeRune r = [ z2b (0xF0 + r / 262144); z2b (0x80 + (r / 4096) mod 64);
                   z2b (0x80 + (r / 64) mod 64); z2b (0x80 + r mod 64) ].
Proof.
  intros H.
  unfold EncodeRune, rune1Max, rune2Max, rune3Max, MaxRune, surrogateMin,
    surrogateMax.
  zcmp;
    rewrite !land_maskx, shiftr6, shiftr12, shiftr18, lor_t4, !lor_tx by dlia;
    reflexivity.
Qed.

Lemma Encode_invalid r : ~ ValidRune r -> EncodeRune r = EncodeRune RuneError.
Proof.
  intros H. unfold ValidRune, MaxRune, surrogateMin, surrogateMax in H.
  unfold EncodeRune at 1.
  unfold rune1Max, rune2Max, rune3Max, MaxRune, surrogateMin, surrogateMax.
  zcmp; reflexivity.
Qed.

Lemma ValidRune_dec r : {ValidRune r} + {~ ValidRune r}.
Proof.
  unfold ValidRune, MaxRune, surrogateMin, surrogateMax.
  destruct (Z_le_dec 0 r), (Z_le_dec r 0x10FFFF), (Z_le_dec 0xD800 r),
    (Z_le_dec r 0xDFFF); (left; lia) || (right; lia).
Qed.

Lemma ValidRune_RuneError : ValidRune RuneError.
Proof. unfold ValidRune, RuneError, MaxRune, surrogateMin, surrogateMax. lia. Qed.

(** Decoding the encoding of a rune gives the rune back. *)
Lemma Decode_Encode (r : rune) (t : gostring) :
  ValidRune r ->
  DecodeRuneInString (EncodeRune r ++ t) = (r, len (EncodeRune r)).
Proof.
  intros [Hr Hs]. unfold MaxRune, surrogateMin, surrogateMax in *.
  assert (C : r <= 0x7F \/ 0x80 <= r <= 0x7FF \/ 0x800 <= r <= 0xFFFF
              \/ 0x10000 <= r) by lia.
  destruct C as [C | [C | [C | C]]].
  - rewrite Encode_1 by lia. cbn [app len List.length].
    rewrite Decode_1; rewrite b2z_z2b, Z.mod_small by lia; [reflexivity | lia].
  - rewrite Encode_2 by lia. cbn [app len List.length].
    rewrite Decode_2; rewrite ?b2z_z2b, ?Z.mod_small by dlia;
      [f_equal | |]; dlia.
  - rewrite Encode_3 by lia. cbn [app len List.length].
    rewrite Decode_3; unfold second_lo, second_hi;
      rewrite ?b2z_z2b, ?Z.mod_small by dlia; [f_equal | | |]; zcmp; dlia.
  - rewrite Encode_4 by lia. cbn [app len List.length].
    rewrite Decode_4; unfold second_lo, second_hi;
      rewrite ?b2z_z2b, ?Z.mod_small by dlia; [f_equal | | | |]; zcmp; dlia.
Qed.

(** What is decoded from an accepted string is a valid rune, and the
    string starts with its encoding. *)
Lemma Shape_decode (s : gostring) :
  Shape s ->
  exists r, ValidRune r
    /\ DecodeRuneInString s = (r, len (EncodeRune r))
    /\ s = EncodeRune r ++ from (len (EncodeRune r)) s.
Proof.
  unfold ValidRune, MaxRune, surrogateMin, surrogateMax.
  intros [c0 t H0 | c0 c1 t H0 H1 | c0 c1 c2 t H0 H1 H2
          | c0 c1 c2 c3 t H0 H1 H2 H3].
  - pose proof (b2z_range c0). exists (b2z c0).
    rewrite Encode_1, z2b_b2z by lia. rewrite Decode_1 by lia.
    repeat split; lia.
  - set (r := (b2z c0 - 0xC0) * 64 + (b2z c1 - 0x80)).
    exists r. rewrite Encode_2 by (subst r; lia).
    replace (0xC0 + r / 64) with (b2z c0) by (subst r; dlia).
    replace (0x80 + r mod 64) with (b2z c1) by (subst r; dlia).
    rewrite !z2b_b2z, Decode_2 by lia. subst r.
    repeat split; lia.
  - unfold second_lo, second_hi in H1.
    assert (H1' : 0x80 <= b2z c1 <= 0xBF) by (revert H1; zcmp; lia).
    set (r := (b2z c0 - 0xE0) * 4096 + (b2z c1 - 0x80) * 64 + (b2z c2 - 0x80)).
    assert (Hr : 0x800 <= r <= 0xFFFF /\ ~ (0xD800 <= r <= 0xDFFF))
      by (subst r; revert H1; zcmp; lia).
    exists r. rewrite Encode_3 by tauto.
    replace (0xE0 + r / 4096) with (b2z c0) by (subst r; dlia).
    replace (0x80 + (r / 64) mod 64) with (b2z c1) by (subst r; dlia).
    replace (0x80 + r mod 64) with (b2z c2) by (subst r; dlia).
    rewrite !z2b_b2z, Decode_3 by (unfold second_lo, second_hi; lia).
    repeat split; lia.
  - unfold second_lo, second_hi in H1.
    assert (H1' : 0x80 <= b2z c1 <= 0xBF) by (revert H1; zcmp; lia).
    set (r := (b2z c0 - 0xF0) * 262144 + (b2z c1 - 0x80) * 4096
              + (b2z c2 - 0x80) * 64 + (b2z c3 - 0x80)).
    assert (Hr : 0x10000 <= r <= 0x10FFFF)
      by (subst r; revert H1; zcmp; lia).
    exists r. rewrite Encode_4 by tauto.
    replace (0xF0 + r / 262144) with (b2z c0) by (subst r; dlia).
    replace (0x80 + (r / 4096) mod 64) with (b2z c1) by (subst r; dlia).
    replace (0x80 + (r / 64) mod 64) with (b2z c2) by (subst r; dlia).
    replace (0x80 + r mod 64) with (b2z c3) by (subst r; dlia).
    rewrite !z2b_b2z, Decode_4 by (unfold second_lo, second_hi; lia).
    repeat split; lia.
Qed.

Lemma Decode_inv (s : gostring) (r : rune) (w : nat) :
  s <> [] -> DecodeRuneInString s = (r, w) ->
  (r = RuneError /\ w = 1%nat)
  \/ (ValidRune r /\ w = len (EncodeRune r) /\ s = EncodeRune r ++ from w s).
Proof.
  intros Hs Hd. destruct (Decode_cases s Hs) as [E | Sh].
  - left. rewrite E in Hd. now inversion Hd.
  - right. destruct (Shape_decode s Sh) as (r' & Hv & E & Hp).
    rewrite E in Hd. inversion Hd; subst. auto.
Qed.

Lemma Decode_width (s : gostring) :
  s <> [] -> (1 <= snd (DecodeRuneInString s) <= len s)%nat.
Proof.
  intros Hs. destruct (Decode_cases s Hs) as [E | Sh].
  - rewrite E. destruct s; [congruence|]. cbn. lia.
  - destruct Sh.
    + rewrite Decode_1 by assumption. cbn. lia.
    + rewrite Decode_2 by assumption. cbn. lia.
    + rewrite Decode_3 by assumption. cbn. lia.
    + rewrite Decode_4 by assumption. cbn. lia.
Qed.

Lemma Encode_Enc_valid (r : rune) : ValidRune r -> Enc (EncodeRune r).
Proof.
  intros [Hr Hs]. unfold MaxRune, surrogateMin, surrogateMax in *.
  assert (C : r <= 0x7F \/ 0x80 <= r <= 0x7FF \/ 0x800 <= r <= 0xFFFF
              \/ 0x10000 <= r) by lia.
  destruct C as [C | [C | [C | C]]].
  - rewrite Encode_1 by lia. constructor. rewrite b2z_z2b. dlia.
  - rewrite Encode_2 by lia. constructor; rewrite b2z_z2b; dlia.
  - rewrite Encode_3 by lia. constructor; rewrite b2z_z2b; dlia.
  - rewrite Encode_4 by lia. constructor; rewrite b2z_z2b; dlia.
Qed.

Lemma Encode_Enc (r : rune) : Enc (EncodeRune r).
Proof.
  destruct (ValidRune_dec r) as [V | V].
  - now apply Encode_Enc_valid.
  - rewrite Encode_invalid by assumption.
    apply Encode_Enc_valid, ValidRune_RuneError.
Qed.

Lemma at_app_r (p e : gostring) (i j : Z) :
  i = Z.of_nat (List.length p) + j -> 0 <= j -> at_ (p ++ e) i = at_ e j.
Proof.
  intros -> Hj. unfold at_. f_equal.
  rewrite app_nth2 by lia. f_equal. lia.
Qed.

Lemma RuneStart_lead (a : byte) : 0xC0 <= b2z a -> RuneStart (b2z a) = true.
Proof.
  intros H. rewrite RuneStart_spec by apply b2z_range. zcmp; reflexivity.
Qed.

Lemma RuneStart_cont (a : byte) :
  0x80 <= b2z a <= 0xBF -> RuneStart (b2z a) = false.
Proof.
  intros H. rewrite RuneStart_spec by apply b2z_range. zcmp; reflexivity.
Qed.

(** The last rune of a string that ends with an encoding. *)
Lemma DecodeLast_app (p e : gostring) (r : rune) :
  Enc e -> DecodeRuneInString e = (r, len e) ->
  DecodeLastRuneInString (p ++ e) = (r, len e).
Proof.
  intros He Hd. unfold DecodeLastRuneInString.
  unfold len in *. rewrite length_app.
  set (N := Z.of_nat (List.length p)).
  assert (HN : 0 <= N) by lia.
  assert (Hfrom : from (Z.to_nat N) (p ++ e) = e).
  { unfold from, N. rewrite Nat2Z.id, skipn_app, skipn_all, Nat.sub_diag.
    reflexivity. }
  unfold UTFMax, RuneSelf.
  destruct He as [a Ha | a b Ha Hb | a b c Ha Hb Hc | a b c d Ha Hb Hc Hd'];
    cbn [List.length] in *.
  - rewrite Decode_1 in Hd by assumption. inversion Hd; subst r.
    rewrite (at_app_r p _ _ 0) by lia. rewrite at_0. zcmp. reflexivity.
  - rewrite (at_app_r p _ _ 1) by lia. rewrite at_1.
    cbn [scanStart].
    rewrite (at_app_r p _ _ 0) by lia. rewrite at_0, RuneStart_lead by lia.
    zcmp.
    all: replace (Z.max 0 (Z.of_nat (List.length p + 2) - 1 - 1)) with N by lia.
    all: rewrite Hfrom, Hd; zcmp; reflexivity.
  - rewrite (at_app_r p _ _ 2) by lia. rewrite at_2.
    cbn [scanStart].
    rewrite (at_app_r p _ _ 1) by lia. rewrite at_1, RuneStart_cont by lia.
    rewrite (at_app_r p _ _ 0) by lia. rewrite at_0, RuneStart_lead by lia.
    zcmp.
    all: replace (Z.max 0 (Z.of_nat (List.length p + 3) - 1 - 1 - 1)) with N by lia.
    all: rewrite Hfrom, Hd; zcmp; reflexivity.
  - rewrite (at_app_r p _ _ 3) by lia. rewrite at_3.
    cbn [scanStart].
    rewrite (at_app_r p _ _ 2) by lia. rewrite at_2, RuneStart_cont by lia.
    rewrite (at_app_r p _ _ 1) by lia. rewrite at_1, RuneStart_cont by lia.
    rewrite (at_app_r p _ _ 0) by lia. rewrite at_0, RuneStart_lead by lia.
    zcmp.
    all: replace (Z.max 0 (Z.of_nat (List.length p + 4) - 1 - 1 - 1 - 1)) with N by lia.
    all: rewrite Hfrom, Hd; zcmp; reflexivity.
Qed.

Lemma DecodeLast_Encode (p : gostring) (r : rune) :
  ValidRune r ->
  DecodeLastRuneInString (p ++ EncodeRune r) = (r, len (EncodeRune r)).
Proof.
  intros V. apply DecodeLast_app; [apply Encode_Enc|].
  rewrite <- (app_nil_r (EncodeRune r)) at 1. now apply Decode_Encode.
Qed.

Lemma scanStart_le (fuel : nat) (s : gostring) (lim st : Z) :
  scanStart fuel s lim st <= st.
Proof.
  revert st. induction fuel as [|k IH]; intros st; cbn [scanStart]; [lia|].
  destruct (st <? lim); [lia|].
  destruct (RuneStart (at_ s st)); [lia|].
  specialize (IH (st - 1)). lia.
Qed.

Lemma last_byte (s : gostring) :
  s <> [] ->
  s = upto (len s - 1) s ++ [ z2b (at_ s (Z.of_nat (len s) - 1)) ].
Proof.
  intros Hs. destruct (exists_last Hs) as (p & a & ->).
  unfold len, upto. rewrite length_app. cbn [List.length].
  rewrite (at_app_r p [a] _ 0) by lia. rewrite at_0, z2b_b2z.
  replace (List.length p + 1 - 1)%nat with (List.length p + 0)%nat by lia.
  rewrite firstn_app_2. cbn. now rewrite app_nil_r.
Qed.

Lemma DecodeLast_inv (s : gostring) (r : rune) (w : nat) :
  s <> [] -> DecodeLastRuneInString s = (r, w) ->
  (r = RuneError /\ w = 1%nat)
  \/ (ValidRune r /\ w = len (EncodeRune r)
      /\ s = upto (len s - w) s ++ EncodeRune r).
Proof.
  intros Hs. unfold DecodeLastRuneInString.
  assert (Hl : (0 < len s)%nat) by (destruct s; [congruence | cbn; lia]).
  destruct (Z.eqb_spec (Z.of_nat (len s)) 0) as [E | _]; [lia|].
  unfold RuneSelf.
  destruct (Z.ltb_spec (at_ s (Z.of_nat (len s) - 1)) 0x80) as [Ha | Ha].
  - intros H. inversion H; subst. right.
    assert (Hr : 0 <= at_ s (Z.of_nat (len s) - 1)) by apply b2z_range.
    rewrite Encode_1 by lia.
    split; [unfold ValidRune, MaxRune, surrogateMin, surrogateMax; lia|].
    split; [reflexivity|]. now apply last_byte.
  - set (lim := Z.max 0 (Z.of_nat (len s) - Z.of_nat UTFMax)).
    pose proof (scanStart_le UTFMax s lim (Z.of_nat (len s) - 1 - 1)) as Hle.
    set (start := Z.max 0 (scanStart UTFMax s lim (Z.of_nat (len s) - 1 - 1))) in *.
    assert (Hst : 0 <= start < Z.of_nat (len s)) by lia.
    assert (Hne : from (Z.to_nat start) s <> []).
    { unfold from. intros E. apply (f_equal (@List.length _)) in E.
      rewrite length_skipn in E. cbn in E. unfold len in *. lia. }
    destruct (DecodeRuneInString (from (Z.to_nat start) s)) as [r' size] eqn:Ed.
    destruct (Z.eqb_spec (start + Z.of_nat size) (Z.of_nat (len s))) as [E | E];
      intros H; inversion H; subst; [|now left].
    destruct (Decode_inv _ _ _ Hne Ed) as [[-> ->] | (V & Hw & Hp)];
      [now left | right].
    split; [assumption|]. split; [assumption|].
    assert (Hn : (len s - w = Z.to_nat start)%nat) by lia.
    rewrite Hn.
    assert (Hnil : from w (from (Z.to_nat start) s) = []).
    { apply length_zero_iff_nil. unfold from. rewrite !length_skipn.
      unfold len in *. lia. }
    rewrite Hnil, app_nil_r in Hp. rewrite <- Hp.
    unfold upto, from. now rewrite firstn_skipn.
Qed.

Lemma DecodeLast_width (s : gostring) :
  s <> [] -> (1 <= snd (DecodeLastRuneInString s) <= len s)%nat.
Proof.
  intros Hs.
  assert (Hl : (0 < len s)%nat) by (destruct s; [congruence | cbn; lia]).
  destruct (DecodeLastRuneInString s) as [r w] eqn:E. cbn [snd].
  destruct (DecodeLast_inv s r w Hs E) as [[_ ->] | (V & Hw & Hp)]; [lia|].
  pose proof (Encode_Enc r) as He.
  apply (f_equal (@List.length _)) in Hp.
  rewrite length_app in Hp. unfold upto in Hp. rewrite length_firstn in Hp.
  unfold len in *. destruct He; cbn [List.length] in *; lia.
Qed.
(** ** White space *)

Lemma IsSpace_valid (r : rune) :
  unicode.IsSpace r = true -> ValidRune r /\ r <> RuneError.
Proof.
  unfold unicode.IsSpace, unicode.isExcludingLatin, unicode.MaxLatin1,
    ValidRune, MaxRune, surrogateMin, surrogateMax, RuneError.
  cbn [unicode.White_Space unicode.LatinOffset List.length Nat.ltb Nat.leb
       last unicode.Hi].
  intros H.
  destruct (Z.leb_spec 0 r), (Z.leb_spec r 255); cbn [andb] in H; try lia;
    try discriminate.
  destruct (Z.leb_spec r 12288); cbn [andb] in H; [lia | discriminate].
Qed.

Lemma IsSpace_RuneError : unicode.IsSpace RuneError = false.
Proof. reflexivity. Qed.

Lemma IsSpace_ascii (c : byte) :
  b2z c < 0x80 -> unicode.IsSpace (b2z c) = strings.asciiSpace (b2z c).
Proof.
  intros H. pose proof (b2z_range c).
  unfold unicode.IsSpace, strings.asciiSpace, unicode.MaxLatin1.
  zcmp; reflexivity.
Qed.

Lemma len_nil (s : gostring) : len s = 0%nat <-> s = [].
Proof. apply length_zero_iff_nil. Qed.

Lemma len_app (s t : gostring) : len (s ++ t) = (len s + len t)%nat.
Proof. apply length_app. Qed.

Lemma len_from (n : nat) (s : gostring) : len (from n s) = (len s - n)%nat.
Proof. apply length_skipn. Qed.

Lemma len_upto (n : nat) (s : gostring) : len (upto n s) = Nat.min n (len s).
Proof. apply length_firstn. Qed.

Lemma upto_from (n : nat) (s : gostring) : upto n s ++ from n s = s.
Proof. apply firstn_skipn. Qed.

Lemma from_app_len (p s : gostring) : from (len p) (p ++ s) = s.
Proof.
  unfold from, len. rewrite skipn_app, skipn_all, Nat.sub_diag. reflexivity.
Qed.

Lemma upto_app_len (p s : gostring) : upto (len p) (p ++ s) = p.
Proof.
  unfold upto, len. rewrite firstn_app, firstn_all, Nat.sub_diag.
  cbn. apply app_nil_r.
Qed.

Lemma Encode_nonempty (r : rune) : EncodeRune r <> [].
Proof. destruct (Encode_Enc r); discriminate. Qed.

Lemma Spaces_nil : Spaces [].
Proof. exists []. split; [constructor | reflexivity]. Qed.

Lemma Spaces_cons (r : rune) (s : gostring) :
  unicode.IsSpace r = true -> Spaces s -> Spaces (EncodeRune r ++ s).
Proof.
  intros Hr (rs & Hrs & ->). exists (r :: rs). split; [now constructor|].
  reflexivity.
Qed.

Lemma encodeAll_app (a b : list rune) :
  encodeAll (a ++ b) = encodeAll a ++ encodeAll b.
Proof. unfold encodeAll. now rewrite map_app, concat_app. Qed.

Lemma Spaces_app (s t : gostring) : Spaces s -> Spaces t -> Spaces (s ++ t).
Proof.
  intros (a & Ha & ->) (b & Hb & ->). exists (a ++ b).
  split; [now apply Forall_app | symmetry; apply encodeAll_app].
Qed.

Lemma Spaces_one (r : rune) : unicode.IsSpace r = true -> Spaces (EncodeRune r).
Proof.
  intros H. rewrite <- (app_nil_r (EncodeRune r)).
  apply Spaces_cons; [assumption | apply Spaces_nil].
Qed.

Lemma Spaces_snoc (r : rune) (s : gostring) :
  unicode.IsSpace r = true -> Spaces s -> Spaces (s ++ EncodeRune r).
Proof. intros Hr Hs. apply Spaces_app; [assumption | now apply Spaces_one]. Qed.

(** A string of white space is empty or starts with a byte that starts a
    rune. *)
Lemma Spaces_head (s : gostring) :
  Spaces s -> s = [] \/ exists c t, s = c :: t /\ (b2z c < 0x80 \/ 0xC0 <= b2z c).
Proof.
  intros (rs & Hrs & ->). destruct rs as [|r rs]; [now left | right].
  cbn. destruct (Encode_Enc r); cbn; eauto.
Qed.

Lemma startsSpace_Encode (r : rune) (t : gostring) :
  ValidRune r -> startsSpace (EncodeRune r ++ t) = unicode.IsSpace r.
Proof. intros V. unfold startsSpace. now rewrite Decode_Encode. Qed.

Lemma endsSpace_Encode (p : gostring) (r : rune) :
  ValidRune r -> endsSpace (p ++ EncodeRune r) = unicode.IsSpace r.
Proof. intros V. unfold endsSpace. now rewrite DecodeLast_Encode. Qed.

(** A string that starts with white space starts with the encoding of a
    white space rune. *)
Lemma startsSpace_inv (s : gostring) :
  startsSpace s = true ->
  exists r, unicode.IsSpace r = true /\ s = EncodeRune r ++ from (len (EncodeRune r)) s.
Proof.
  unfold startsSpace. intros H.
  destruct (DecodeRuneInString s) as [r w] eqn:E. cbn [fst] in H.
  assert (Hs : s <> []) by (intros ->; cbn in E; inversion E; subst; discriminate).
  destruct (Decode_inv s r w Hs E) as [[-> _] | (V & -> & Hp)];
    [discriminate|].
  exists r. auto.
Qed.

(** ** [TrimLeftFunc] *)

Lemma trimLeft_fuel (f1 f2 : nat) (s : gostring) :
  (len s <= f1)%nat -> (len s <= f2)%nat -> trimLeft f1 s = trimLeft f2 s.
Proof.
  revert f2 s. induction f1 as [|k IH]; intros f2 s H1 H2.
  - assert (s = []) as -> by (apply len_nil; lia). now destruct f2.
  - destruct f2 as [|k2].
    + assert (s = []) as -> by (apply len_nil; lia). reflexivity.
    + cbn [trimLeft]. destruct s as [|c t]; [reflexivity|].
      pose proof (Decode_width (c :: t) ltac:(discriminate)) as Hw.
      destruct (DecodeRuneInString (c :: t)) as [r w]. cbn [snd] in Hw.
      destruct (unicode.IsSpace r); [|reflexivity].
      apply IH; rewrite len_from; lia.
Qed.

Lemma trimLeft_step (fuel : nat) (s : gostring) :
  s <> [] -> (len s <= fuel)%nat ->
  trimLeft fuel s
  = let '(r, w) := DecodeRuneInString s in
    if unicode.IsSpace r then trimLeft (len (from w s)) (from w s) else s.
Proof.
  intros Hs Hf. destruct fuel as [|k].
  - exfalso. apply Hs, len_nil. lia.
  - cbn [trimLeft]. destruct s as [|c t]; [congruence|].
    pose proof (Decode_width (c :: t) ltac:(discriminate)) as Hw.
    destruct (DecodeRuneInString (c :: t)) as [r w]. cbn [snd] in Hw.
    destruct (unicode.IsSpace r); [|reflexivity].
    apply trimLeft_fuel; rewrite ?len_from; lia.
Qed.

Lemma TrimLeftFunc_loop (fuel : nat) (pre s : gostring) :
  let j := strings.indexFunc_loop fuel unicode.IsSpace false s
             (Z.of_nat (len pre)) in
  (if j =? -1 then [] else from (Z.to_nat j) (pre ++ s)) = trimLeft fuel s.
Proof.
  revert pre s. induction fuel as [|k IH]; intros pre s; cbn zeta.
  - reflexivity.
  - cbn [strings.indexFunc_loop trimLeft]. destruct s as [|c t]; [reflexivity|].
    pose proof (Decode_width (c :: t) ltac:(discriminate)) as Hw.
    destruct (DecodeRuneInString (c :: t)) as [r w]. cbn [snd] in Hw.
    destruct (unicode.IsSpace r); cbn [Bool.eqb].
    + specialize (IH (pre ++ upto w (c :: t)) (from w (c :: t))).
      cbn zeta in IH.
      rewrite <- app_assoc, upto_from in IH.
      rewrite len_app, len_upto, Nat.min_l, Nat2Z.inj_add in IH by lia.
      exact IH.
    + destruct (Z.eqb_spec (Z.of_nat (len pre)) (-1)); [lia|].
      rewrite Nat2Z.id. apply from_app_len.
Qed.

Lemma TrimLeftFunc_trimLeft (s : gostring) :
  strings.TrimLeftFunc s unicode.IsSpace = trimLeft (len s) s.
Proof.
  unfold strings.TrimLeftFunc, strings.indexFunc.
  exact (TrimLeftFunc_loop (len s) [] s).
Qed.

Lemma TrimLeft_fix (s : gostring) :
  startsSpace s = false -> strings.TrimLeftFunc s unicode.IsSpace = s.
Proof.
  intros H. rewrite TrimLeftFunc_trimLeft.
  destruct s as [|c t]; [reflexivity|].
  rewrite trimLeft_step by (discriminate || lia).
  unfold startsSpace in H.
  destruct (DecodeRuneInString (c :: t)) as [r w]. cbn [fst] in H.
  now rewrite H.
Qed.

Lemma TrimLeft_cons (r : rune) (t : gostring) :
  unicode.IsSpace r = true ->
  strings.TrimLeftFunc (EncodeRune r ++ t) unicode.IsSpace
  = strings.TrimLeftFunc t unicode.IsSpace.
Proof.
  intros H. rewrite !TrimLeftFunc_trimLeft.
  rewrite trimLeft_step; [| | lia].
  - rewrite Decode_Encode by now apply IsSpace_valid.
    rewrite H, from_app_len. reflexivity.
  - pose proof (Encode_nonempty r). destruct (EncodeRune r); [congruence | discriminate].
Qed.

Lemma TrimLeft_app (l t : gostring) :
  Spaces l ->
  strings.TrimLeftFunc (l ++ t) unicode.IsSpace
  = strings.TrimLeftFunc t unicode.IsSpace.
Proof.
  intros (rs & Hrs & ->). induction Hrs as [|r rs Hr _ IH]; [reflexivity|].
  change (encodeAll (r :: rs)) with (EncodeRune r ++ encodeAll rs).
  rewrite <- app_assoc, TrimLeft_cons by assumption. exact IH.
Qed.

Lemma trimLeft_spec (fuel : nat) (s : gostring) :
  (len s <= fuel)%nat ->
  exists l, Spaces l /\ s = l ++ trimLeft fuel s
            /\ startsSpace (trimLeft fuel s) = false.
Proof.
  revert s. induction fuel as [|k IH]; intros s Hf.
  - assert (s = []) as -> by (apply len_nil; lia).
    exists []. repeat split. apply Spaces_nil.
  - cbn [trimLeft]. destruct s as [|c t].
    { exists []. repeat split. apply Spaces_nil. }
    pose proof (Decode_width (c :: t) ltac:(discriminate)) as Hw.
    destruct (DecodeRuneInString (c :: t)) as [r w] eqn:E. cbn [snd] in Hw.
    destruct (unicode.IsSpace r) eqn:Hr.
    + destruct (Decode_inv (c :: t) r w ltac:(discriminate) E) as [[-> _] | (V & -> & Hp)];
        [rewrite IsSpace_RuneError in Hr; discriminate|].
      destruct (IH (from (len (EncodeRune r)) (c :: t))) as (l & Hl & Hs & Hn).
      { rewrite len_from. lia. }
      exists (EncodeRune r ++ l). split; [now apply Spaces_cons|].
      split; [|assumption].
      rewrite <- app_assoc, <- Hs. exact Hp.
    + exists []. split; [apply Spaces_nil|]. split; [reflexivity|].
      unfold startsSpace. now rewrite E.
Qed.

Lemma TrimLeft_spec (s : gostring) :
  exists l, Spaces l /\ s = l ++ strings.TrimLeftFunc s unicode.IsSpace
            /\ startsSpace (strings.TrimLeftFunc s unicode.IsSpace) = false.
Proof.
  rewrite TrimLeftFunc_trimLeft. now apply trimLeft_spec.
Qed.

(** ** [TrimRightFunc] *)

Lemma DecodeLast_ascii (p : gostring) (c : byte) :
  b2z c < 0x80 -> DecodeLastRuneInString (p ++ [c]) = (b2z c, 1%nat).
Proof.
  intros H. apply (DecodeLast_app p [c]); [now constructor | now apply Decode_1].
Qed.

(** A byte that is not ASCII, before a byte that starts a rune or before
    the end, is a rune of width one. *)
Lemma Decode_width1 (c : byte) (t : gostring) :
  0x80 <= b2z c ->
  (t = [] \/ exists d t', t = d :: t' /\ (b2z d < 0x80 \/ 0xC0 <= b2z d)) ->
  snd (DecodeRuneInString (c :: t)) = 1%nat.
Proof.
  intros Hc Ht.
  destruct (Decode_cases (c :: t) ltac:(discriminate)) as [E | Sh];
    [now rewrite E|].
  exfalso. inversion Sh; subst; try lia;
    destruct Ht as [Ht | (d & t' & Ht & Hd)]; try discriminate;
    inversion Ht; subst;
    match goal with
    | H : second_lo _ <= _ <= second_hi _ |- _ =>
      unfold second_lo, second_hi in H; revert H; zcmp; lia
    | _ => lia
    end.
Qed.

Lemma trimRight_fuel (f1 f2 : nat) (s : gostring) :
  (len s <= f1)%nat -> (len s <= f2)%nat -> trimRight f1 s = trimRight f2 s.
Proof.
  revert f2 s. induction f1 as [|k IH]; intros f2 s H1 H2.
  - assert (s = []) as -> by (apply len_nil; lia). now destruct f2.
  - destruct f2 as [|k2].
    + assert (s = []) as -> by (apply len_nil; lia). reflexivity.
    + cbn [trimRight]. destruct s as [|c t]; [reflexivity|].
      pose proof (DecodeLast_width (c :: t) ltac:(discriminate)) as Hw.
      destruct (DecodeLastRuneInString (c :: t)) as [r w]. cbn [snd] in Hw.
      destruct (unicode.IsSpace r); [|reflexivity].
      apply IH; rewrite len_upto; lia.
Qed.

Lemma trimRight_step (fuel : nat) (s : gostring) :
  s <> [] -> (len s <= fuel)%nat ->
  trimRight fuel s
  = let '(r, w) := DecodeLastRuneInString s in
    if unicode.IsSpace r
    then trimRight (len s) (upto (len s - w) s) else s.
Proof.
  intros Hs Hf. destruct fuel as [|k].
  - exfalso. apply Hs, len_nil. lia.
  - cbn [trimRight]. destruct s as [|c t]; [congruence|].
    pose proof (DecodeLast_width (c :: t) ltac:(discriminate)) as Hw.
    destruct (DecodeLastRuneInString (c :: t)) as [r w]. cbn [snd] in Hw.
    destruct (unicode.IsSpace r); [|reflexivity].
    apply trimRight_fuel; rewrite ?len_upto; lia.
Qed.

Lemma upto_upto (i j : nat) (s : gostring) :
  (i <= j)%nat -> upto i (upto j s) = upto i s.
Proof.
  intros H. unfold upto. rewrite firstn_firstn. now rewrite Nat.min_l.
Qed.

Lemma TrimRightFunc_loop (fuel : nat) (s tail : gostring) (i : nat) :
  (i <= len s)%nat -> s = upto i s ++ tail -> Spaces tail ->
  let j := strings.lastIndexFunc_loop fuel unicode.IsSpace false s
             (Z.of_nat i) in
  let j' :=
    if (0 <=? j) && (RuneSelf <=? at_ s j) then
      let '(_, wid) := DecodeRuneInString (from (Z.to_nat j) s) in
      j + Z.of_nat wid
    else j + 1 in
  upto (Z.to_nat j') s = trimRight fuel (upto i s).
Proof.
  revert tail i. induction fuel as [|k IH]; intros tail i Hi Hs Ht; cbn zeta.
  - reflexivity.
  - cbn [strings.lastIndexFunc_loop trimRight].
    destruct (Z.ltb_spec 0 (Z.of_nat i)) as [Hpos | Hz].
    2:{ assert (i = 0%nat) as -> by lia. reflexivity. }
    rewrite Nat2Z.id.
    set (u := upto i s) in *.
    assert (Hu : len u = i) by (subst u; rewrite len_upto; lia).
    assert (Hne : u <> []) by (intros E; rewrite E in Hu; cbn in Hu; lia).
    pose proof (DecodeLast_width u Hne) as Hw.
    destruct (DecodeLastRuneInString u) as [r size] eqn:E. cbn [snd] in Hw.
    destruct u as [|c0 u0] eqn:Eu; [congruence|]. rewrite <- Eu in *.
    destruct (unicode.IsSpace r) eqn:Hr; cbn [Bool.eqb].
    + (* white space: the loop goes on *)
      destruct (DecodeLast_inv u r size Hne E) as [[-> _] | (V & Hsz & Hp)];
        [rewrite IsSpace_RuneError in Hr; discriminate|].
      replace (Z.of_nat i - Z.of_nat size) with (Z.of_nat (i - size)) by lia.
      rewrite Hu.
      replace (upto (i - size) u) with (upto (i - size) s)
        by (subst u; rewrite upto_upto; [reflexivity | lia]).
      apply (IH (EncodeRune r ++ tail)); [lia | | now apply Spaces_cons].
      rewrite Hs at 1. fold u. rewrite Hp at 1. rewrite Hu, <- app_assoc.
      subst u. rewrite upto_upto by lia. reflexivity.
    + (* the last rune that stays *)
      assert (Hj : 0 <= Z.of_nat i - Z.of_nat size) by lia.
      destruct (Z.leb_spec 0 (Z.of_nat i - Z.of_nat size)); [|lia].
      cbn [andb].
      replace (Z.of_nat i - Z.of_nat size) with (Z.of_nat (i - size)) by lia.
      rewrite Nat2Z.id.
      assert (Hsplit : s = upto (i - size) s ++ from (i - size) u ++ tail).
      { rewrite Hs at 1. fold u. rewrite <- (upto_from (i - size) u) at 1.
        subst u. rewrite upto_upto by lia. now rewrite <- app_assoc. }
      assert (Hfrom : from (i - size) s = from (i - size) u ++ tail).
      { rewrite Hsplit at 1.
        replace (i - size)%nat with (len (upto (i - size) s)) at 1
          by (rewrite len_upto; lia).
        apply from_app_len. }
      assert (Hat : at_ s (Z.of_nat (i - size)) = at_ (from (i - size) u ++ tail) 0).
      { rewrite Hsplit at 1. apply at_app_r; [|lia].
        change (@List.length byte) with len. rewrite len_upto. lia. }
      rewrite Hat, Hfrom.
      destruct (DecodeLast_inv u r size Hne E) as [[-> ->] | (V & Hsz & Hp)].
      * (* an invalid byte *)
        destruct (exists_last Hne) as (p & c & Ep).
        assert (Hp : len p = (i - 1)%nat).
        { rewrite Ep in Hu. rewrite len_app in Hu. cbn in Hu. lia. }
        assert (Hfu : from (i - 1) u = [c]).
        { rewrite Ep, <- Hp. apply from_app_len. }
        rewrite Hfu. cbn [app]. rewrite at_0.
        assert (Hc : 0x80 <= b2z c).
        { destruct (Z.lt_ge_cases (b2z c) 0x80) as [Hlt | Hge]; [|lia].
          rewrite Ep, DecodeLast_ascii in E by assumption.
          injection E as E1. unfold RuneError in E1. lia. }
        unfold RuneSelf. destruct (Z.leb_spec 128 (b2z c)); [|lia].
        pose proof (Decode_width1 c tail Hc (Spaces_head tail Ht)) as W.
        destruct (DecodeRuneInString (c :: tail)) as [r' wid]. cbn [snd] in W.
        subst wid.
        replace (Z.to_nat (Z.of_nat (i - 1) + Z.of_nat 1)) with i by lia.
        reflexivity.
      * (* a valid rune *)
        assert (Hfu : from (i - size) u = EncodeRune r).
        { rewrite Hp at 1. rewrite Hu.
          replace (i - size)%nat with (len (upto (i - size) u)) at 1
            by (rewrite len_upto; lia).
          apply from_app_len. }
        rewrite Hfu, Decode_Encode by assumption. rewrite <- Hsz.
        destruct (Encode_Enc r) as [a Ha | a b Ha Hb | a b c Ha Hb Hc
                                    | a b c d Ha Hb Hc Hd];
          cbn [app]; rewrite at_0; unfold RuneSelf; zcmp;
          cbn [len List.length] in Hsz; subst size;
          match goal with
          | |- upto ?n _ = _ => replace n with i by lia
          end; reflexivity.
Qed.

Lemma upto_len (s : gostring) : upto (len s) s = s.
Proof. apply firstn_all. Qed.

Lemma TrimRightFunc_trimRight (s : gostring) :
  strings.TrimRightFunc s unicode.IsSpace = trimRight (S (len s)) s.
Proof.
  unfold strings.TrimRightFunc, strings.lastIndexFunc.
  pose proof (TrimRightFunc_loop (S (len s)) s [] (len s)) as H.
  cbn zeta in H. rewrite upto_len in H.
  apply H; [lia | now rewrite app_nil_r | apply Spaces_nil].
Qed.

Lemma TrimRight_fix (s : gostring) :
  endsSpace s = false -> strings.TrimRightFunc s unicode.IsSpace = s.
Proof.
  intros H. rewrite TrimRightFunc_trimRight.
  destruct s as [|c t]; [reflexivity|].
  rewrite trimRight_step by (discriminate || lia).
  unfold endsSpace in H.
  destruct (DecodeLastRuneInString (c :: t)) as [r w]. cbn [fst] in H.
  now rewrite H.
Qed.

Lemma TrimRight_snoc (t : gostring) (r : rune) :
  unicode.IsSpace r = true ->
  strings.TrimRightFunc (t ++ EncodeRune r) unicode.IsSpace
  = strings.TrimRightFunc t unicode.IsSpace.
Proof.
  intros H. rewrite !TrimRightFunc_trimRight.
  rewrite trimRight_step; [| | lia].
  - rewrite DecodeLast_Encode by now apply IsSpace_valid.
    rewrite H, len_app, Nat.add_sub, upto_app_len.
    apply trimRight_fuel; lia.
  - pose proof (Encode_nonempty r). destruct t, (EncodeRune r); try congruence;
      discriminate.
Qed.

Lemma TrimRight_app (t r : gostring) :
  Spaces r ->
  strings.TrimRightFunc (t ++ r) unicode.IsSpace
  = strings.TrimRightFunc t unicode.IsSpace.
Proof.
  intros (rs & Hrs & ->). revert Hrs.
  induction rs as [|x rs IH] using rev_ind; intros Hrs.
  - cbn. now rewrite app_nil_r.
  - apply Forall_app in Hrs as [Hrs Hx]. inversion Hx; subst.
    rewrite encodeAll_app. unfold encodeAll at 2. cbn [map List.concat].
    rewrite app_nil_r, app_assoc, TrimRight_snoc by assumption. now apply IH.
Qed.

Lemma trimRight_spec (fuel : nat) (s : gostring) :
  (len s <= fuel)%nat ->
  exists r, Spaces r /\ s = trimRight fuel s ++ r
            /\ endsSpace (trimRight fuel s) = false.
Proof.
  revert s. induction fuel as [|k IH]; intros s Hf.
  - assert (s = []) as -> by (apply len_nil; lia).
    exists []. repeat split. apply Spaces_nil.
  - cbn [trimRight]. destruct s as [|c t].
    { exists []. repeat split. apply Spaces_nil. }
    pose proof (DecodeLast_width (c :: t) ltac:(discriminate)) as Hw.
    destruct (DecodeLastRuneInString (c :: t)) as [r w] eqn:E. cbn [snd] in Hw.
    destruct (unicode.IsSpace r) eqn:Hr.
    + destruct (DecodeLast_inv (c :: t) r w ltac:(discriminate) E)
        as [[-> _] | (V & -> & Hp)];
        [rewrite IsSpace_RuneError in Hr; discriminate|].
      destruct (IH (upto (len (c :: t) - len (EncodeRune r)) (c :: t)))
        as (l & Hl & Hs & Hn).
      { rewrite len_upto. lia. }
      exists (l ++ EncodeRune r). split; [now apply Spaces_snoc|].
      split; [|assumption].
      rewrite app_assoc, <- Hs. exact Hp.
    + exists []. split; [apply Spaces_nil|]. split; [now rewrite app_nil_r|].
      unfold endsSpace. now rewrite E.
Qed.

Lemma TrimRight_spec (s : gostring) :
  exists r, Spaces r /\ s = strings.TrimRightFunc s unicode.IsSpace ++ r
            /\ endsSpace (strings.TrimRightFunc s unicode.IsSpace) = false.
Proof.
  rewrite TrimRightFunc_trimRight. apply trimRight_spec. lia.
Qed.

(** ** [TrimSpace] *)

Lemma Encode_ascii (c : byte) : b2z c < 0x80 -> EncodeRune (b2z c) = [c].
Proof.
  intros H. pose proof (b2z_range c).
  rewrite Encode_1 by lia. now rewrite z2b_b2z.
Qed.

Lemma Spaces_ascii (c : byte) :
  b2z c < 0x80 -> strings.asciiSpace (b2z c) = true -> Spaces [c].
Proof.
  intros H Hs. rewrite <- (Encode_ascii c H).
  apply Spaces_one. now rewrite IsSpace_ascii.
Qed.

Lemma startsSpace_ascii (c : byte) (t : gostring) :
  b2z c < 0x80 -> startsSpace (c :: t) = strings.asciiSpace (b2z c).
Proof.
  intros H. unfold startsSpace. rewrite Decode_1 by assumption.
  now apply IsSpace_ascii.
Qed.

Lemma endsSpace_ascii (p : gostring) (c : byte) :
  b2z c < 0x80 -> endsSpace (p ++ [c]) = strings.asciiSpace (b2z c).
Proof.
  intros H. unfold endsSpace. rewrite DecodeLast_ascii by assumption.
  now apply IsSpace_ascii.
Qed.

Lemma TrimSpace_stop_TrimRight (rs : list byte) :
  strings.TrimSpace_stop rs = strings.TrimRightFunc (rev rs) unicode.IsSpace.
Proof.
  induction rs as [|c t IH]; [reflexivity|].
  cbn [strings.TrimSpace_stop rev]. unfold RuneSelf.
  destruct (Z.leb_spec 128 (b2z c)) as [Hc | Hc]; [reflexivity|].
  destruct (strings.asciiSpace (b2z c)) eqn:Hs.
  - rewrite IH. symmetry. apply TrimRight_app. apply Spaces_ascii; [lia | assumption].
  - symmetry. apply TrimRight_fix. rewrite endsSpace_ascii by lia. assumption.
Qed.

(** [TrimSpace] is [TrimFunc] with [unicode.IsSpace]: the loops on ASCII
    bytes only save work. *)
Lemma TrimSpace_TrimFunc (s : gostring) :
  strings.TrimSpace s = strings.TrimFunc s unicode.IsSpace.
Proof.
  induction s as [|c t IH]; [reflexivity|].
  cbn [strings.TrimSpace]. unfold RuneSelf.
  destruct (Z.leb_spec 128 (b2z c)) as [Hc | Hc]; [reflexivity|].
  unfold strings.TrimFunc in *.
  destruct (strings.asciiSpace (b2z c)) eqn:Hs.
  - rewrite IH. change (c :: t) with ([c] ++ t).
    rewrite TrimLeft_app; [reflexivity|]. apply Spaces_ascii; [lia | assumption].
  - rewrite TrimSpace_stop_TrimRight, rev_involutive.
    rewrite TrimLeft_fix; [reflexivity|].
    rewrite startsSpace_ascii by lia. assumption.
Qed.

Lemma startsSpace_prefix (v r : gostring) :
  startsSpace v = true -> startsSpace (v ++ r) = true.
Proof.
  intros H. destruct (startsSpace_inv v H) as (x & Hx & Hp).
  rewrite Hp, <- app_assoc. rewrite startsSpace_Encode; [assumption|].
  now apply IsSpace_valid.
Qed.

Lemma TrimSpace_Trimmed (s : gostring) : Trimmed (strings.TrimSpace s).
Proof.
  rewrite TrimSpace_TrimFunc. unfold strings.TrimFunc.
  destruct (TrimLeft_spec s) as (l & Hl & Hs & Hn).
  set (u := strings.TrimLeftFunc s unicode.IsSpace) in *.
  destruct (TrimRight_spec u) as (r & Hr & Hu & Hm).
  split; [|assumption].
  destruct (startsSpace (strings.TrimRightFunc u unicode.IsSpace)) eqn:E;
    [|reflexivity].
  apply startsSpace_prefix with (r := r) in E. rewrite <- Hu in E. congruence.
Qed.

Lemma Trimmed_TrimSpace (s : gostring) : Trimmed s -> strings.TrimSpace s = s.
Proof.
  intros [Hl Hr]. rewrite TrimSpace_TrimFunc. unfold strings.TrimFunc.
  rewrite TrimLeft_fix by assumption. now apply TrimRight_fix.
Qed.

Lemma TrimSpace_idempotent (s : gostring) :
  strings.TrimSpace (strings.TrimSpace s) = strings.TrimSpace s.
Proof. apply Trimmed_TrimSpace, TrimSpace_Trimmed. Qed.

Lemma TrimSpace_Spaces (s : gostring) : Spaces s -> strings.TrimSpace s = [].
Proof.
  intros H. rewrite TrimSpace_TrimFunc. unfold strings.TrimFunc.
  rewrite <- (app_nil_r s), TrimLeft_app by assumption. reflexivity.
Qed.

Lemma Enc_tail (e : gostring) (a d : byte) (m rest : gostring) :
  Enc e -> e = a :: m ++ d :: rest -> 0x80 <= b2z d <= 0xBF.
Proof.
  intros He E. destruct He; destruct m as [|? [|? [|? m']]];
    inversion E; subst; try assumption;
    match goal with
    | H : [] = ?l ++ _ |- _ => destruct l; discriminate
    end.
Qed.

Lemma startsSpace_app (c r : gostring) :
  c <> [] -> Spaces r -> startsSpace c = false -> startsSpace (c ++ r) = false.
Proof.
  intros Hc Hr Hn. destruct (startsSpace (c ++ r)) eqn:E; [|reflexivity].
  exfalso. destruct (startsSpace_inv _ E) as (x & Hx & Hp).
  remember (from (len (EncodeRune x)) (c ++ r)) as rest eqn:Hrest.
  clear Hrest.
  apply app_eq_app in Hp as (m & [[H1 H2] | [H1 H2]]).
  - (* the encoding lies within [c] *)
    rewrite H1, startsSpace_Encode in Hn by now apply IsSpace_valid.
    congruence.
  - (* the encoding reaches into [r] *)
    destruct c as [|a c']; [congruence|].
    destruct m as [|d m'].
    + rewrite app_nil_r in H1. rewrite <- H1 in Hn.
      rewrite <- (app_nil_r (EncodeRune x)) in Hn.
      rewrite startsSpace_Encode in Hn by now apply IsSpace_valid.
      congruence.
    + pose proof (Enc_tail _ a d c' m' (Encode_Enc x) H1) as Hd.
      destruct (Spaces_head r Hr) as [-> | (c0 & t & -> & Hc0)];
        [discriminate|].
      inversion H2; subst. lia.
Qed.

(** White space around a trimmed string is what [TrimSpace] removes. *)
Lemma TrimSpace_pad (l c r : gostring) :
  Spaces l -> Spaces r -> Trimmed c -> strings.TrimSpace (l ++ c ++ r) = c.
Proof.
  intros Hl Hr [Hs He].
  destruct c as [|a c'].
  { cbn [app]. apply TrimSpace_Spaces. now apply Spaces_app. }
  rewrite TrimSpace_TrimFunc. unfold strings.TrimFunc.
  rewrite TrimLeft_app by assumption.
  rewrite TrimLeft_fix by (apply startsSpace_app; congruence).
  rewrite TrimRight_app by assumption. now apply TrimRight_fix.
Qed.

(** ** [Map] and [ToLower] *)

Lemma Decode_valid (s : gostring) :
  ValidRune (fst (DecodeRuneInString s)).
Proof.
  destruct s as [|c t]; [apply ValidRune_RuneError|].
  destruct (DecodeRuneInString (c :: t)) as [r w] eqn:E. cbn [fst].
  destruct (Decode_inv (c :: t) r w ltac:(discriminate) E)
    as [[-> _] | (V & _)]; [apply ValidRune_RuneError | assumption].
Qed.

Lemma written_valid (r : rune) : ValidRune r -> written r = EncodeRune r.
Proof.
  intros [Hr Hs]. unfold written, RuneSelf.
  destruct (Z.leb_spec 0 r); [|lia].
  destruct (Z.ltb_spec r 128); [|reflexivity].
  rewrite Encode_1; [reflexivity | lia].
Qed.

Lemma RuneLen_Encode (r : rune) :
  ValidRune r -> RuneLen r = Z.of_nat (len (EncodeRune r)).
Proof.
  intros [Hr Hs]. unfold MaxRune, surrogateMin, surrogateMax in *.
  unfold RuneLen, rune1Max, rune2Max, rune3Max, MaxRune, surrogateMin,
    surrogateMax.
  assert (C : r <= 0x7F \/ 0x80 <= r <= 0x7FF \/ 0x800 <= r <= 0xFFFF
              \/ 0x10000 <= r) by lia.
  destruct C as [C | [C | [C | C]]].
  - rewrite Encode_1 by lia. zcmp; reflexivity.
  - rewrite Encode_2 by lia. zcmp; reflexivity.
  - rewrite Encode_3 by lia. zcmp; reflexivity.
  - rewrite Encode_4 by lia. zcmp; reflexivity.
Qed.

Lemma Map_rest_fuel (m : rune -> rune) (f1 f2 : nat) (s : gostring) :
  (len s <= f1)%nat -> (len s <= f2)%nat ->
  strings.Map_rest f1 m s = strings.Map_rest f2 m s.
Proof.
  revert f2 s. induction f1 as [|k IH]; intros f2 s H1 H2.
  - assert (s = []) as -> by (apply len_nil; lia). now destruct f2.
  - destruct f2 as [|k2].
    + assert (s = []) as -> by (apply len_nil; lia). reflexivity.
    + cbn [strings.Map_rest]. destruct s as [|c t]; [reflexivity|].
      pose proof (Decode_width (c :: t) ltac:(discriminate)) as Hw.
      destruct (DecodeRuneInString (c :: t)) as [r w]. cbn [snd] in Hw.
      f_equal. apply IH; rewrite len_from; lia.
Qed.

Lemma Map_rest_S (m : rune -> rune) (k : nat) (s : gostring) :
  s <> [] ->
  strings.Map_rest (S k) m s
  = written (m (fst (DecodeRuneInString s)))
    ++ strings.Map_rest k m (from (snd (DecodeRuneInString s)) s).
Proof.
  intros Hs. destruct s as [|c t]; [congruence|].
  cbn [strings.Map_rest]. now destruct (DecodeRuneInString (c :: t)).
Qed.

Lemma mapAll_nil (m : rune -> rune) : mapAll m [] = [].
Proof. reflexivity. Qed.

Lemma mapAll_step (m : rune -> rune) (s : gostring) :
  s <> [] ->
  mapAll m s
  = written (m (fst (DecodeRuneInString s)))
    ++ mapAll m (from (snd (DecodeRuneInString s)) s).
Proof.
  intros Hs. unfold mapAll. destruct s as [|c t]; [congruence|].
  change (len (c :: t)) with (S (len t)). cbn [strings.Map_rest].
  pose proof (Decode_width (c :: t) ltac:(discriminate)) as Hw.
  destruct (DecodeRuneInString (c :: t)) as [r w]. cbn [fst snd] in *.
  unfold written. f_equal.
  apply Map_rest_fuel; rewrite ?len_from; unfold len in *;
    cbn [List.length] in *; lia.
Qed.

Lemma mapAll_Encode (m : rune -> rune) (r : rune) (t : gostring) :
  ValidRune r -> mapAll m (EncodeRune r ++ t) = written (m r) ++ mapAll m t.
Proof.
  intros V. rewrite mapAll_step.
  - rewrite Decode_Encode by assumption. cbn [fst snd].
    now rewrite from_app_len.
  - pose proof (Encode_nonempty r). destruct (EncodeRune r); [congruence | discriminate].
Qed.

(** The first loop of [Map] leaves what the second would write again. *)
Lemma Map_first_rest (m : rune -> rune) (fuel : nat) (s : gostring) :
  (len s <= fuel)%nat ->
  match strings.Map_first fuel m s with
  | None => strings.Map_rest fuel m s = s
  | Some b => strings.Map_rest fuel m s = b
  end.
Proof.
  revert s. induction fuel as [|k IH]; intros s Hf.
  - assert (s = []) as -> by (apply len_nil; lia). reflexivity.
  - destruct s as [|c0 t]; [reflexivity|].
    rewrite Map_rest_S by discriminate. cbn [strings.Map_first].
    pose proof (Decode_width (c0 :: t) ltac:(discriminate)) as Hw.
    destruct (DecodeRuneInString (c0 :: t)) as [c w] eqn:E.
    cbn [fst snd] in *.
    pose proof (Decode_inv (c0 :: t) c w ltac:(discriminate) E) as Hinv.
    assert (Hrec : (len (from w (c0 :: t)) <= k)%nat)
      by (rewrite len_from; unfold len in *; cbn [List.length] in *; lia).
    specialize (IH _ Hrec).
    assert (Hkeep : ValidRune c -> w = len (EncodeRune c) ->
                    c0 :: t = EncodeRune c ++ from w (c0 :: t) ->
                    upto w (c0 :: t) = EncodeRune c).
    { intros V Hw' Hp. rewrite Hp at 1. rewrite Hw'. apply upto_app_len. }
    destruct ((m c =? c) && negb (c =? RuneError)) eqn:C1.
    { apply andb_true_iff in C1 as [C1 C2]. apply Z.eqb_eq in C1.
      apply negb_true_iff, Z.eqb_neq in C2. rewrite C1.
      destruct Hinv as [[-> _] | (V & Hw' & Hp)]; [congruence|].
      rewrite written_valid by assumption.
      destruct (strings.Map_first k m (from w (c0 :: t))); cbn [option_map];
        rewrite IH, <- (Hkeep V Hw' Hp); [reflexivity | apply upto_from]. }
    destruct ((c =? RuneError) && negb (w =? 1)%nat && (m c =? c)) eqn:C2.
    { apply andb_true_iff in C2 as [C2 C3]. apply andb_true_iff in C2 as [C2 C4].
      apply Z.eqb_eq in C3. apply negb_true_iff, Nat.eqb_neq in C4.
      rewrite C3.
      destruct Hinv as [[_ ->] | (V & Hw' & Hp)]; [congruence|].
      rewrite written_valid by assumption.
      destruct (strings.Map_first k m (from w (c0 :: t))); cbn [option_map];
        rewrite IH, <- (Hkeep V Hw' Hp); [reflexivity | apply upto_from]. }
    assert (Hwid : (if c =? RuneError then w else Z.to_nat (RuneLen c)) = w).
    { destruct (Z.eqb_spec c RuneError) as [-> | Hc]; [reflexivity|].
      destruct Hinv as [[-> _] | (V & Hw' & Hp)]; [congruence|].
      rewrite RuneLen_Encode by assumption. lia. }
    rewrite Hwid. f_equal.
    unfold written, RuneSelf. destruct (Z.leb_spec 0 (m c)); [|reflexivity].
    destruct (Z.ltb_spec (m c) 128); [|reflexivity].
    rewrite Encode_1; [reflexivity | lia].
Qed.

Lemma Map_mapAll (m : rune -> rune) (s : gostring) :
  strings.Map m s = mapAll m s.
Proof.
  unfold strings.Map, mapAll.
  pose proof (Map_first_rest m (len s) s (le_n _)) as H.
  destruct (strings.Map_first (len s) m s); now rewrite H.
Qed.

Lemma mapAll_ascii (m : rune -> rune) (s : gostring) :
  forallb (fun c => b2z c <? RuneSelf) s = true ->
  mapAll m s = List.concat (map (fun c => written (m (b2z c))) s).
Proof.
  induction s as [|c t IH]; intros H; [reflexivity|].
  cbn [forallb] in H. apply andb_true_iff in H as [Hc Ht].
  apply Z.ltb_lt in Hc. unfold RuneSelf in Hc.
  rewrite mapAll_step by discriminate. rewrite Decode_1 by assumption.
  cbn [fst snd from skipn map List.concat]. now rewrite IH.
Qed.

Section Lower.
Variable caseLower : rune -> rune.

Lemma written_lower_ascii (c : byte) :
  b2z c < 0x80 ->
  written (unicode.ToLower caseLower (b2z c))
  = [ if isUpperByte c then z2b (b2z c + (0x61 - 0x41)) else c ].
Proof.
  intros H. pose proof (b2z_range c).
  unfold unicode.ToLower, unicode.MaxASCII, isUpperByte.
  destruct (Z.leb_spec (b2z c) 127); [|lia].
  destruct ((0x41 <=? b2z c) && (b2z c <=? 0x5A)) eqn:U.
  - apply andb_true_iff in U as [U1 U2]. apply Z.leb_le in U1, U2.
    unfold written, RuneSelf. zcmp; reflexivity.
  - unfold written, RuneSelf. zcmp; now rewrite z2b_b2z.
Qed.

(** [ToLower] replaces every rune by its lower-case form; the loop on
    ASCII strings only saves work. *)
Lemma ToLower_mapAll (s : gostring) :
  strings.ToLower caseLower s = mapAll (unicode.ToLower caseLower) s.
Proof.
  unfold strings.ToLower.
  destruct (forallb (fun c => b2z c <? RuneSelf) s) eqn:A;
    [|apply Map_mapAll].
  rewrite mapAll_ascii by assumption.
  assert (E : List.concat (map (fun c => written (unicode.ToLower caseLower (b2z c))) s)
              = map (fun c => if isUpperByte c then z2b (b2z c + (0x61 - 0x41)) else c) s).
  { induction s as [|c t IH]; [reflexivity|].
    cbn [forallb] in A. apply andb_true_iff in A as [Hc Ht].
    apply Z.ltb_lt in Hc. unfold RuneSelf in Hc.
    cbn [map List.concat]. rewrite written_lower_ascii, IH by assumption.
    reflexivity. }
  rewrite E. fold isUpperByte.
  destruct (existsb isUpperByte s) eqn:U; cbn [negb]; [reflexivity|].
  clear A E. induction s as [|c t IH]; [reflexivity|].
  cbn [existsb] in U. apply orb_false_iff in U as [Uc Ut].
  cbn [map]. now rewrite Uc, <- IH.
Qed.

Hypothesis table : LowerTable caseLower.

Local Abbreviation lower := (unicode.ToLower caseLower).

Lemma lower_ValidRune (r : rune) : ValidRune r -> ValidRune (lower r).
Proof.
  intros V. unfold unicode.ToLower, unicode.MaxASCII.
  destruct (Z.leb_spec r 127) as [Ha | Ha].
  - destruct V as [V1 V2].
    unfold ValidRune, MaxRune, surrogateMin, surrogateMax in *. zcmp; lia.
  - apply (lower_valid _ table); [assumption | unfold unicode.MaxASCII; lia].
Qed.

Lemma lower_idempotent (r : rune) : ValidRune r -> lower (lower r) = lower r.
Proof.
  intros V. destruct (Z.leb_spec r 127) as [Ha | Ha].
  - destruct ((0x41 <=? r) && (r <=? 0x5A)) eqn:U.
    + assert (E : lower r = r + (0x61 - 0x41)).
      { unfold unicode.ToLower, unicode.MaxASCII.
        destruct (Z.leb_spec r 127); [now rewrite U | lia]. }
      rewrite E. apply andb_true_iff in U as [U1 U2].
      apply Z.leb_le in U1, U2.
      unfold unicode.ToLower, unicode.MaxASCII. zcmp; reflexivity.
    + assert (E : lower r = r).
      { unfold unicode.ToLower, unicode.MaxASCII.
        destruct (Z.leb_spec r 127); [now rewrite U | lia]. }
      now rewrite !E.
  - assert (E : lower r = caseLower r).
    { unfold unicode.ToLower, unicode.MaxASCII.
      destruct (Z.leb_spec r 127); [lia | reflexivity]. }
    rewrite E. apply (lower_idem _ table); [assumption|].
    unfold unicode.MaxASCII. lia.
Qed.

Lemma lower_IsSpace (r : rune) :
  ValidRune r -> unicode.IsSpace (lower r) = true -> unicode.IsSpace r = true.
Proof.
  intros V. unfold unicode.ToLower, unicode.MaxASCII.
  destruct (Z.leb_spec r 127) as [Ha | Ha].
  - destruct ((0x41 <=? r) && (r <=? 0x5A)) eqn:U; [|auto].
    apply andb_true_iff in U as [U1 U2]. apply Z.leb_le in U1, U2.
    assert (E : unicode.IsSpace (r + (0x61 - 0x41)) = false)
      by (unfold unicode.IsSpace, unicode.MaxLatin1; zcmp; reflexivity).
    rewrite E. discriminate.
  - apply (lower_space _ table); [assumption | unfold unicode.MaxASCII; lia].
Qed.

Lemma mapAll_lower_idempotent (s : gostring) :
  mapAll lower (mapAll lower s) = mapAll lower s.
Proof.
  remember (len s) as n eqn:Hn. revert s Hn.
  induction n as [n IH] using lt_wf_ind. intros s Hn.
  destruct s as [|c t]; [reflexivity|].
  rewrite (mapAll_step lower (c :: t)) by discriminate.
  pose proof (Decode_width (c :: t) ltac:(discriminate)) as Hw.
  pose proof (Decode_valid (c :: t)) as V.
  destruct (DecodeRuneInString (c :: t)) as [r w]. cbn [fst snd] in *.
  rewrite written_valid by now apply lower_ValidRune.
  rewrite mapAll_Encode by now apply lower_ValidRune.
  rewrite lower_idempotent by assumption.
  rewrite written_valid by now apply lower_ValidRune.
  f_equal. apply (IH (len (from w (c :: t)))); [|reflexivity].
  rewrite len_from. subst n. lia.
Qed.

Lemma startsSpace_mapAll (s : gostring) :
  startsSpace s = false -> startsSpace (mapAll lower s) = false.
Proof.
  intros H. destruct s as [|c t]; [reflexivity|].
  rewrite mapAll_step by discriminate.
  pose proof (Decode_valid (c :: t)) as V. unfold startsSpace in H.
  destruct (DecodeRuneInString (c :: t)) as [r w]. cbn [fst snd] in *.
  rewrite written_valid by now apply lower_ValidRune.
  rewrite startsSpace_Encode by now apply lower_ValidRune.
  destruct (unicode.IsSpace (lower r)) eqn:E; [|reflexivity].
  apply lower_IsSpace in E; [congruence | assumption].
Qed.

(** The output of [Map] ends with what the last rune of the input is
    mapped to. *)
Lemma mapAll_last (s : gostring) :
  s <> [] ->
  exists p q x out, s = p ++ q /\ q <> []
    /\ DecodeRuneInString q = (x, len q)
    /\ mapAll lower s = out ++ EncodeRune (lower x).
Proof.
  remember (len s) as n eqn:Hn. revert s Hn.
  induction n as [n IH] using lt_wf_ind. intros s Hn Hs.
  pose proof (Decode_width s Hs) as Hw.
  pose proof (Decode_valid s) as V.
  pose proof (mapAll_step lower s Hs) as Hstep.
  destruct (DecodeRuneInString s) as [r w] eqn:E. cbn [fst snd] in *.
  rewrite written_valid in Hstep by now apply lower_ValidRune.
  destruct (from w s) as [|c' t'] eqn:Ef.
  - (* the first rune is the last *)
    exists [], s, r, []. split; [reflexivity|]. split; [assumption|].
    assert (Hl : w = len s).
    { apply (f_equal len) in Ef. rewrite len_from in Ef. cbn in Ef. lia. }
    split; [now rewrite <- Hl|].
    rewrite Hstep, mapAll_nil, app_nil_r. reflexivity.
  - destruct (IH (len (c' :: t'))) with (s := c' :: t')
      as (p & q & x & out & Hp & Hq & Hd & Hm); [|reflexivity|discriminate|].
    { rewrite <- Ef, len_from. subst n. lia. }
    exists (upto w s ++ p), q, x, (EncodeRune (lower r) ++ out).
    split; [rewrite <- app_assoc, <- Hp, <- Ef; symmetry; apply upto_from|].
    split; [assumption|]. split; [assumption|].
    rewrite Hstep, Hm, app_assoc. reflexivity.
Qed.

Lemma endsSpace_mapAll (s : gostring) :
  endsSpace s = false -> endsSpace (mapAll lower s) = false.
Proof.
  intros H. destruct s as [|c t]; [reflexivity|].
  destruct (mapAll_last (c :: t) ltac:(discriminate))
    as (p & q & x & out & Hp & Hq & Hd & Hm).
  pose proof (Decode_valid q) as V. rewrite Hd in V. cbn [fst] in V.
  rewrite Hm, endsSpace_Encode by now apply lower_ValidRune.
  destruct (unicode.IsSpace (lower x)) eqn:E; [|reflexivity].
  apply lower_IsSpace in E; [|assumption].
  destruct (Decode_inv q x (len q) Hq Hd) as [[-> _] | (_ & Hw & Hsplit)];
    [rewrite IsSpace_RuneError in E; discriminate|].
  assert (Hq' : q = EncodeRune x).
  { rewrite Hsplit at 1.
    assert (from (len q) q = []) as ->
      by (apply len_nil; rewrite len_from; lia).
    apply app_nil_r. }
  rewrite Hp, Hq', endsSpace_Encode in H by assumption. congruence.
Qed.

Lemma Trimmed_mapAll (s : gostring) : Trimmed s -> Trimmed (mapAll lower s).
Proof.
  intros [H1 H2]. split; [now apply startsSpace_mapAll | now apply endsSpace_mapAll].
Qed.

End Lower.

(** ** The two functions together *)

Section Normal.
Variable caseLower : rune -> rune.
Hypothesis table : LowerTable caseLower.

Lemma ToLower_idempotent (s : gostring) :
  strings.ToLower caseLower (strings.ToLower caseLower s)
  = strings.ToLower caseLower s.
Proof.
  rewrite !ToLower_mapAll. now apply mapAll_lower_idempotent.
Qed.

Lemma ToLower_Trimmed (s : gostring) :
  Trimmed s -> Trimmed (strings.ToLower caseLower s).
Proof.
  rewrite ToLower_mapAll. now apply Trimmed_mapAll.
Qed.

Lemma TrimSpace_ToLower_TrimSpace (s : gostring) :
  strings.TrimSpace (strings.ToLower caseLower (strings.TrimSpace s))
  = strings.ToLower caseLower (strings.TrimSpace s).
Proof.
  apply Trimmed_TrimSpace, ToLower_Trimmed, TrimSpace_Trimmed.
Qed.

End Normal.

(** * The service *)

Lemma CreateUser_normalized (caseLower : rune -> rune) {St : Type}
      (repo : repository.UserRepository St) (n a e r : gostring) (st : St) :
  service.userService_CreateUser caseLower repo n a e r st
  = (snd (fst (repository.CreateUser repo (normalized caseLower n a e r) st)),
     snd (repository.CreateUser repo (normalized caseLower n a e r) st)).
Proof.
  unfold service.userService_CreateUser, bind, ret.
  fold (normalized caseLower n a e r).
  destruct (repository.CreateUser repo (normalized caseLower n a e r) st)
    as [[u err] st'].
  now destruct err.
Qed.


(** C6: the service returns the error of the repository as it is, and none
    exactly when the repository returns none. *)
Theorem C6_CreateUser_propagates_error
        (caseLower : rune -> rune) {St : Type}
        (repo : repository.UserRepository St)
        (nombre apellido email reparto : gostring) (st : St) :
  let from_repo :=
    snd (fst (repository.CreateUser
                repo (normalized caseLower nombre apellido email reparto) st)) in
  let from_service :=
    fst (service.CreateUser (service.NewUserService caseLower repo)
                            nombre apellido email reparto st) in
  from_service = from_repo /\ (from_service = None <-> from_repo = None).
Proof.
  cbn zeta. cbn [service.CreateUser service.NewUserService].
  rewrite CreateUser_normalized. cbn [fst]. split; [reflexivity | tauto].
Qed.

(** C7: listing through the service is listing through the repository:
    the same users in the same order, the same error, the same effect. *)
Theorem C7_GetAllUsers_delegates
        (caseLower : rune -> rune) {St : Type}
        (repo : repository.UserRepository St) (st : St) :
  service.GetAllUsers (service.NewUserService caseLower repo) st
  = repository.GetAllUsers repo st.
Proof. reflexivity. Qed.

(** * The handlers and the routes *)

Section Routes.
Variable emailFormat : gostring -> bool.
Variable formatTime : Time -> gostring.
Context {St : Type}.
Variable cfg : config.Config.
Variable h : @handlers.UserHandler St.

Lemma route_health :
  http.route (http.NewServer emailFormat formatTime cfg h)
             (go "GET") (go "/health") = Some http.health.
Proof. reflexivity. Qed.

Lemma route_POST_usuarios :
  http.route (http.NewServer emailFormat formatTime cfg h)
             (go "POST") (go "/api/v1/usuarios")
  = Some (handlers.CreateUser emailFormat h).
Proof. reflexivity. Qed.

Lemma route_GET_usuarios :
  http.route (http.NewServer emailFormat formatTime cfg h)
             (go "GET") (go "/api/v1/usuarios")
  = Some (handlers.ListUsers formatTime h).
Proof. reflexivity. Qed.

End Routes.

(** C8: [GET /health] answers 200 with [{"status":"ok"}] whatever the
    request carries and whatever the state behind the server is, and
    leaves that state as it was: nothing downstream is called. *)
Theorem C8_health_always_ok
        (emailFormat : gostring -> bool) (formatTime : Time -> gostring)
        {St : Type} (cfg : config.Config) (h : @handlers.UserHandler St)
        (body : RequestBody) (st : St) :
  exists m,
    http.ServeHTTP (http.NewServer emailFormat formatTime cfg h)
                   (GET_health body) = Some m
    /\ m st = ({| Status := 200; Payload := H "status" (go "ok") |}, st).
Proof.
  exists (http.health (GET_health body)). split; reflexivity.
Qed.

(** * Listing *)

Lemma ListUsers_cases (formatTime : Time -> gostring) {St : Type}
      (h : @handlers.UserHandler St) (c : Request) (st : St) :
  handlers.ListUsers formatTime h c st
  = (match snd (fst (service.GetAllUsers (handlers.svc h) st)) with
     | Some _ =>
       {| Status := StatusInternalServerError;
          Payload := H "error" (go "no se pudo obtener usuarios") |}
     | None =>
       {| Status := StatusOK;
          Payload := handlers.Users_JSON formatTime
                       (fst (fst (service.GetAllUsers (handlers.svc h) st))) |}
     end,
     snd (service.GetAllUsers (handlers.svc h) st)).
Proof.
  unfold handlers.ListUsers, bind, ret.
  destruct (service.GetAllUsers (handlers.svc h) st) as [[us err] st'].
  now destruct err.
Qed.

(** C3: [GET /api/v1/usuarios] answers 500 with the fixed message when the
    repository's [GetAllUsers] returns an error and only then; otherwise it
    answers 200 with the users, and on a table without rows that is the
    empty array. *)
Theorem C3_list_users
        (caseLower : rune -> rune) (emailFormat : gostring -> bool)
        (formatTime : Time -> gostring) (cfg : config.Config)
        (body : RequestBody) (d : gorm.DB) :
  exists m,
    http.ServeHTTP (server caseLower emailFormat formatTime cfg)
                   (GET_usuarios body) = Some m
    /\ let listed := repository.GetAllUsers repository.NewUserRepository d in
       m d = (match snd (fst listed) with
              | Some _ =>
                {| Status := 500;
                   Payload := H "error" (go "no se pudo obtener usuarios") |}
              | None =>
                {| Status := 200;
                   Payload := handlers.Users_JSON formatTime (fst (fst listed)) |}
              end, snd listed)
       /\ (Status (fst (m d)) = 500 <-> snd (fst listed) <> None)
       /\ (gorm.users d = [] -> snd (fst listed) = None ->
           m d = ({| Status := 200; Payload := JArray [] |}, d)).
Proof.
  exists (handlers.ListUsers formatTime (userHandler caseLower)
                             (GET_usuarios body)).
  split; [reflexivity|]. cbn zeta.
  rewrite ListUsers_cases.
  change (service.GetAllUsers (handlers.svc (userHandler caseLower)) d)
    with (repository.GetAllUsers repository.NewUserRepository d).
  split; [reflexivity|]. split.
  - destruct (snd (fst (repository.GetAllUsers repository.NewUserRepository d)));
      cbn [fst Status]; unfold StatusOK, StatusInternalServerError;
      split; intros; congruence || lia.
  - intros Hrows Herr. revert Herr.
    cbn [repository.GetAllUsers repository.NewUserRepository].
    unfold repository.userRepository_GetAllUsers, bind, ret, gorm.Find.
    destruct (gorm.fault d); cbn; [discriminate|].
    intros _. now rewrite Hrows.
Qed.

(** * Creating *)

Lemma CreateUser_cases (emailFormat : gostring -> bool) {St : Type}
      (h : @handlers.UserHandler St) (c : Request) (st : St) :
  handlers.CreateUser emailFormat h c st
  = let bound := handlers.ShouldBindJSON emailFormat (Body c) handlers.zeroRequest in
    match snd bound with
    | Some e =>
      ({| Status := StatusBadRequest; Payload := H "error" (Error e) |}, st)
    | None =>
      let req := fst bound in
      let called :=
        service.CreateUser (handlers.svc h) (handlers.Nombre req)
          (handlers.Apellido req) (handlers.Email req) (handlers.Reparto req)
          st in
      (match fst called with
       | Some _ =>
         {| Status := StatusInternalServerError;
            Payload := H "error" (go "no se pudo crear el usuario") |}
       | None =>
         {| Status := StatusCreated;
            Payload := H "message" (go "usuario creado exitosamente") |}
       end, snd called)
    end.
Proof.
  unfold handlers.CreateUser. cbn zeta.
  destruct (handlers.ShouldBindJSON emailFormat (Body c) handlers.zeroRequest)
    as [req [e|]]; cbn [fst snd]; [reflexivity|].
  unfold bind, ret.
  destruct (service.CreateUser (handlers.svc h) _ _ _ _ st) as [[e|] st'];
    reflexivity.
Qed.

(** C4: [POST /api/v1/usuarios] answers 400 with the message of the binding
    error when the binding fails; when it succeeds, 500 with
    [{"error":"no se pudo crear el usuario"}] if the service returns an
    error and 201 with [{"message":"usuario creado exitosamente"}] if it
    returns none. *)
Theorem C4_create_user_responses
        (emailFormat : gostring -> bool) (formatTime : Time -> gostring)
        {St : Type} (cfg : config.Config)
        (svc : service.UserService St) (body : RequestBody) (st : St) :
  exists m,
    http.ServeHTTP
      (http.NewServer emailFormat formatTime cfg (handlers.NewUserHandler svc))
      (POST_usuarios body) = Some m
    /\ forall req bindErr,
         handlers.ShouldBindJSON emailFormat body handlers.zeroRequest
         = (req, bindErr) ->
         (forall e, bindErr = Some e ->
            m st = ({| Status := 400; Payload := H "error" (Error e) |}, st))
         /\ (bindErr = None ->
             forall err st',
               service.CreateUser svc (handlers.Nombre req)
                 (handlers.Apellido req) (handlers.Email req)
                 (handlers.Reparto req) st = (err, st') ->
               (err <> None ->
                m st = ({| Status := 500;
                           Payload := H "error" (go "no se pudo crear el usuario") |},
                        st'))
               /\ (err = None ->
                   m st = ({| Status := 201;
                              Payload := H "message" (go "usuario creado exitosamente") |},
                           st'))).
Proof.
  exists (handlers.CreateUser emailFormat (handlers.NewUserHandler svc)
                              (POST_usuarios body)).
  split; [reflexivity|].
  intros req bindErr Hb. rewrite CreateUser_cases. cbn zeta.
  cbn [Body POST_usuarios]. rewrite Hb. cbn [fst snd]. split.
  - now intros e ->.
  - intros -> err st' Hc. cbn [handlers.svc handlers.NewUserHandler].
    rewrite Hc. cbn [fst snd]. split; intros He.
    + destruct err; [reflexivity | congruence].
    + now subst err.
Qed.

(** ** Binding *)

Lemma get_set_other (f g : handlers.field) (v : gostring)
      (req : handlers.createUserRequest) :
  f <> g -> handlers.get f (handlers.set g v req) = handlers.get f req.
Proof. destruct f, g; intros H; try reflexivity; congruence. Qed.

Lemma decodeObject_missing (f : handlers.field)
      (members : list (gostring * JSON)) (req : handlers.createUserRequest)
      (saved : option error) :
  (forall key v, In (key, v) members -> handlers.fieldOf key <> Some f) ->
  handlers.get f (fst (handlers.decodeObject members req saved))
  = handlers.get f req.
Proof.
  revert req saved. induction members as [|[key v] rest IH];
    intros req saved Hm; [reflexivity|].
  cbn [handlers.decodeObject].
  assert (Hrest : forall key v, In (key, v) rest -> handlers.fieldOf key <> Some f)
    by (intros; eapply Hm; right; eassumption).
  pose proof (Hm key v (or_introl eq_refl)) as Hk.
  destruct (handlers.fieldOf key) as [g|]; [|now apply IH].
  destruct v; rewrite IH by assumption; try reflexivity.
  apply get_set_other. congruence.
Qed.

Lemma Missing_empty (f : handlers.field) (v : JSON) :
  Missing f (Document v) ->
  handlers.get f (fst (handlers.Unmarshal v handlers.zeroRequest)) = [].
Proof.
  intros (members & E & Hm). inversion E; subst.
  cbn [handlers.Unmarshal]. rewrite decodeObject_missing by assumption.
  now destruct f.
Qed.

Lemma required_empty (f : handlers.field) (req : handlers.createUserRequest) :
  handlers.get f req = [] -> handlers.required f req <> [].
Proof. intros E. unfold handlers.required. now rewrite E. Qed.

Lemma validate_rejects (emailFormat : gostring -> bool)
      (req : handlers.createUserRequest) :
  (exists f, handlers.get f req = []) \/ emailFormat (handlers.Email req) = false ->
  handlers.validate emailFormat req <> None.
Proof.
  intros Hbad. unfold handlers.validate.
  assert (Hne : handlers.required handlers.fNombre req
                ++ handlers.required handlers.fApellido req
                ++ handlers.required_email emailFormat handlers.fEmail req
                ++ handlers.required handlers.fReparto req <> []).
  { assert (He : (exists f, handlers.get f req = [])
                 \/ handlers.required_email emailFormat handlers.fEmail req <> []).
    { destruct Hbad as [Hf | He]; [now left | right].
      unfold handlers.required_email. cbn [handlers.get]. rewrite He.
      now destruct (len (handlers.Email req) =? 0)%nat. }
    clear Hbad. intros E.
    apply app_eq_nil in E as [E1 E]. apply app_eq_nil in E as [E2 E].
    apply app_eq_nil in E as [E3 E4].
    destruct He as [[f Hf] | He]; [|congruence].
    destruct f.
    - now apply (required_empty handlers.fNombre req).
    - now apply (required_empty handlers.fApellido req).
    - revert E3. unfold handlers.required_email. now rewrite Hf.
    - now apply (required_empty handlers.fReparto req). }
  destruct (_ ++ _); [congruence | discriminate].
Qed.

Lemma ShouldBindJSON_rejects (emailFormat : gostring -> bool) (v : JSON) :
  (exists f, handlers.get f (fst (handlers.Unmarshal v handlers.zeroRequest)) = [])
  \/ emailFormat (handlers.Email (fst (handlers.Unmarshal v handlers.zeroRequest)))
     = false ->
  snd (handlers.ShouldBindJSON emailFormat (Document v) handlers.zeroRequest)
  <> None.
Proof.
  intros Hbad. unfold handlers.ShouldBindJSON.
  destruct (handlers.Unmarshal v handlers.zeroRequest) as [req [e|]];
    cbn [fst snd] in *; [discriminate|].
  now apply validate_rejects.
Qed.

Lemma validate_accepts (emailFormat : gostring -> bool)
      (n a e r : gostring) :
  n <> [] -> a <> [] -> e <> [] -> r <> [] -> emailFormat e = true ->
  handlers.validate emailFormat
    {| handlers.Nombre := n; handlers.Apellido := a;
       handlers.Email := e; handlers.Reparto := r |} = None.
Proof.
  intros Hn Ha He Hr Hf.
  unfold handlers.validate, handlers.required, handlers.required_email.
  cbn [handlers.get handlers.Nombre handlers.Apellido handlers.Email
       handlers.Reparto].
  destruct n, a, e, r; try congruence. cbn [len List.length Nat.eqb].
  now rewrite Hf.
Qed.

Lemma ShouldBindJSON_createBody (emailFormat : gostring -> bool)
      (n a e r : gostring) :
  n <> [] -> a <> [] -> e <> [] -> r <> [] -> emailFormat e = true ->
  handlers.ShouldBindJSON emailFormat (createBody n a e r) handlers.zeroRequest
  = ({| handlers.Nombre := n; handlers.Apellido := a;
        handlers.Email := e; handlers.Reparto := r |}, None).
Proof.
  intros Hn Ha He Hr Hf. unfold handlers.ShouldBindJSON, createBody.
  change (handlers.Unmarshal _ handlers.zeroRequest)
    with ({| handlers.Nombre := n; handlers.Apellido := a;
             handlers.Email := e; handlers.Reparto := r |}, @None error).
  cbv beta iota. now rewrite validate_accepts.
Qed.

(** C5: a create request that is answered 400 reaches neither the service
    nor the repository and leaves the store as it was; a request without
    one of the four fields, or with an address that fails the format
    check, is answered 400. *)
Theorem C5_rejected_request_changes_nothing
        (caseLower : rune -> rune) (emailFormat : gostring -> bool)
        (formatTime : Time -> gostring) (cfg : config.Config) {St : Type}
        (repo : repository.UserRepository St) (body : RequestBody)
        (st : St) (passed : list User) (calls : nat) :
  let svc := counting (service.NewUserService caseLower (recording repo)) in
  exists m,
    http.ServeHTTP
      (http.NewServer emailFormat formatTime cfg (handlers.NewUserHandler svc))
      (POST_usuarios body) = Some m
    /\ (Status (fst (m (st, passed, calls))) = 400 ->
        snd (m (st, passed, calls)) = (st, passed, calls))
    /\ ((exists f, Missing f body) ->
        Status (fst (m (st, passed, calls))) = 400)
    /\ (forall v, body = Document v ->
        emailFormat (handlers.Email (fst (handlers.Unmarshal v handlers.zeroRequest)))
        = false ->
        Status (fst (m (st, passed, calls))) = 400).
Proof.
  intros svc.
  exists (handlers.CreateUser emailFormat (handlers.NewUserHandler svc)
                              (POST_usuarios body)).
  split; [reflexivity|].
  rewrite CreateUser_cases. cbn zeta. cbn [Body POST_usuarios].
  destruct (handlers.ShouldBindJSON emailFormat body handlers.zeroRequest)
    as [req [e|]] eqn:Hb; cbn [fst snd].
  - repeat split; reflexivity.
  - assert (Hok : snd (handlers.ShouldBindJSON emailFormat body
                         handlers.zeroRequest) = None) by now rewrite Hb.
    split; [|split].
    + destruct (fst (service.CreateUser _ _ _ _ _ _)); cbn [Status];
        unfold StatusInternalServerError, StatusCreated; lia.
    + intros [f Hm]. exfalso. destruct Hm as (members & -> & Hm).
      revert Hok. apply ShouldBindJSON_rejects. left. exists f.
      apply Missing_empty. exists members. auto.
    + intros v -> He. exfalso. revert Hok.
      apply ShouldBindJSON_rejects. now right.
Qed.

(** * The store *)

Lemma streq_true (a b : gostring) : streq a b = true <-> a = b.
Proof. unfold streq. destruct (string_eq_dec a b); split; congruence. Qed.

Lemma email_taken (rows : list User) (e : gostring) :
  existsb (fun r => streq (Email r) e) rows = true <-> In e (map Email rows).
Proof.
  rewrite existsb_exists, in_map_iff. split.
  - intros (r & Hr & E). apply streq_true in E. eauto.
  - intros (r & E & Hr). exists r. split; [assumption | now apply streq_true].
Qed.

Lemma id_fresh (rows : list User) (n : Z) :
  Forall (fun u => 0 < ID u <= n) rows ->
  existsb (fun r => ID r =? n + 1) rows = false.
Proof.
  intros H. apply not_true_is_false. rewrite existsb_exists.
  intros (r & Hr & E). rewrite Forall_forall in H. specialize (H r Hr).
  apply Z.eqb_eq in E. lia.
Qed.

(** What an insert of a record without an id does. *)
Lemma Create_new (u : User) (d : gorm.DB) :
  ID u = 0 -> Forall (fun r => 0 < ID r <= gorm.seq d) (gorm.users d) ->
  gorm.Create u d
  = match gorm.fault d with
    | Some e => ((gorm.stamp d u, Some e), d)
    | None =>
      if existsb (fun r => streq (Email r) (Email u)) (gorm.users d) then
        ((gorm.stamp d u, Some (UniqueConstraintError (go "users.email"))), d)
      else
        let row := gorm.with_ID (gorm.stamp d u) (gorm.seq d + 1) in
        ((row, None),
         gorm.with_rows d (gorm.users d ++ [row]) (gorm.seq d + 1))
    end.
Proof.
  intros Hid Hinv. unfold gorm.Create.
  destruct (gorm.fault d); [reflexivity|].
  cbn [gorm.stamp ID Email]. rewrite Hid. cbn [Z.eqb].
  rewrite id_fresh by assumption.
  destruct (existsb _ (gorm.users d)); [reflexivity|].
  cbn zeta. do 2 f_equal. lia.
Qed.

Section Store.
Variable caseLower : rune -> rune.
Variable emailFormat : gostring -> bool.
Variable formatTime : Time -> gostring.
Variable cfg : config.Config.

Local Abbreviation Inv := (TableInv caseLower).
Local Abbreviation Reach := (Reachable caseLower emailFormat formatTime cfg).

Lemma Inv_new (clock : Time) : Inv (db.NewDatabase clock).
Proof.
  unfold TableInv. cbn. repeat split; try constructor. lia.
Qed.

Lemma Create_Inv (n a e r : gostring) (d : gorm.DB) :
  Inv d -> Inv (snd (gorm.Create (normalized caseLower n a e r) d)).
Proof.
  intros HI. pose proof HI as (He & Hi & Hs & Hseq & Hn).
  rewrite Create_new by (reflexivity || assumption).
  destruct (gorm.fault d); [assumption|].
  destruct (existsb _ (gorm.users d)) eqn:Ex; [assumption|].
  cbn zeta. cbn [snd].
  assert (Hfresh : ~ In (Email (normalized caseLower n a e r))
                        (map Email (gorm.users d))).
  { rewrite <- email_taken. congruence. }
  unfold TableInv, gorm.with_rows. cbn [gorm.users gorm.seq].
  rewrite !map_app. cbn [map gorm.with_ID gorm.stamp ID Email].
  repeat split.
  - apply NoDup_app; [assumption | repeat constructor; auto |].
    intros x Hx [<- | []]. now apply Hfresh.
  - apply NoDup_app; [assumption | repeat constructor; auto |].
    intros x Hx [<- | []]. apply in_map_iff in Hx as (u & Hu & Hin).
    rewrite Forall_forall in Hs. specialize (Hs u Hin). lia.
  - apply Forall_app. split.
    + eapply Forall_impl; [|exact Hs]. cbn. intros; lia.
    + repeat constructor; cbn; lia.
  - lia.
  - apply Forall_app. split; [assumption|]. repeat constructor. now exists e.
Qed.

(** Every request leaves the store as it was or inserts one record built
    by the service. *)
Lemma serve_effect (c : Request) (d : gorm.DB) (resp : Response) (d' : gorm.DB) :
  serve caseLower emailFormat formatTime cfg c d = Some (resp, d') ->
  d' = d
  \/ exists n a e r, d' = snd (gorm.Create (normalized caseLower n a e r) d).
Proof.
  unfold serve, http.ServeHTTP, http.route.
  cbn [http.engine server http.NewServer handlers.RegisterRoutes app find fst snd].
  destruct (streq (go "GET") (Method c) && streq (go "/health") (Path c)).
  { intros E. inversion E. now left. }
  destruct (streq (go "POST") (Method c)
            && streq (go "/api/v1" ++ go "/usuarios") (Path c)).
  { cbn [snd]. rewrite CreateUser_cases. cbn zeta.
    destruct (snd (handlers.ShouldBindJSON _ _ _)).
    - intros E. inversion E. now left.
    - intros E. inversion E. right.
      cbn [handlers.svc userHandler handlers.NewUserHandler userSvc
           service.CreateUser service.NewUserService].
      rewrite CreateUser_normalized. cbn [snd]. eauto. }
  destruct (streq (go "GET") (Method c)
            && streq (go "/api/v1" ++ go "/usuarios") (Path c)).
  { cbn [snd]. rewrite ListUsers_cases. intros E. inversion E. left.
    cbn. unfold repository.userRepository_GetAllUsers, bind, ret, gorm.Find.
    now destruct (gorm.fault d). }
  discriminate.
Qed.

Lemma after_Inv (d : gorm.DB) (ev : event) :
  Inv d -> Inv (after caseLower emailFormat formatTime cfg d ev).
Proof.
  intros HI. destruct ev as [c | t | f]; cbn [after]; [|exact HI|exact HI].
  destruct (serve caseLower emailFormat formatTime cfg c d) as [[resp d']|] eqn:E;
    [|assumption].
  destruct (serve_effect _ _ _ _ E) as [-> | (n & a & e & r & ->)];
    [assumption | now apply Create_Inv].
Qed.

Lemma Reachable_Inv (d : gorm.DB) : Reach d -> Inv d.
Proof.
  induction 1 as [clock | d ev _ IH]; [apply Inv_new | now apply after_Inv].
Qed.

End Store.

(** * Uniqueness of the address *)

Lemma SameAddress_normal (caseLower : rune -> rune) (stored submitted : gostring) :
  LowerTable caseLower ->
  (exists e, stored = strings.ToLower caseLower (strings.TrimSpace e)) ->
  SameAddress caseLower stored submitted ->
  strings.ToLower caseLower (strings.TrimSpace submitted) = stored.
Proof.
  intros table (e & ->) (l & c & r & -> & Hl & Hr & Hc & Hcase).
  rewrite TrimSpace_pad by assumption. rewrite Hcase.
  now apply ToLower_idempotent.
Qed.

Lemma CreateUser_taken (caseLower : rune -> rune) (d : gorm.DB)
      (n a e r : gostring) :
  TableInv caseLower d ->
  In (strings.ToLower caseLower (strings.TrimSpace e)) (map Email (gorm.users d)) ->
  exists err,
    service.CreateUser (userSvc caseLower) n a e r d = (Some err, d)
    /\ (gorm.fault d = None -> err = UniqueConstraintError (go "users.email")).
Proof.
  intros HI Hin.
  cbn [service.CreateUser userSvc service.NewUserService].
  rewrite CreateUser_normalized.
  cbn [repository.CreateUser userRepo repository.NewUserRepository].
  unfold repository.userRepository_CreateUser.
  rewrite Create_new by (reflexivity || apply HI).
  destruct (gorm.fault d) as [f|]; cbn [fst snd].
  - exists f. split; [reflexivity | discriminate].
  - apply email_taken in Hin. cbn [normalized Email]. rewrite Hin. cbn [fst snd].
    eexists. split; reflexivity.
Qed.

(** C2: in every state the program can reach, the persisted users have
    pairwise different ids, none of them zero, and pairwise different
    addresses, each one the trimmed and lower-cased form of a submitted
    one; and creating a user whose address is that of a persisted user up
    to the case of letters and to surrounding white space fails, with the
    uniqueness error of the store when the connection is in order, and
    adds no row: the service returns the error and the handler answers 500,
    the store unchanged.  Only the last part needs the case table to be
    what [LowerTable] says. *)
Theorem C2_unique_id_and_email
        (caseLower : rune -> rune) (emailFormat : gostring -> bool)
        (formatTime : Time -> gostring) (cfg : config.Config) (d : gorm.DB) :
  Reachable caseLower emailFormat formatTime cfg d ->
  NoDup (map ID (gorm.users d))
  /\ Forall (fun u => ID u <> 0) (gorm.users d)
  /\ NoDup (map Email (gorm.users d))
  /\ Forall (fun u => exists e,
                 Email u = strings.ToLower caseLower (strings.TrimSpace e))
            (gorm.users d)
  /\ (LowerTable caseLower ->
      forall u submitted,
        In u (gorm.users d) -> SameAddress caseLower (Email u) submitted ->
        (forall n a r, exists err,
            service.CreateUser (userSvc caseLower) n a submitted r d
            = (Some err, d)
            /\ (gorm.fault d = None ->
                err = UniqueConstraintError (go "users.email")))
        /\ (forall body req,
               handlers.ShouldBindJSON emailFormat body handlers.zeroRequest
               = (req, None) ->
               handlers.Email req = submitted ->
               serve caseLower emailFormat formatTime cfg (POST_usuarios body) d
               = Some ({| Status := 500;
                          Payload := H "error" (go "no se pudo crear el usuario") |},
                       d))).
Proof.
  intros HR. pose proof (Reachable_Inv _ _ _ _ _ HR) as HI.
  pose proof HI as (He & Hi & Hs & Hseq & Hn).
  split; [assumption|]. split.
  { eapply Forall_impl; [|exact Hs]. cbn. intros; lia. }
  split; [assumption|]. split; [assumption|].
  intros table u submitted Hu Hsame.
  assert (Hnorm : strings.ToLower caseLower (strings.TrimSpace submitted) = Email u).
  { apply SameAddress_normal; [assumption | | assumption].
    rewrite Forall_forall in Hn. now apply Hn. }
  assert (Hin : In (strings.ToLower caseLower (strings.TrimSpace submitted))
                   (map Email (gorm.users d))).
  { rewrite Hnorm. now apply in_map. }
  split.
  - intros n a r. now apply CreateUser_taken.
  - intros body req Hb <-.
    unfold serve.
    change (http.ServeHTTP (server caseLower emailFormat formatTime cfg)
                           (POST_usuarios body))
      with (Some (handlers.CreateUser emailFormat (userHandler caseLower)
                                      (POST_usuarios body))).
    cbv beta iota. rewrite CreateUser_cases. cbn zeta. cbn [Body POST_usuarios].
    rewrite Hb. cbn [fst snd handlers.svc userHandler handlers.NewUserHandler].
    destruct (CreateUser_taken caseLower d (handlers.Nombre req)
                (handlers.Apellido req) (handlers.Email req)
                (handlers.Reparto req) HI Hin) as (err & -> & _).
    reflexivity.
Qed.

(** * White space only *)

(** C9: a create request whose name (or department) is white space only,
    and not empty, passes the binding; the service trims it, and the row
    that is inserted has the empty string in that field. *)
Theorem C9_blank_field_is_persisted_empty
        (caseLower : rune -> rune) (emailFormat : gostring -> bool)
        (formatTime : Time -> gostring) (cfg : config.Config) (d : gorm.DB)
        (nombre apellido email reparto : gostring) :
  Reachable caseLower emailFormat formatTime cfg d ->
  gorm.fault d = None ->
  nombre <> [] -> apellido <> [] -> email <> [] -> reparto <> [] ->
  emailFormat email = true ->
  ~ In (strings.ToLower caseLower (strings.TrimSpace email))
       (map Email (gorm.users d)) ->
  snd (handlers.ShouldBindJSON emailFormat
         (createBody nombre apellido email reparto) handlers.zeroRequest) = None
  /\ exists row d',
      serve caseLower emailFormat formatTime cfg
            (POST_usuarios (createBody nombre apellido email reparto)) d
      = Some ({| Status := 201;
                 Payload := H "message" (go "usuario creado exitosamente") |}, d')
      /\ gorm.users d' = gorm.users d ++ [row]
      /\ (Spaces nombre -> Nombre row = [])
      /\ (Spaces reparto -> Reparto row = []).
Proof.
  intros HR Hf Hn Ha He Hr Hef Hfresh.
  pose proof (Reachable_Inv _ _ _ _ _ HR) as HI.
  pose proof (ShouldBindJSON_createBody emailFormat nombre apellido email
                reparto Hn Ha He Hr Hef) as Hb.
  split; [now rewrite Hb|].
  unfold serve.
  change (http.ServeHTTP (server caseLower emailFormat formatTime cfg)
                         (POST_usuarios (createBody nombre apellido email reparto)))
    with (Some (handlers.CreateUser emailFormat (userHandler caseLower)
                  (POST_usuarios (createBody nombre apellido email reparto)))).
  cbv beta iota. rewrite CreateUser_cases. cbn zeta. cbn [Body POST_usuarios].
  rewrite Hb.
  cbn [fst snd handlers.svc userHandler handlers.NewUserHandler
       handlers.Nombre handlers.Apellido handlers.Email handlers.Reparto
       service.CreateUser userSvc service.NewUserService].
  rewrite CreateUser_normalized.
  cbn [repository.CreateUser userRepo repository.NewUserRepository].
  unfold repository.userRepository_CreateUser.
  rewrite Create_new by (reflexivity || apply HI).
  rewrite Hf.
  assert (Ex : existsb (fun r => streq (Email r)
                 (Email (normalized caseLower nombre apellido email reparto)))
                 (gorm.users d) = false).
  { apply not_true_is_false. rewrite email_taken. exact Hfresh. }
  rewrite Ex. cbn zeta. cbn [fst snd].
  eexists. eexists. split; [reflexivity|].
  cbn [gorm.with_rows gorm.users]. split; [reflexivity|].
  cbn [gorm.with_ID gorm.stamp normalized Nombre Reparto].
  split; apply TrimSpace_Spaces.
Qed.

(** * Normalizing again *)

Lemma mapAll_encodeAll (m : rune -> rune) (rs : list rune) :
  Forall ValidRune rs -> Forall (fun r => m r = r) rs ->
  mapAll m (encodeAll rs) = encodeAll rs.
Proof.
  intros Hv Hm. induction rs as [|r rs IH]; [reflexivity|].
  inversion Hv; inversion Hm; subst.
  change (encodeAll (r :: rs)) with (EncodeRune r ++ encodeAll rs).
  rewrite mapAll_Encode by assumption.
  match goal with H : m r = r |- _ => rewrite H end.
  rewrite written_valid by assumption. now rewrite IH.
Qed.

Lemma LowerCased_ToLower (caseLower : rune -> rune) (s : gostring) :
  LowerCased caseLower s -> strings.ToLower caseLower s = s.
Proof.
  intros (rs & -> & Hv & Hl). rewrite ToLower_mapAll.
  now apply mapAll_encodeAll.
Qed.

(** C10: the normalization of the service is idempotent.  From arguments
    that have no white space at either end, with an address in lower case,
    the service builds the record with these arguments as they are; and
    the record it builds from the fields of a record it has built is that
    record again.  Only the second part needs the case table to be what
    [LowerTable] says. *)
Theorem C10_normalization_idempotent
        (caseLower : rune -> rune) {St : Type}
        (repo : repository.UserRepository St)
        (nombre apellido email reparto : gostring) (st : St) (log : list User) :
  let svc := service.NewUserService caseLower (recording repo) in
  exists u,
    snd (snd (service.CreateUser svc nombre apellido email reparto (st, log)))
    = log ++ [u]
    /\ (Trimmed nombre -> Trimmed apellido -> Trimmed reparto ->
        Trimmed email -> LowerCased caseLower email ->
        Nombre u = nombre /\ Apellido u = apellido /\ Email u = email
        /\ Reparto u = reparto)
    /\ (LowerTable caseLower ->
        snd (snd (service.CreateUser svc (Nombre u) (Apellido u) (Email u)
                                     (Reparto u) (st, log)))
        = log ++ [u]).
Proof.
  intros svc.
  exists (normalized caseLower nombre apellido email reparto).
  assert (Hlog : forall n a e r,
             snd (snd (service.CreateUser svc n a e r (st, log)))
             = log ++ [normalized caseLower n a e r]).
  { intros n a e r. subst svc.
    cbn [service.CreateUser service.NewUserService].
    rewrite CreateUser_normalized.
    cbn [recording repository.CreateUser fst snd].
    now destruct (repository.CreateUser repo _ st). }
  split; [apply Hlog|]. split.
  - intros Hn Ha Hr He Hl. cbn [normalized Nombre Apellido Email Reparto].
    rewrite !Trimmed_TrimSpace by assumption.
    now rewrite LowerCased_ToLower.
  - intros table. rewrite Hlog. do 2 f_equal.
    unfold normalized. cbn [Nombre Apellido Email Reparto].
    rewrite !TrimSpace_idempotent.
    rewrite TrimSpace_ToLower_TrimSpace by assumption.
    now rewrite ToLower_idempotent.
Qed.


(** * The properties at work

    The case table restricted to Latin-1 has what the properties ask of
    a table; with it the theorems are applied to requests of the
    documentation. *)

Lemma latin1_table : LowerTable latin1Lower.
Proof.
  split; intros r [V1 V2] Hr;
    unfold unicode.MaxASCII, MaxRune, surrogateMin, surrogateMax in *.
  - unfold latin1Lower, ValidRune, MaxRune, surrogateMin, surrogateMax.
    destruct ((0xC0 <=? r) && (r <=? 0xDE) && negb (r =? 0xD7)) eqn:E;
      [|lia].
    apply andb_true_iff in E as [E _]. apply andb_true_iff in E as [E1 E2].
    apply Z.leb_le in E1, E2. lia.
  - unfold latin1Lower.
    destruct ((0xC0 <=? r) && (r <=? 0xDE) && negb (r =? 0xD7)) eqn:E.
    + apply andb_true_iff in E as [E _]. apply andb_true_iff in E as [E1 E2].
      apply Z.leb_le in E1, E2.
      unfold unicode.ToLower, unicode.MaxASCII. zcmp; reflexivity.
    + unfold unicode.ToLower, unicode.MaxASCII.
      destruct (Z.leb_spec r 127); [lia|]. now rewrite E.
  - unfold latin1Lower.
    destruct ((0xC0 <=? r) && (r <=? 0xDE) && negb (r =? 0xD7)) eqn:E;
      [|auto].
    apply andb_true_iff in E as [E _]. apply andb_true_iff in E as [E1 E2].
    apply Z.leb_le in E1, E2.
    assert (Hn : unicode.IsSpace (r + 32) = false)
      by (unfold unicode.IsSpace, unicode.MaxLatin1; zcmp; reflexivity).
    rewrite Hn. discriminate.
Qed.

Lemma Spaces_blanks : Spaces (go "   ").
Proof.
  exists [0x20; 0x20; 0x20]. split; [repeat constructor | reflexivity].
Qed.

Lemma Spaces_blank : Spaces (go " ").
Proof. exists [0x20]. split; [repeat constructor | reflexivity]. Qed.

Lemma C2_witness :
  exists err,
    service.CreateUser (userSvc latin1Lower) (go "Juana") (go "Paz")
                       (go " Juan@Example.com ") (go "IT") withJuan
    = (Some err, withJuan)
    /\ err = UniqueConstraintError (go "users.email").
Proof.
  assert (HR : Reachable latin1Lower hasAt noFormat devConfig withJuan)
    by (apply Reachable_after, Reachable_new).
  pose proof (C2_unique_id_and_email latin1Lower hasAt noFormat devConfig
                withJuan HR) as (_ & _ & _ & _ & Hdup).
  destruct (Hdup latin1_table
                 (hd (normalized latin1Lower [] [] [] []) (gorm.users withJuan))
                 (go " Juan@Example.com ")) as [Hsvc _].
  - left. reflexivity.
  - exists (go " "), (go "Juan@Example.com"), (go " ").
    split; [reflexivity|]. split; [apply Spaces_blank|].
    split; [apply Spaces_blank|]. split; [split; reflexivity | reflexivity].
  - destruct (Hsvc (go "Juana") (go "Paz") (go "IT")) as (err & Hc & He).
    exists err. split; [exact Hc | apply He; reflexivity].
Defined.

Lemma C3_witness :
  exists m,
    http.ServeHTTP (server latin1Lower hasAt noFormat devConfig)
                   (GET_usuarios (Unreadable (go "EOF"))) = Some m
    /\ m (db.NewDatabase 1000)
       = ({| Status := 200; Payload := JArray [] |}, db.NewDatabase 1000).
Proof.
  destruct (C3_list_users latin1Lower hasAt noFormat devConfig
              (Unreadable (go "EOF")) (db.NewDatabase 1000))
    as (m & Hm & _ & _ & Hempty).
  exists m. split; [exact Hm | apply Hempty; reflexivity].
Defined.

Lemma C4_witness :
  exists m d',
    http.ServeHTTP (server latin1Lower hasAt noFormat devConfig) juan = Some m
    /\ m (db.NewDatabase 1000)
       = ({| Status := 201;
             Payload := H "message" (go "usuario creado exitosamente") |}, d')
    /\ m withJuan
       = ({| Status := 500;
             Payload := H "error" (go "no se pudo crear el usuario") |},
          withJuan).
Proof.
  destruct (C4_create_user_responses hasAt noFormat devConfig
              (userSvc latin1Lower) (Body juan) (db.NewDatabase 1000))
    as (m & Hm & Hcases).
  destruct (C4_create_user_responses hasAt noFormat devConfig
              (userSvc latin1Lower) (Body juan) withJuan)
    as (m' & Hm' & Hcases').
  assert (Heq : m' = m) by congruence. subst m'.
  exists m, withJuan. split; [exact Hm|]. split.
  - eapply (Hcases _ None); reflexivity.
  - eapply (Hcases' _ None); [reflexivity | reflexivity | reflexivity
                              | discriminate].
Defined.

Lemma C5_witness :
  let svc := counting (service.NewUserService latin1Lower
                         (recording repository.NewUserRepository)) in
  exists m,
    http.ServeHTTP
      (http.NewServer hasAt noFormat devConfig (handlers.NewUserHandler svc))
      (POST_usuarios (Document (JObject [ (go "nombre", JString (go "Juan")) ])))
    = Some m
    /\ Status (fst (m (withJuan, [], 0%nat))) = 400
    /\ snd (m (withJuan, [], 0%nat)) = (withJuan, [], 0%nat).
Proof.
  intros svc.
  destruct (C5_rejected_request_changes_nothing latin1Lower hasAt noFormat
              devConfig repository.NewUserRepository
              (Document (JObject [ (go "nombre", JString (go "Juan")) ]))
              withJuan [] 0%nat)
    as (m & Hm & Hsame & Hmiss & _).
  assert (H400 : Status (fst (m (withJuan, [], 0%nat))) = 400).
  { apply Hmiss. exists handlers.fEmail. eexists. split; [reflexivity|].
    intros key v [E | []]. inversion E; subst. discriminate. }
  exists m. split; [exact Hm|]. split; [exact H400 | exact (Hsame H400)].
Defined.

Lemma C6_witness :
  fst (service.CreateUser (userSvc latin1Lower) (go "Juana") (go "Paz")
                          (go " Juan@Example.com ") (go "IT") withJuan)
  = Some (UniqueConstraintError (go "users.email")).
Proof.
  destruct (C6_CreateUser_propagates_error latin1Lower
              repository.NewUserRepository (go "Juana") (go "Paz")
              (go " Juan@Example.com ") (go "IT") withJuan) as [Heq _].
  exact Heq.
Defined.

Lemma C9_witness :
  exists row d',
    serve latin1Lower hasAt noFormat devConfig
          (POST_usuarios (createBody (go "   ") (go "Pérez")
                                     (go "ana@example.com") (go " ")))
          withJuan
    = Some ({| Status := 201;
               Payload := H "message" (go "usuario creado exitosamente") |}, d')
    /\ gorm.users d' = gorm.users withJuan ++ [row]
    /\ Nombre row = [] /\ Reparto row = [].
Proof.
  destruct (C9_blank_field_is_persisted_empty latin1Lower hasAt noFormat
              devConfig withJuan (go "   ") (go "Pérez")
              (go "ana@example.com") (go " "))
    as (_ & row & d' & Hs & Hrows & Hn & Hr);
    try reflexivity; try discriminate.
  - apply Reachable_after, Reachable_new.
  - vm_compute. intros [E | []]. discriminate.
  - exists row, d'. split; [exact Hs|]. split; [exact Hrows|].
    split; [apply Hn, Spaces_blanks | apply Hr, Spaces_blank].
Defined.

Lemma C10_witness :
  exists u,
    snd (snd (service.CreateUser
                (service.NewUserService latin1Lower
                   (recording repository.NewUserRepository))
                (go "Juan") (go "Pérez") (go "juan@example.com") (go "IT")
                (db.NewDatabase 1000, [])))
    = [u]
    /\ Nombre u = go "Juan" /\ Apellido u = go "Pérez"
    /\ Email u = go "juan@example.com" /\ Reparto u = go "IT"
    /\ snd (snd (service.CreateUser
                   (service.NewUserService latin1Lower
                      (recording repository.NewUserRepository))
                   (Nombre u) (Apellido u) (Email u) (Reparto u)
                   (db.NewDatabase 1000, [])))
       = [u].
Proof.
  destruct (C10_normalization_idempotent latin1Lower
              repository.NewUserRepository (go "Juan") (go "Pérez")
              (go "juan@example.com") (go "IT") (db.NewDatabase 1000) [])
    as (u & Hlog & Hsame & Hagain).
  exists u. split; [exact Hlog|].
  assert (Hl : LowerCased latin1Lower (go "juan@example.com")).
  { exists [0x6A; 0x75; 0x61; 0x6E; 0x40; 0x65; 0x78; 0x61; 0x6D; 0x70; 0x6C;
            0x65; 0x2E; 0x63; 0x6F; 0x6D].
    split; [reflexivity|]. split.
    - repeat constructor; unfold MaxRune, surrogateMin, surrogateMax; lia.
    - repeat constructor. }
  destruct Hsame as (H1 & H2 & H3 & H4); try (split; reflexivity);
    [exact Hl|].
  repeat (split; [assumption|]). exact (Hagain latin1_table).
Defined.
(** * Further properties *)

(** ** The service on the store *)

(** What the service does on the store, given the bound on the ids. *)
Lemma CreateUser_store (caseLower : rune -> rune) (d : gorm.DB)
      (n a e r : gostring) :
  Forall (fun u => 0 < ID u <= gorm.seq d) (gorm.users d) ->
  service.CreateUser (userSvc caseLower) n a e r d
  = match gorm.fault d with
    | Some f => (Some f, d)
    | None =>
      if existsb (fun u => streq (Email u)
                             (strings.ToLower caseLower (strings.TrimSpace e)))
                 (gorm.users d)
      then (Some (UniqueConstraintError (go "users.email")), d)
      else (None,
            gorm.with_rows d (gorm.users d ++ [inserted caseLower n a e r d])
                           (gorm.seq d + 1))
    end.
Proof.
  intros Hs.
  cbn [service.CreateUser userSvc service.NewUserService].
  rewrite CreateUser_normalized.
  cbn [repository.CreateUser userRepo repository.NewUserRepository].
  unfold repository.userRepository_CreateUser.
  rewrite Create_new by (reflexivity || assumption).
  destruct (gorm.fault d); [reflexivity|].
  cbn [normalized Email].
  destruct (existsb _ (gorm.users d)); reflexivity.
Qed.

(** X1: on a store the program can reach, the service's [CreateUser]
    returns the error of the connection when it is not in order, the
    uniqueness error when the trimmed, lower-cased address is that of a
    stored user, both without touching the store; otherwise it returns no
    error and the table has one more row, the last, with the next id, the
    normalized fields and the time of the insert in both timestamps. *)
Theorem X1_service_create_on_store
        (caseLower : rune -> rune) (emailFormat : gostring -> bool)
        (formatTime : Time -> gostring) (cfg : config.Config) (d : gorm.DB)
        (nombre apellido email reparto : gostring) :
  Reachable caseLower emailFormat formatTime cfg d ->
  let address := strings.ToLower caseLower (strings.TrimSpace email) in
  let called :=
    service.CreateUser (userSvc caseLower) nombre apellido email reparto d in
  (forall f, gorm.fault d = Some f -> called = (Some f, d))
  /\ (gorm.fault d = None -> In address (map Email (gorm.users d)) ->
      called = (Some (UniqueConstraintError (go "users.email")), d))
  /\ (gorm.fault d = None -> ~ In address (map Email (gorm.users d)) ->
      called
      = (None,
         {| gorm.users :=
              gorm.users d
              ++ [inserted caseLower nombre apellido email reparto d];
            gorm.seq := gorm.seq d + 1;
            gorm.now := gorm.now d;
            gorm.fault := gorm.fault d |})).
Proof.
  intros HR address called.
  pose proof (Reachable_Inv _ _ _ _ _ HR) as (_ & _ & Hs & _).
  subst called. rewrite CreateUser_store by assumption.
  split; [|split].
  - now intros f ->.
  - intros -> Hin. apply email_taken in Hin. subst address. now rewrite Hin.
  - intros Hf Hin. rewrite <- email_taken in Hin. subst address.
    unfold gorm.with_rows. destruct (gorm.fault d); [discriminate|].
    destruct (existsb _ (gorm.users d)); [congruence | reflexivity].
Qed.

(** ** The requests on the store *)

Section StoreMore.
Variable caseLower : rune -> rune.
Variable emailFormat : gostring -> bool.
Variable formatTime : Time -> gostring.
Variable cfg : config.Config.

Local Abbreviation srv := (serve caseLower emailFormat formatTime cfg).
Local Abbreviation Reach := (Reachable caseLower emailFormat formatTime cfg).

Lemma serve_GET_usuarios (body : RequestBody) (d : gorm.DB) :
  srv (GET_usuarios body) d
  = Some (match gorm.fault d with
          | Some _ =>
            {| Status := 500;
               Payload := H "error" (go "no se pudo obtener usuarios") |}
          | None =>
            {| Status := 200;
               Payload := JArray (map (handlers.User_JSON formatTime)
                                      (gorm.users d)) |}
          end, d).
Proof.
  unfold serve.
  change (http.ServeHTTP (server caseLower emailFormat formatTime cfg)
                         (GET_usuarios body))
    with (Some (handlers.ListUsers formatTime (userHandler caseLower)
                                   (GET_usuarios body))).
  cbv beta iota. rewrite ListUsers_cases.
  cbn [handlers.svc userHandler handlers.NewUserHandler userSvc
       service.GetAllUsers service.NewUserService service.userService_GetAllUsers
       repository.GetAllUsers userRepo repository.NewUserRepository].
  unfold repository.userRepository_GetAllUsers, bind, ret, gorm.Find.
  destruct (gorm.fault d); reflexivity.
Qed.

(** The routes of the server, by cases on the request. *)
Lemma serve_cases (c : Request) (d : gorm.DB) :
  srv c d
  = if streq (go "GET") (Method c) && streq (go "/health") (Path c) then
      Some ({| Status := 200; Payload := H "status" (go "ok") |}, d)
    else if streq (go "POST") (Method c)
            && streq (go "/api/v1/usuarios") (Path c) then
      Some (handlers.CreateUser emailFormat (userHandler caseLower) c d)
    else if streq (go "GET") (Method c)
            && streq (go "/api/v1/usuarios") (Path c) then
      Some (handlers.ListUsers formatTime (userHandler caseLower) c d)
    else None.
Proof.
  unfold serve, http.ServeHTTP, http.route.
  cbn [http.engine server http.NewServer handlers.RegisterRoutes app find fst snd].
  change (go "/api/v1" ++ go "/usuarios") with (go "/api/v1/usuarios").
  destruct (streq (go "GET") (Method c) && streq (go "/health") (Path c));
    [reflexivity|].
  destruct (streq (go "POST") (Method c)
            && streq (go "/api/v1/usuarios") (Path c)); [reflexivity|].
  destruct (streq (go "GET") (Method c)
            && streq (go "/api/v1/usuarios") (Path c)); reflexivity.
Qed.

(** What the create handler does on the store. *)
Lemma CreateUser_on_store (c : Request) (d : gorm.DB) :
  Forall (fun u => 0 < ID u <= gorm.seq d) (gorm.users d) ->
  let bound := handlers.ShouldBindJSON emailFormat (Body c) handlers.zeroRequest in
  let req := fst bound in
  handlers.CreateUser emailFormat (userHandler caseLower) c d
  = match snd bound with
    | Some e => ({| Status := 400; Payload := H "error" (Error e) |}, d)
    | None =>
      if match gorm.fault d with
         | Some _ => true
         | None =>
           existsb (fun u => streq (Email u)
                               (strings.ToLower caseLower
                                  (strings.TrimSpace (handlers.Email req))))
                   (gorm.users d)
         end
      then ({| Status := 500;
               Payload := H "error" (go "no se pudo crear el usuario") |}, d)
      else ({| Status := 201;
               Payload := H "message" (go "usuario creado exitosamente") |},
            gorm.with_rows d
              (gorm.users d
               ++ [inserted caseLower (handlers.Nombre req)
                            (handlers.Apellido req) (handlers.Email req)
                            (handlers.Reparto req) d])
              (gorm.seq d + 1))
    end.
Proof.
  intros Hs bound req. rewrite CreateUser_cases. cbn zeta. fold bound.
  destruct (snd bound); [reflexivity|]. fold req.
  cbn [handlers.svc userHandler handlers.NewUserHandler].
  rewrite CreateUser_store by assumption.
  destruct (gorm.fault d); [reflexivity|].
  destruct (existsb _ (gorm.users d)); reflexivity.
Qed.

(** An insert returns no error exactly when it adds a row, the last. *)
Lemma Create_effect (u : User) (d : gorm.DB) :
  match snd (fst (gorm.Create u d)) with
  | Some _ => snd (gorm.Create u d) = d
  | None =>
    gorm.fault d = None
    /\ exists row,
         gorm.users (snd (gorm.Create u d)) = gorm.users d ++ [row]
         /\ Email row = Email u
         /\ gorm.now (snd (gorm.Create u d)) = gorm.now d
         /\ gorm.fault (snd (gorm.Create u d)) = gorm.fault d
  end.
Proof.
  unfold gorm.Create.
  destruct (gorm.fault d) eqn:F; [reflexivity|].
  destruct (existsb _ (gorm.users d)); [reflexivity|].
  destruct (existsb _ (gorm.users d)); [reflexivity|].
  cbn. split; [reflexivity|]. eexists. repeat split. exact F.
Qed.

(** A request that is served answers 201 exactly when it adds a row. *)
Lemma serve_rows (c : Request) (d : gorm.DB) (resp : Response) (d' : gorm.DB) :
  srv c d = Some (resp, d') ->
  (Status resp <> 201 /\ d' = d)
  \/ (Status resp = 201
      /\ Method c = go "POST" /\ Path c = go "/api/v1/usuarios"
      /\ gorm.fault d = None
      /\ exists row,
           gorm.users d' = gorm.users d ++ [row]
           /\ Email row
              = strings.ToLower caseLower
                  (strings.TrimSpace
                     (handlers.Email
                        (fst (handlers.ShouldBindJSON emailFormat (Body c)
                                                      handlers.zeroRequest))))
           /\ gorm.now d' = gorm.now d /\ gorm.fault d' = gorm.fault d).
Proof.
  rewrite serve_cases.
  destruct (streq (go "GET") (Method c) && streq (go "/health") (Path c)).
  { intros E. inversion E. left. split; [cbn; lia | reflexivity]. }
  destruct (streq (go "POST") (Method c)
            && streq (go "/api/v1/usuarios") (Path c)) eqn:R.
  { apply andb_true_iff in R as [Rm Rp]. apply streq_true in Rm, Rp.
    rewrite CreateUser_cases. cbn zeta.
    destruct (snd (handlers.ShouldBindJSON _ _ _)).
    { intros E. inversion E. left.
      split; [cbn; unfold StatusBadRequest; lia | reflexivity]. }
    cbn [handlers.svc userHandler handlers.NewUserHandler userSvc
         service.CreateUser service.NewUserService].
    rewrite CreateUser_normalized. cbn [fst snd].
    cbn [repository.CreateUser userRepo repository.NewUserRepository].
    unfold repository.userRepository_CreateUser.
    match goal with
    | |- context [gorm.Create ?u d] => pose proof (Create_effect u d) as HC
    end.
    destruct (snd (fst (gorm.Create _ d))).
    - intros E. inversion E. left.
      split; [cbn; unfold StatusInternalServerError; lia | congruence].
    - intros E. injection E as <- <-. right.
      destruct HC as (Hf & row & Hr & He & Hn & Hf').
      split; [reflexivity|]. split; [now symmetry|]. split; [now symmetry|].
      split; [assumption|]. exists row. repeat split; assumption. }
  destruct (streq (go "GET") (Method c)
            && streq (go "/api/v1/usuarios") (Path c)).
  { rewrite ListUsers_cases.
    cbn [handlers.svc userHandler handlers.NewUserHandler userSvc
         service.GetAllUsers service.NewUserService
         service.userService_GetAllUsers
         repository.GetAllUsers userRepo repository.NewUserRepository].
    unfold repository.userRepository_GetAllUsers, bind, ret, gorm.Find.
    destruct (gorm.fault d); cbn [fst snd]; intros E; injection E as <- <-;
      left; (split; [|reflexivity]); cbn [Status];
      unfold StatusInternalServerError, StatusOK; lia. }
  discriminate.
Qed.

Lemma after_rows (d : gorm.DB) (ev : event) :
  exists added,
    gorm.users (after caseLower emailFormat formatTime cfg d ev)
    = gorm.users d ++ added
    /\ (List.length added <= 1)%nat.
Proof.
  destruct ev as [c | t | f]; cbn [after gorm.users];
    try (exists []; split; [now rewrite app_nil_r | cbn; lia]).
  destruct (srv c d) as [[resp d']|] eqn:E;
    [|exists []; split; [now rewrite app_nil_r | cbn; lia]].
  destruct (serve_rows _ _ _ _ E) as [[_ ->] | (_ & _ & _ & _ & row & -> & _)].
  - exists []. split; [now rewrite app_nil_r | cbn; lia].
  - exists [row]. split; [reflexivity | cbn; lia].
Qed.

Lemma run_rows (evs : list event) (d : gorm.DB) :
  exists added,
    gorm.users (run caseLower emailFormat formatTime cfg d evs)
    = gorm.users d ++ added
    /\ (List.length added <= List.length evs)%nat.
Proof.
  revert d. induction evs as [|ev evs IH]; intros d.
  - exists []. split; [now rewrite app_nil_r | cbn; lia].
  - cbn [run fold_left].
    destruct (after_rows d ev) as (a1 & E1 & L1).
    destruct (IH (after caseLower emailFormat formatTime cfg d ev))
      as (a2 & E2 & L2).
    exists (a1 ++ a2). unfold run in E2. rewrite E2, E1, app_assoc.
    split; [reflexivity|]. rewrite length_app. cbn [List.length]. lia.
Qed.

Lemma run_Reachable (evs : list event) (d : gorm.DB) :
  Reach d -> Reach (run caseLower emailFormat formatTime cfg d evs).
Proof.
  revert d. induction evs as [|ev evs IH]; intros d HR; [exact HR|].
  cbn [run fold_left]. apply IH. now constructor.
Qed.

(** The ids of a reachable store grow along the table. *)
Lemma Reachable_ids (d : gorm.DB) :
  Reach d ->
  forall before u rest,
    gorm.users d = before ++ u :: rest ->
    Forall (fun v => ID v < ID u) before.
Proof.
  induction 1 as [clock | d ev HR IH].
  { intros before u rest E. destruct before; discriminate E. }
  destruct ev as [c | t | f]; cbn [after gorm.users]; try exact IH.
  destruct (srv c d) as [[resp d']|] eqn:E; [|exact IH].
  destruct (serve_effect _ _ _ _ _ _ _ _ E) as [-> | (n & a & e & r & ->)];
    [exact IH|].
  pose proof (Reachable_Inv _ _ _ _ _ HR) as (_ & _ & Hs & _).
  rewrite Create_new by (reflexivity || assumption).
  destruct (gorm.fault d); [exact IH|].
  destruct (existsb _ (gorm.users d)); [exact IH|].
  cbn [snd gorm.with_rows gorm.users].
  intros before u rest Hsplit.
  induction rest as [|x rest' _] using rev_ind.
  - apply app_inj_tail in Hsplit as [<- <-]. cbn [gorm.with_ID ID].
    eapply Forall_impl; [|exact Hs]. cbn. intros; lia.
  - change (before ++ u :: rest' ++ [x])
      with (before ++ (u :: rest') ++ [x]) in Hsplit.
    rewrite app_assoc in Hsplit. apply app_inj_tail in Hsplit as [Hsplit _].
    now apply (IH before u rest').
Qed.

(** The stored names have no white space at either end. *)
Lemma Reachable_Trimmed (d : gorm.DB) :
  Reach d ->
  Forall (fun u => Trimmed (Nombre u) /\ Trimmed (Apellido u)
                   /\ Trimmed (Reparto u)
                   /\ exists e, Email u = strings.ToLower caseLower
                                            (strings.TrimSpace e))
         (gorm.users d).
Proof.
  induction 1 as [clock | d ev HR IH]; [constructor|].
  destruct ev as [c | t | f]; cbn [after gorm.users]; try assumption.
  destruct (srv c d) as [[resp d']|] eqn:E; [|assumption].
  destruct (serve_effect _ _ _ _ _ _ _ _ E) as [-> | (n & a & e & r & ->)];
    [assumption|].
  pose proof (Reachable_Inv _ _ _ _ _ HR) as (_ & _ & Hs & _).
  rewrite Create_new by (reflexivity || assumption).
  destruct (gorm.fault d); [assumption|].
  destruct (existsb _ (gorm.users d)); [assumption|].
  cbn [snd gorm.with_rows gorm.users].
  apply Forall_app. split; [assumption|]. constructor; [|constructor].
  cbn. repeat split; try apply TrimSpace_Trimmed. now exists e.
Qed.

(** Both timestamps of a stored user are the time of its insert. *)
Lemma Reachable_stamps (d : gorm.DB) :
  Reach d -> Forall (fun u => UpdatedAt u = CreatedAt u) (gorm.users d).
Proof.
  induction 1 as [clock | d ev HR IH]; [constructor|].
  destruct ev as [c | t | f]; cbn [after gorm.users]; try assumption.
  destruct (srv c d) as [[resp d']|] eqn:E; [|assumption].
  destruct (serve_effect _ _ _ _ _ _ _ _ E) as [-> | (n & a & e & r & ->)];
    [assumption|].
  pose proof (Reachable_Inv _ _ _ _ _ HR) as (_ & _ & Hs & _).
  rewrite Create_new by (reflexivity || assumption).
  destruct (gorm.fault d); [assumption|].
  destruct (existsb _ (gorm.users d)); [assumption|].
  cbn [snd gorm.with_rows gorm.users].
  apply Forall_app. split; [assumption|]. now repeat constructor.
Qed.

End StoreMore.

(** X2: a create request that is answered 201 is followed by its user in
    the list: [GET /api/v1/usuarios] then answers 200 with the users that
    were there, in their order, and after them the new one, with the
    trimmed fields of the request, the trimmed and lower-cased address, an
    id that no user had and the time of the insert in both timestamps. *)
Theorem X2_created_user_is_listed
        (caseLower : rune -> rune) (emailFormat : gostring -> bool)
        (formatTime : Time -> gostring) (cfg : config.Config)
        (d d' : gorm.DB) (body : RequestBody) (resp : Response) :
  Reachable caseLower emailFormat formatTime cfg d ->
  serve caseLower emailFormat formatTime cfg (POST_usuarios body) d
  = Some (resp, d') ->
  Status resp = 201 ->
  let req := fst (handlers.ShouldBindJSON emailFormat body handlers.zeroRequest) in
  let row := {| ID := gorm.seq d + 1;
                Nombre := strings.TrimSpace (handlers.Nombre req);
                Apellido := strings.TrimSpace (handlers.Apellido req);
                Email := strings.ToLower caseLower
                           (strings.TrimSpace (handlers.Email req));
                Reparto := strings.TrimSpace (handlers.Reparto req);
                CreatedAt := gorm.now d;
                UpdatedAt := gorm.now d |} in
  ~ In (ID row) (map ID (gorm.users d))
  /\ forall body',
       serve caseLower emailFormat formatTime cfg (GET_usuarios body') d'
       = Some ({| Status := 200;
                  Payload := JArray (map (handlers.User_JSON formatTime)
                                         (gorm.users d ++ [row])) |}, d').
Proof.
  intros HR E H201 req row.
  pose proof (Reachable_Inv _ _ _ _ _ HR) as (_ & _ & Hs & _).
  split.
  { cbn [ID row]. intros Hin. apply in_map_iff in Hin as (u & Hu & Hin).
    rewrite Forall_forall in Hs. specialize (Hs u Hin). lia. }
  intros body'. revert E. rewrite serve_cases.
  change (streq (go "GET") (Method (POST_usuarios body))) with false.
  change (streq (go "POST") (Method (POST_usuarios body))
          && streq (go "/api/v1/usuarios") (Path (POST_usuarios body)))
    with true.
  cbv iota. cbn [andb]. rewrite CreateUser_on_store by assumption.
  cbn zeta. cbn [Body POST_usuarios]. fold req.
  destruct (snd (handlers.ShouldBindJSON emailFormat body handlers.zeroRequest)).
  { intros E. injection E as <- <-. discriminate. }
  destruct (gorm.fault d) eqn:F.
  { intros E. injection E as <- <-. discriminate. }
  destruct (existsb _ (gorm.users d)).
  { intros E. injection E as <- <-. discriminate. }
  intros E. injection E as <- <-.
  rewrite serve_GET_usuarios. cbn [gorm.with_rows gorm.fault gorm.users].
  rewrite F. reflexivity.
Qed.

(** X3: [GET /api/v1/usuarios] leaves the store as it is, and its answer
    depends on the rows of the table and on the connection only: not on
    what the request carries, not on the clock. *)
Theorem X3_list_reads_only
        (caseLower : rune -> rune) (emailFormat : gostring -> bool)
        (formatTime : Time -> gostring) (cfg : config.Config)
        (body : RequestBody) (d : gorm.DB) :
  exists resp,
    serve caseLower emailFormat formatTime cfg (GET_usuarios body) d
    = Some (resp, d)
    /\ forall body' d2,
         gorm.users d2 = gorm.users d -> gorm.fault d2 = gorm.fault d ->
         serve caseLower emailFormat formatTime cfg (GET_usuarios body') d2
         = Some (resp, d2).
Proof.
  eexists. split; [apply serve_GET_usuarios|].
  intros body' d2 Hu Hf. rewrite serve_GET_usuarios. now rewrite Hu, Hf.
Qed.

(** X4: a request changes the store exactly when it is answered 201: then
    it is [POST /api/v1/usuarios], the connection is in order, and the
    table has one more row, the last, whose address is the trimmed,
    lower-cased address of the request; with any other answer the store
    is as it was. *)
Theorem X4_row_inserted_iff_created
        (caseLower : rune -> rune) (emailFormat : gostring -> bool)
        (formatTime : Time -> gostring) (cfg : config.Config)
        (c : Request) (d d' : gorm.DB) (resp : Response) :
  serve caseLower emailFormat formatTime cfg c d = Some (resp, d') ->
  (Status resp <> 201 /\ d' = d)
  \/ (Status resp = 201
      /\ Method c = go "POST" /\ Path c = go "/api/v1/usuarios"
      /\ gorm.fault d = None
      /\ exists row,
           gorm.users d' = gorm.users d ++ [row]
           /\ Email row
              = strings.ToLower caseLower
                  (strings.TrimSpace
                     (handlers.Email
                        (fst (handlers.ShouldBindJSON emailFormat (Body c)
                                                      handlers.zeroRequest))))
           /\ gorm.now d' = gorm.now d /\ gorm.fault d' = gorm.fault d).
Proof. apply serve_rows. Qed.

(** X5: no sequence of requests, clock ticks and connection events
    removes or changes a stored user: the rows of the table stay, in
    their order, and each event adds at most one after them. *)
Theorem X5_rows_are_kept
        (caseLower : rune -> rune) (emailFormat : gostring -> bool)
        (formatTime : Time -> gostring) (cfg : config.Config)
        (d : gorm.DB) (evs : list event) :
  exists added,
    gorm.users (run caseLower emailFormat formatTime cfg d evs)
    = gorm.users d ++ added
    /\ (List.length added <= List.length evs)%nat.
Proof. apply run_rows. Qed.

(** X6: the ids grow along the table of a reachable store: every user
    has an id greater than zero and greater than the ids of the users
    created before, and none above the counter of the table. *)
Theorem X6_ids_increase
        (caseLower : rune -> rune) (emailFormat : gostring -> bool)
        (formatTime : Time -> gostring) (cfg : config.Config) (d : gorm.DB) :
  Reachable caseLower emailFormat formatTime cfg d ->
  Forall (fun u => 0 < ID u <= gorm.seq d) (gorm.users d)
  /\ forall before u rest,
       gorm.users d = before ++ u :: rest ->
       Forall (fun v => ID v < ID u) before.
Proof.
  intros HR. split.
  - apply (Reachable_Inv _ _ _ _ _ HR).
  - exact (Reachable_ids _ _ _ _ d HR).
Qed.

(** X7: the name, the surname and the department of every user of a
    reachable store have no white space at either end, so that trimming
    them again changes nothing; with the case table as [LowerTable] says,
    the same holds of the address, which lower-casing leaves as it is. *)
Theorem X7_stored_fields_are_normal
        (caseLower : rune -> rune) (emailFormat : gostring -> bool)
        (formatTime : Time -> gostring) (cfg : config.Config) (d : gorm.DB) :
  Reachable caseLower emailFormat formatTime cfg d ->
  Forall (fun u =>
            Trimmed (Nombre u) /\ Trimmed (Apellido u) /\ Trimmed (Reparto u)
            /\ strings.TrimSpace (Nombre u) = Nombre u
            /\ strings.TrimSpace (Apellido u) = Apellido u
            /\ strings.TrimSpace (Reparto u) = Reparto u)
         (gorm.users d)
  /\ (LowerTable caseLower ->
      Forall (fun u =>
                Trimmed (Email u)
                /\ strings.TrimSpace (Email u) = Email u
                /\ strings.ToLower caseLower (Email u) = Email u)
             (gorm.users d)).
Proof.
  intros HR. pose proof (Reachable_Trimmed _ _ _ _ _ HR) as HT. split.
  - eapply Forall_impl; [|exact HT]. cbn. intros u (Hn & Ha & Hr & _).
    refine (conj Hn (conj Ha (conj Hr (conj _ (conj _ _)))));
      now apply Trimmed_TrimSpace.
  - intros table. eapply Forall_impl; [|exact HT]. cbn.
    intros u (_ & _ & _ & e & ->).
    assert (Ht : Trimmed (strings.ToLower caseLower (strings.TrimSpace e)))
      by (apply ToLower_Trimmed; [assumption | apply TrimSpace_Trimmed]).
    refine (conj Ht (conj _ _)).
    + now apply Trimmed_TrimSpace.
    + now apply ToLower_idempotent.
Qed.

(** X8: a create request that has been answered 201 is never answered
    201 again: whatever happens in between, the same request is answered
    500 and leaves the store as it is. *)
Theorem X8_repeated_create_is_refused
        (caseLower : rune -> rune) (emailFormat : gostring -> bool)
        (formatTime : Time -> gostring) (cfg : config.Config)
        (d d' : gorm.DB) (body : RequestBody) (resp : Response)
        (evs : list event) :
  Reachable caseLower emailFormat formatTime cfg d ->
  serve caseLower emailFormat formatTime cfg (POST_usuarios body) d
  = Some (resp, d') ->
  Status resp = 201 ->
  let later := run caseLower emailFormat formatTime cfg d' evs in
  serve caseLower emailFormat formatTime cfg (POST_usuarios body) later
  = Some ({| Status := 500;
             Payload := H "error" (go "no se pudo crear el usuario") |},
          later).
Proof.
  intros HR E H201 later.
  assert (HR' : Reachable caseLower emailFormat formatTime cfg d').
  { replace d' with (after caseLower emailFormat formatTime cfg d
                           (Serve (POST_usuarios body)))
      by (cbn [after]; now rewrite E).
    now constructor. }
  assert (HL : Reachable caseLower emailFormat formatTime cfg later)
    by now apply run_Reachable.
  pose proof (Reachable_Inv _ _ _ _ _ HL) as (_ & _ & Hs & _).
  destruct (serve_rows _ _ _ _ _ _ _ _ E)
    as [[Hno _] | (_ & _ & _ & _ & row & Hrow & Hmail & _)]; [congruence|].
  destruct (run_rows caseLower emailFormat formatTime cfg evs d')
    as (added & Hadd & _).
  fold later in Hadd. cbn [Body POST_usuarios] in Hmail.
  assert (Hin : existsb (fun u => streq (Email u) (Email row))
                        (gorm.users later) = true).
  { apply email_taken. rewrite Hadd, Hrow, !map_app. cbn [map].
    apply in_or_app. left. apply in_or_app. right. now left. }
  assert (Hb : snd (handlers.ShouldBindJSON emailFormat body
                                            handlers.zeroRequest) = None).
  { revert E H201. rewrite serve_cases.
    change (streq (go "GET") (Method (POST_usuarios body))) with false.
    change (streq (go "POST") (Method (POST_usuarios body))
            && streq (go "/api/v1/usuarios") (Path (POST_usuarios body)))
      with true.
    cbv iota. cbn [andb]. rewrite CreateUser_cases. cbn zeta.
    cbn [Body POST_usuarios].
    destruct (snd (handlers.ShouldBindJSON emailFormat body
                                           handlers.zeroRequest));
      [|reflexivity].
    intros E. injection E as <- <-. discriminate. }
  rewrite serve_cases.
  change (streq (go "GET") (Method (POST_usuarios body))) with false.
  change (streq (go "POST") (Method (POST_usuarios body))
          && streq (go "/api/v1/usuarios") (Path (POST_usuarios body)))
    with true.
  cbv iota. cbn [andb]. rewrite CreateUser_on_store by assumption.
  cbn zeta. cbn [Body POST_usuarios]. rewrite Hb, <- Hmail, Hin.
  now destruct (gorm.fault later).
Qed.

(** X9: in every reachable store the time of the last update of every
    user is the time of its creation, and the list shows that time under
    both [created_at] and [updated_at]: a stored user is never updated. *)
Theorem X9_never_updated
        (caseLower : rune -> rune) (emailFormat : gostring -> bool)
        (formatTime : Time -> gostring) (cfg : config.Config) (d : gorm.DB) :
  Reachable caseLower emailFormat formatTime cfg d ->
  Forall (fun u => UpdatedAt u = CreatedAt u) (gorm.users d)
  /\ forall body resp d',
       serve caseLower emailFormat formatTime cfg (GET_usuarios body) d
       = Some (resp, d') ->
       Status resp = 200 ->
       Payload resp
       = JArray (map (fun u =>
                        JObject [ (go "id", JNumber (ID u));
                                  (go "nombre", JString (Nombre u));
                                  (go "apellido", JString (Apellido u));
                                  (go "email", JString (Email u));
                                  (go "reparto", JString (Reparto u));
                                  (go "created_at",
                                   JString (formatTime (CreatedAt u)));
                                  (go "updated_at",
                                   JString (formatTime (CreatedAt u))) ])
                     (gorm.users d)).
Proof.
  intros HR. pose proof (Reachable_stamps _ _ _ _ _ HR) as Hst.
  split; [exact Hst|].
  intros body resp d' E H200. rewrite serve_GET_usuarios in E.
  destruct (gorm.fault d); injection E as <- <-; [discriminate H200|].
  cbn [Payload]. f_equal. apply map_ext_in. intros u Hu.
  rewrite Forall_forall in Hst. unfold handlers.User_JSON.
  now rewrite (Hst u Hu).
Qed.

(** ** Binding *)




(** A member that names no field changes nothing. *)
Lemma decodeObject_unknown (ms1 ms2 : list (gostring * JSON)) (key : gostring)
      (v : JSON) (req : handlers.createUserRequest) (saved : option error) :
  handlers.fieldOf key = None ->
  handlers.decodeObject (ms1 ++ (key, v) :: ms2) req saved
  = handlers.decodeObject (ms1 ++ ms2) req saved.
Proof.
  intros Hk. revert req saved.
  induction ms1 as [|[k x] ms1 IH]; intros req saved.
  - cbn [app handlers.decodeObject]. now rewrite Hk.
  - cbn [app handlers.decodeObject].
    destruct (handlers.fieldOf k); [|apply IH].
    destruct x; apply IH.
Qed.

(** X11: members of the body that name none of the four fields are
    ignored, whatever their values: the create handler does with the body
    what it does with the body without them. *)
Theorem X11_unknown_members_are_ignored
        (emailFormat : gostring -> bool) {St : Type}
        (h : @handlers.UserHandler St)
        (ms1 ms2 : list (gostring * JSON)) (key : gostring) (v : JSON)
        (st : St) :
  handlers.fieldOf key = None ->
  handlers.CreateUser emailFormat h
    (POST_usuarios (Document (JObject (ms1 ++ (key, v) :: ms2)))) st
  = handlers.CreateUser emailFormat h
      (POST_usuarios (Document (JObject (ms1 ++ ms2)))) st.
Proof.
  intros Hk. rewrite !CreateUser_cases. cbn zeta. cbn [Body POST_usuarios].
  unfold handlers.ShouldBindJSON, handlers.Unmarshal.
  now rewrite decodeObject_unknown.
Qed.

(** Members that do not assign the field leave it as it is. *)
Lemma decodeObject_unassigned (f : handlers.field)
      (members : list (gostring * JSON)) (req : handlers.createUserRequest)
      (saved : option error) :
  (forall m, In m members -> ~ assigns f m) ->
  handlers.get f (fst (handlers.decodeObject members req saved))
  = handlers.get f req.
Proof.
  revert req saved. induction members as [|[key v] rest IH];
    intros req saved Hm; [reflexivity|].
  cbn [handlers.decodeObject].
  assert (Hrest : forall m, In m rest -> ~ assigns f m)
    by (intros; apply Hm; now right).
  pose proof (Hm (key, v) (or_introl eq_refl)) as Hk.
  destruct (handlers.fieldOf key) as [g|] eqn:Eg; [|now apply IH].
  destruct v as [| | |s| |]; rewrite IH by assumption; try reflexivity.
  apply get_set_other. intros <-. apply Hk.
  split; [exact Eg | now exists s].
Qed.

Lemma get_set_same (f : handlers.field) (v : gostring)
      (req : handlers.createUserRequest) :
  handlers.get f (handlers.set f v req) = v.
Proof. now destruct f. Qed.

Lemma decodeObject_last (f : handlers.field)
      (before after : list (gostring * JSON)) (key s : gostring)
      (req : handlers.createUserRequest) (saved : option error) :
  handlers.fieldOf key = Some f ->
  (forall m, In m after -> ~ assigns f m) ->
  handlers.get f
    (fst (handlers.decodeObject (before ++ (key, JString s) :: after) req saved))
  = s.
Proof.
  intros Hk Ha. revert req saved.
  induction before as [|[k x] before IH]; intros req saved.
  - cbn [app handlers.decodeObject]. rewrite Hk.
    rewrite decodeObject_unassigned by assumption. apply get_set_same.
  - cbn [app handlers.decodeObject].
    destruct (handlers.fieldOf k); [|apply IH].
    destruct x; apply IH.
Qed.

(** X12: when several members of the body name the same field, the last
    one that is a string gives the field its value: members that name the
    field with [null] or with a value of another kind assign nothing. *)
Theorem X12_last_member_wins
        (emailFormat : gostring -> bool) (f : handlers.field)
        (before after : list (gostring * JSON)) (key s : gostring) :
  handlers.fieldOf key = Some f ->
  (forall m, In m after -> ~ assigns f m) ->
  handlers.get f
    (fst (handlers.ShouldBindJSON emailFormat
            (Document (JObject (before ++ (key, JString s) :: after)))
            handlers.zeroRequest))
  = s.
Proof.
  intros Hk Ha. unfold handlers.ShouldBindJSON, handlers.Unmarshal.
  pose proof (decodeObject_last f before after key s handlers.zeroRequest None
                                Hk Ha) as E.
  destruct (handlers.decodeObject _ handlers.zeroRequest None) as [req [e|]];
    exact E.
Qed.

(** The decoder reports an error exactly when a member that names a field
    has a value that is neither a string nor [null]. *)
Lemma decodeObject_error (members : list (gostring * JSON))
      (req : handlers.createUserRequest) (saved : option error) :
  snd (handlers.decodeObject members req saved) <> None
  <-> saved <> None
      \/ exists key v, In (key, v) members
                       /\ handlers.fieldOf key <> None
                       /\ v <> JNull /\ forall s, v <> JString s.
Proof.
  revert req saved. induction members as [|[key v] rest IH]; intros req saved.
  - cbn. split; [now left | intros [H | (k & x & [] & _)]; exact H].
  - cbn [handlers.decodeObject].
    assert (Hskip : forall req' : handlers.createUserRequest,
               (handlers.fieldOf key = None \/ v = JNull \/ exists s, v = JString s) ->
               snd (handlers.decodeObject rest req' saved) <> None
               <-> saved <> None
                   \/ exists k x, In (k, x) ((key, v) :: rest)
                                  /\ handlers.fieldOf k <> None
                                  /\ x <> JNull /\ forall s, x <> JString s).
    { intros req' Hok. rewrite IH. split.
      - intros [H | (k & x & Hin & Hb)]; [now left | right].
        exists k, x. split; [now right | exact Hb].
      - intros [H | (k & x & [E | Hin] & Hf & Hn & Hs)]; [now left | | right].
        + inversion E; subst. exfalso.
          destruct Hok as [Hok | [Hok | [s Hok]]];
            [contradiction | contradiction | now apply (Hs s)].
        + exists k, x. auto. }
    assert (Hbad : forall e : error,
               handlers.fieldOf key <> None -> v <> JNull ->
               (forall s, v <> JString s) ->
               snd (handlers.decodeObject rest req (handlers.saveError saved e))
               <> None
               <-> saved <> None
                   \/ exists k x, In (k, x) ((key, v) :: rest)
                                  /\ handlers.fieldOf k <> None
                                  /\ x <> JNull /\ forall s, x <> JString s).
    { intros e Hf Hn Hs. rewrite IH. split.
      - intros _. right. exists key, v. split; [now left | auto].
      - intros _. left. destruct saved; discriminate. }
    destruct (handlers.fieldOf key) as [g|] eqn:Eg; [|apply Hskip; now left].
    destruct v;
      first [ apply Hskip; right; (now left) || (right; eexists; reflexivity)
            | apply Hbad; [discriminate | discriminate | intros s; discriminate] ].
Qed.

Lemma Unmarshal_error (v : JSON) (req : handlers.createUserRequest) :
  snd (handlers.Unmarshal v req) <> None
  <-> match v with JNull | JObject _ => False | _ => True end
      \/ exists members key x,
           v = JObject members /\ In (key, x) members
           /\ handlers.fieldOf key <> None
           /\ x <> JNull /\ forall s, x <> JString s.
Proof.
  destruct v as [| b | n | s | elems | members]; cbn [handlers.Unmarshal snd];
    try (split; [intros _; now left | discriminate]).
  - split; [congruence | intros [[] | (ms & k & x & E & _)]; discriminate].
  - rewrite decodeObject_error. split.
    + intros [H | (k & x & H)]; [congruence | right]. now exists members, k, x.
    + intros [[] | (ms & k & x & E & H)]. inversion E; subst. right.
      now exists k, x.
Qed.

Lemma validate_None (emailFormat : gostring -> bool)
      (req : handlers.createUserRequest) :
  handlers.validate emailFormat req = None
  <-> (forall f, handlers.get f req <> [])
      /\ emailFormat (handlers.Email req) = true.
Proof.
  split.
  - intros Hv. split.
    + intros f Hf. apply (validate_rejects emailFormat req); [|exact Hv].
      left. now exists f.
    + destruct (emailFormat (handlers.Email req)) eqn:E; [reflexivity|].
      exfalso. apply (validate_rejects emailFormat req); [|exact Hv].
      now right.
  - intros [Hf He]. destruct req as [n a e r].
    apply validate_accepts; try assumption.
    + exact (Hf handlers.fNombre).
    + exact (Hf handlers.fApellido).
    + exact (Hf handlers.fEmail).
    + exact (Hf handlers.fReparto).
Qed.

Lemma ShouldBindJSON_error (emailFormat : gostring -> bool) (body : RequestBody) :
  snd (handlers.ShouldBindJSON emailFormat body handlers.zeroRequest) <> None
  <-> match body with
      | Unreadable _ => True
      | Document v =>
        snd (handlers.Unmarshal v handlers.zeroRequest) <> None
        \/ (exists f, handlers.get f (fst (handlers.Unmarshal v handlers.zeroRequest))
                      = [])
        \/ emailFormat
             (handlers.Email (fst (handlers.Unmarshal v handlers.zeroRequest)))
           = false
      end.
Proof.
  destruct body as [msg | v]; cbn [handlers.ShouldBindJSON].
  { split; [auto | discriminate]. }
  destruct (handlers.Unmarshal v handlers.zeroRequest) as [req [e|]];
    cbn [fst snd].
  { split; [intros _; left; discriminate | discriminate]. }
  split.
  - intros Hv. right.
    destruct (emailFormat (handlers.Email req)) eqn:E; [left | now right].
    destruct (list_eq_dec ascii_dec (handlers.Nombre req) []) as [H1|H1];
      [now exists handlers.fNombre|].
    destruct (list_eq_dec ascii_dec (handlers.Apellido req) []) as [H2|H2];
      [now exists handlers.fApellido|].
    destruct (list_eq_dec ascii_dec (handlers.Email req) []) as [H3|H3];
      [now exists handlers.fEmail|].
    destruct (list_eq_dec ascii_dec (handlers.Reparto req) []) as [H4|H4];
      [now exists handlers.fReparto|].
    exfalso. apply Hv. apply validate_None. split; [|exact E].
    now intros [].
  - intros [H | H]; [congruence|]. now apply validate_rejects.
Qed.

Lemma CreateUser_400 (emailFormat : gostring -> bool) {St : Type}
      (h : @handlers.UserHandler St) (c : Request) (st : St) :
  Status (fst (handlers.CreateUser emailFormat h c st)) = 400
  <-> snd (handlers.ShouldBindJSON emailFormat (Body c) handlers.zeroRequest)
      <> None.
Proof.
  rewrite CreateUser_cases. cbn zeta.
  destruct (snd (handlers.ShouldBindJSON emailFormat (Body c)
                                         handlers.zeroRequest)).
  - cbn. split; [discriminate | reflexivity].
  - cbn [fst]. destruct (fst (service.CreateUser _ _ _ _ _ _)); cbn [Status];
      unfold StatusInternalServerError, StatusCreated;
      (split; [lia | congruence]).
Qed.

(** X13: [POST /api/v1/usuarios] is answered 400 exactly when the body is
    not JSON, or is a JSON value other than an object or [null], or has a
    member that names a field with a value that is neither a string nor
    [null], or leaves one of the four fields empty, or has an address that
    fails the format check.  For a body with the four fields as strings:
    exactly when one of them is empty or the address fails the check. *)
Theorem X13_bad_request_iff
        (emailFormat : gostring -> bool) (formatTime : Time -> gostring)
        {St : Type} (cfg : config.Config) (svc : service.UserService St)
        (body : RequestBody) (st : St) :
  exists m,
    http.ServeHTTP
      (http.NewServer emailFormat formatTime cfg (handlers.NewUserHandler svc))
      (POST_usuarios body) = Some m
    /\ (Status (fst (m st)) = 400
        <-> match body with
            | Unreadable _ => True
            | Document v =>
              let req := fst (handlers.Unmarshal v handlers.zeroRequest) in
              match v with JNull | JObject _ => False | _ => True end
              \/ (exists members key x,
                     v = JObject members /\ In (key, x) members
                     /\ handlers.fieldOf key <> None
                     /\ x <> JNull /\ forall s, x <> JString s)
              \/ (exists f, handlers.get f req = [])
              \/ emailFormat (handlers.Email req) = false
            end)
    /\ forall n a e r,
         body = createBody n a e r ->
         (Status (fst (m st)) = 400
          <-> n = [] \/ a = [] \/ e = [] \/ r = [] \/ emailFormat e = false).
Proof.
  exists (handlers.CreateUser emailFormat (handlers.NewUserHandler svc)
                              (POST_usuarios body)).
  split; [reflexivity|]. split.
  - rewrite CreateUser_400. cbn [Body POST_usuarios].
    rewrite ShouldBindJSON_error.
    destruct body as [msg | v]; [reflexivity|]. cbn zeta.
    rewrite Unmarshal_error. tauto.
  - intros n a e r ->. rewrite CreateUser_400. cbn [Body POST_usuarios].
    rewrite ShouldBindJSON_error. unfold createBody.
    change (handlers.Unmarshal _ handlers.zeroRequest)
      with ({| handlers.Nombre := n; handlers.Apellido := a;
               handlers.Email := e; handlers.Reparto := r |}, @None error).
    cbn [fst snd handlers.Email]. split.
    + intros [H | [[f Hf] | H]]; [congruence | | tauto].
      destruct f; cbn in Hf; tauto.
    + intros [H | [H | [H | [H | H]]]]; right;
        [left; now exists handlers.fNombre
        | left; now exists handlers.fApellido
        | left; now exists handlers.fEmail
        | left; now exists handlers.fReparto
        | now right].
Qed.

(** X14: the server has a handler for [GET /health],
    [POST /api/v1/usuarios] and [GET /api/v1/usuarios] and for nothing
    else: methods and paths are compared as they are. *)
Theorem X14_routes_are_three
        (emailFormat : gostring -> bool) (formatTime : Time -> gostring)
        {St : Type} (cfg : config.Config) (h : @handlers.UserHandler St)
        (c : Request) :
  http.ServeHTTP (http.NewServer emailFormat formatTime cfg h) c <> None
  <-> In (Method c, Path c)
         [ (go "GET", go "/health");
           (go "POST", go "/api/v1/usuarios");
           (go "GET", go "/api/v1/usuarios") ].
Proof.
  unfold http.ServeHTTP, http.route.
  cbn [http.engine http.NewServer handlers.RegisterRoutes app find fst snd].
  change (go "/api/v1" ++ go "/usuarios") with (go "/api/v1/usuarios").
  set (g := streq (go "GET") (Method c)).
  set (hp := streq (go "/health") (Path c)).
  set (p := streq (go "POST") (Method c)).
  set (u := streq (go "/api/v1/usuarios") (Path c)).
  transitivity ((g && hp) || (p && u) || (g && u) = true).
  - destruct g, hp, p, u; cbn; split; congruence.
  - rewrite !orb_true_iff, !andb_true_iff. subst g hp p u.
    rewrite !streq_true. cbn [In]. split.
    + intros [[[A B] | [A B]] | [A B]];
        [left | right; left | right; right; left]; now rewrite A, B.
    + intros [E | [E | [E | []]]]; inversion E; tauto.
Qed.

(** ** The configuration *)

Lemma streq_refl (a : gostring) : streq a a = true.
Proof. now apply streq_true. Qed.

Lemma streq_false (a b : gostring) : streq a b = false <-> a <> b.
Proof.
  rewrite <- streq_true. destruct (streq a b); split; congruence.
Qed.

Lemma LookupEnv_isSet (key : gostring) (env : os.Environ) :
  key <> [] ->
  (os.LookupEnv key env = None <-> os.isSet key env = false).
Proof.
  intros Hk. unfold os.LookupEnv, os.isSet.
  destruct key as [|c t]; [congruence|]. cbn [len List.length Nat.eqb].
  induction env as [|kv env IH]; [split; reflexivity|].
  cbn [find existsb]. destruct (streq (fst kv) (c :: t)); cbn [orb];
    [split; discriminate | exact IH].
Qed.

Lemma LookupEnv_cons (key k v : gostring) (env : os.Environ) :
  os.LookupEnv key ((k, v) :: env)
  = if (len key =? 0)%nat then None
    else if streq k key then Some v else os.LookupEnv key env.
Proof.
  unfold os.LookupEnv. cbn [find fst snd].
  destruct (len key =? 0)%nat; [reflexivity|].
  now destruct (streq k key).
Qed.

(** Setting a variable does not change the value of another. *)
Lemma Setenv_other (key k v : gostring) (env : os.Environ) :
  k <> key ->
  os.LookupEnv key (snd (os.Setenv k v env)) = os.LookupEnv key env.
Proof.
  intros Hk. unfold os.Setenv.
  destruct (len k =? 0)%nat; [reflexivity|].
  destruct (existsb _ k); [reflexivity|].
  destruct (existsb _ v); [reflexivity|].
  cbn [snd]. rewrite LookupEnv_cons.
  destruct (len key =? 0)%nat eqn:L.
  - unfold os.LookupEnv. now rewrite L.
  - apply streq_false in Hk. now rewrite Hk.
Qed.

Lemma Setenv_same (key v : gostring) (env : os.Environ) :
  key <> [] ->
  existsb (fun c => (b2z c =? 0x3D) || (b2z c =? 0)) key = false ->
  os.LookupEnv key (snd (os.Setenv key v env))
  = if existsb (fun c => b2z c =? 0) v then os.LookupEnv key env else Some v.
Proof.
  intros Hk Hv. unfold os.Setenv.
  destruct key as [|c t]; [congruence|]. cbn [len List.length Nat.eqb].
  rewrite Hv. destruct (existsb _ v); [reflexivity|].
  cbn [snd]. rewrite LookupEnv_cons. cbn [len List.length Nat.eqb].
  now rewrite streq_refl.
Qed.

(** The value of a variable after [godotenv.Load]. *)
Lemma Load_LookupEnv (key : gostring) (file : godotenv.File) (env : os.Environ) :
  key <> [] ->
  existsb (fun c => (b2z c =? 0x3D) || (b2z c =? 0)) key = false ->
  os.LookupEnv key (snd (godotenv.Load file env))
  = match os.LookupEnv key env with
    | Some v => Some v
    | None =>
      match file with
      | godotenv.NoFile _ => None
      | godotenv.Vars envMap =>
        match find (usable key) envMap with
        | Some kv => Some (snd kv)
        | None => None
        end
      end
    end.
Proof.
  intros Hk Hv. destruct file as [msg | envMap]; cbn [godotenv.Load snd].
  { now destruct (os.LookupEnv key env). }
  induction envMap as [|[k v] envMap IH]; cbn [fold_right find].
  { now destruct (os.LookupEnv key env). }
  cbn [fst snd]. unfold usable at 1. cbn [fst snd].
  destruct (string_eq_dec k key) as [-> | Hne].
  - rewrite streq_refl. cbn [andb].
    destruct (os.isSet key env) eqn:S.
    + rewrite IH. destruct (os.LookupEnv key env) eqn:L; [reflexivity|].
      apply LookupEnv_isSet in L; congruence.
    + rewrite Setenv_same by assumption.
      apply LookupEnv_isSet in S; [|assumption]. rewrite S in *.
      destruct (existsb _ v); [exact IH | reflexivity].
  - pose proof Hne as Hf. apply streq_false in Hf. rewrite Hf. cbn [andb].
    destruct (os.isSet k env); [exact IH|].
    rewrite Setenv_other by assumption. exact IH.
Qed.

Lemma getEnv_eq (key def : gostring) (env : os.Environ) :
  config.getEnv key def env
  = (match os.LookupEnv key env with Some v => v | None => def end, env).
Proof. unfold config.getEnv. now destruct (os.LookupEnv key env). Qed.

Lemma Load_eq (file : godotenv.File) (env : os.Environ) :
  let env' := snd (godotenv.Load file env) in
  let value := fun key def =>
                 match os.LookupEnv key env' with Some v => v | None => def end in
  config.Load file env
  = ({| config.Env := value (go "APP_ENV") (go "dev");
        config.HttpPort := value (go "HTTP_PORT") (go "8080");
        config.DatabaseDSN :=
          value (go "DATABASE_DSN")
                (go "user:password@tcp(localhost:3306)/dbname") |}, env').
Proof.
  cbn zeta. unfold config.Load, bind, ret.
  destruct (godotenv.Load file env) as [err env']. cbn [snd].
  now rewrite !getEnv_eq.
Qed.

(** X15: every field of the configuration is the value of its variable in
    the environment of the process when it has one, even an empty one;
    otherwise the value the file [.env] gives the variable, when there is
    such a file and the value has no zero byte; otherwise the default. *)
Theorem X15_configuration_precedence
        (file : godotenv.File) (env : os.Environ) :
  let cfg := fst (config.Load file env) in
  Forall (fun var =>
            let '(key, def, field) := var in
            field cfg
            = match os.LookupEnv key env with
              | Some v => v
              | None =>
                match file with
                | godotenv.NoFile _ => def
                | godotenv.Vars envMap =>
                  match find (usable key) envMap with
                  | Some kv => snd kv
                  | None => def
                  end
                end
              end)
         variables.
Proof.
  cbn zeta. rewrite Load_eq. cbn [fst].
  unfold variables. repeat constructor;
    cbn [config.Env config.HttpPort config.DatabaseDSN];
    (rewrite Load_LookupEnv by (discriminate || reflexivity));
    destruct (os.LookupEnv _ env); try reflexivity;
    destruct file as [msg | envMap]; try reflexivity;
    now destruct (find _ envMap).
Qed.

(** Loading the file changes no variable that the process has. *)
Lemma Load_keeps (key v : gostring) (file : godotenv.File) (env : os.Environ) :
  os.LookupEnv key env = Some v ->
  os.LookupEnv key (snd (godotenv.Load file env)) = Some v.
Proof.
  intros L. destruct file as [msg | envMap]; cbn [godotenv.Load snd];
    [exact L|].
  assert (Hk : key <> []).
  { intros ->. discriminate L. }
  assert (S : os.isSet key env = true).
  { destruct (os.isSet key env) eqn:S; [reflexivity|].
    apply LookupEnv_isSet in S; congruence. }
  induction envMap as [|[k x] envMap IH]; cbn [fold_right fst snd]; [exact L|].
  destruct (string_eq_dec k key) as [-> | Hne].
  - now rewrite S.
  - destruct (os.isSet k env); [exact IH|].
    now rewrite Setenv_other.
Qed.

(** A variable that the process has after the loading was there before or
    comes from the file. *)
Lemma Load_adds (key v : gostring) (file : godotenv.File) (env : os.Environ) :
  os.LookupEnv key (snd (godotenv.Load file env)) = Some v ->
  os.LookupEnv key env = Some v
  \/ exists envMap, file = godotenv.Vars envMap /\ In (key, v) envMap.
Proof.
  destruct file as [msg | envMap]; cbn [godotenv.Load snd]; [now left|].
  intros L.
  assert (H : os.LookupEnv key env = Some v \/ In (key, v) envMap);
    [|destruct H; [now left | right; now exists envMap]].
  revert L. induction envMap as [|[k x] envMap IH]; cbn [fold_right fst snd];
    [now left|].
  destruct (os.isSet k env).
  { intros L. destruct (IH L); [now left | right; now right]. }
  unfold os.Setenv.
  destruct (len k =? 0)%nat;
    [intros L; destruct (IH L); [now left | right; now right]|].
  destruct (existsb _ k);
    [intros L; destruct (IH L); [now left | right; now right]|].
  destruct (existsb _ x);
    [intros L; destruct (IH L); [now left | right; now right]|].
  cbn [snd]. rewrite LookupEnv_cons.
  destruct (len key =? 0)%nat; [discriminate|].
  destruct (streq k key) eqn:E.
  - apply streq_true in E. subst k. intros [= ->]. right. now left.
  - intros L. destruct (IH L); [now left | right; now right].
Qed.

(** X16: loading the configuration leaves every variable of the process
    with its value, and a variable that the process has afterwards was
    there before or is one of the file [.env]. *)
Theorem X16_environment_is_kept
        (file : godotenv.File) (env : os.Environ) (key v : gostring) :
  let env' := snd (config.Load file env) in
  (os.LookupEnv key env = Some v -> os.LookupEnv key env' = Some v)
  /\ (os.LookupEnv key env' = Some v ->
      os.LookupEnv key env = Some v
      \/ exists envMap, file = godotenv.Vars envMap /\ In (key, v) envMap).
Proof.
  cbn zeta. rewrite Load_eq. cbn [snd]. split.
  - apply Load_keeps.
  - apply Load_adds.
Qed.

(** X17: the server listens on [:] followed by the port of its
    configuration, logs that address, and returns what the engine
    returns; with the configuration loaded from the environment, the port
    is the value of [HTTP_PORT] when the process has it, even when it is
    empty, and 8080 when neither the process nor a file [.env] has it. *)
Theorem X17_listen_address
        (emailFormat : gostring -> bool) (formatTime : Time -> gostring)
        {St : Type} (h : @handlers.UserHandler St)
        (file : godotenv.File) (env : os.Environ)
        (listen : gostring -> option error) (lines : list gostring) :
  let cfg := fst (config.Load file env) in
  let s := http.NewServer emailFormat formatTime cfg h in
  http.Run s listen lines
  = (listen (go ":" ++ config.HttpPort cfg),
     lines ++ [ go "escuchando en :" ++ config.HttpPort cfg ])
  /\ (forall v, os.LookupEnv (go "HTTP_PORT") env = Some v ->
                config.HttpPort cfg = v)
  /\ (os.LookupEnv (go "HTTP_PORT") env = None ->
      (forall envMap, file = godotenv.Vars envMap ->
                      forall x, ~ In (go "HTTP_PORT", x) envMap) ->
      config.HttpPort cfg = go "8080").
Proof.
  cbn zeta. split; [reflexivity|].
  rewrite Load_eq. cbn [fst config.HttpPort].
  rewrite Load_LookupEnv by (discriminate || reflexivity). split.
  - now intros v ->.
  - intros -> Hfile. destruct file as [msg | envMap]; [reflexivity|].
    destruct (find (usable (go "HTTP_PORT")) envMap) as [[k x]|] eqn:F;
      [|reflexivity].
    exfalso. apply find_some in F as [Hin Hu].
    unfold usable in Hu. apply andb_true_iff in Hu as [Hu _].
    apply streq_true in Hu. cbn [fst] in Hu. subst k.
    now apply (Hfile envMap eq_refl x).
Qed.

(** ** Trimming and lower-casing *)

(** [TrimSpace] takes a run of white space off each end. *)
Lemma TrimSpace_split (s : gostring) :
  exists l r,
    s = l ++ strings.TrimSpace s ++ r /\ Spaces l /\ Spaces r.
Proof.
  rewrite TrimSpace_TrimFunc. unfold strings.TrimFunc.
  destruct (TrimLeft_spec s) as (l & Hl & Hs & _).
  destruct (TrimRight_spec (strings.TrimLeftFunc s unicode.IsSpace))
    as (r & Hr & Hu & _).
  exists l, r. split; [|split; assumption].
  now rewrite <- Hu.
Qed.

(** X18: the trimming the service applies to every field takes a run of
    white-space runes off the beginning of the string and one off its
    end, and nothing else: what is left has no white space at either end,
    white space inside it stays, and it is the only part of the string
    that is so. *)
Theorem X18_trimming_removes_the_padding (s : gostring) :
  (exists l r,
      s = l ++ strings.TrimSpace s ++ r
      /\ Spaces l /\ Spaces r /\ Trimmed (strings.TrimSpace s))
  /\ forall l c r,
       s = l ++ c ++ r -> Spaces l -> Spaces r -> Trimmed c ->
       strings.TrimSpace s = c.
Proof.
  split.
  - destruct (TrimSpace_split s) as (l & r & E & Hl & Hr).
    exists l, r. repeat split; try assumption; apply TrimSpace_Trimmed.
  - intros l c r -> Hl Hr Hc. now apply TrimSpace_pad.
Qed.

Lemma isASCII_forallb (s : gostring) :
  isASCII s <-> forallb (fun c => b2z c <? RuneSelf) s = true.
Proof.
  unfold isASCII. rewrite forallb_forall, Forall_forall. unfold RuneSelf.
  split; intros H c Hc; specialize (H c Hc); now apply Z.ltb_lt.
Qed.

Lemma map_lowerByte_fix (s : gostring) :
  existsb isUpperByte s = false -> map lowerByte s = s.
Proof.
  induction s as [|c t IH]; [reflexivity|]. cbn [existsb map].
  intros H. apply orb_false_iff in H as [Hc Ht].
  unfold lowerByte at 1. rewrite Hc. now rewrite IH.
Qed.

(** On a string of ASCII bytes [ToLower] works byte by byte, whatever the
    case table. *)
Lemma ToLower_ascii (caseLower : rune -> rune) (s : gostring) :
  isASCII s -> strings.ToLower caseLower s = map lowerByte s.
Proof.
  intros H. apply isASCII_forallb in H. unfold strings.ToLower. rewrite H.
  fold isUpperByte.
  change (fun c => (0x41 <=? b2z c) && (b2z c <=? 0x5A)) with isUpperByte.
  destruct (existsb isUpperByte s) eqn:U; cbn [negb].
  - reflexivity.
  - symmetry. now apply map_lowerByte_fix.
Qed.

Lemma isASCII_app (s t : gostring) : isASCII (s ++ t) <-> isASCII s /\ isASCII t.
Proof. apply Forall_app. Qed.

Lemma TrimSpace_ascii (s : gostring) : isASCII s -> isASCII (strings.TrimSpace s).
Proof.
  intros H. destruct (TrimSpace_split s) as (l & r & E & _).
  rewrite E in H. apply isASCII_app in H as [_ H].
  now apply isASCII_app in H as [H _].
Qed.

(** X19: for addresses of ASCII bytes the uniqueness of the address does
    not depend on the Unicode case table: the service stores the trimmed
    address with [A]-[Z] replaced by [a]-[z], byte by byte, and when that
    is the address of a stored user, the service returns an error and
    the store stays as it is. *)
Theorem X19_ascii_address_is_unique
        (caseLower : rune -> rune) (emailFormat : gostring -> bool)
        (formatTime : Time -> gostring) (cfg : config.Config) (d : gorm.DB)
        (nombre apellido email reparto : gostring) :
  Reachable caseLower emailFormat formatTime cfg d ->
  isASCII email ->
  strings.ToLower caseLower (strings.TrimSpace email)
  = map lowerByte (strings.TrimSpace email)
  /\ (In (map lowerByte (strings.TrimSpace email)) (map Email (gorm.users d)) ->
      exists err,
        service.CreateUser (userSvc caseLower) nombre apellido email reparto d
        = (Some err, d)
        /\ (gorm.fault d = None ->
            err = UniqueConstraintError (go "users.email"))).
Proof.
  intros HR Ha.
  assert (E : strings.ToLower caseLower (strings.TrimSpace email)
              = map lowerByte (strings.TrimSpace email))
    by now apply ToLower_ascii, TrimSpace_ascii.
  split; [exact E|]. intros Hin.
  apply CreateUser_taken; [now apply (Reachable_Inv _ _ _ _ _ HR)|].
  now rewrite E.
Qed.

(** ** The message of a validation error *)

Lemma required_nonempty (f : handlers.field) (req : handlers.createUserRequest) :
  handlers.get f req <> [] -> handlers.required f req = [].
Proof.
  intros H. unfold handlers.required.
  destruct (handlers.get f req); [congruence | reflexivity].
Qed.

(** X20: when one field of the body is the empty string and the other
    three are in order, the create handler answers 400 with the
    validator's message, which names the Go field and the tag
    [required]; when only the format of the address is wrong, it names
    [Email] and the tag [email]. *)
Theorem X20_message_names_the_field
        (emailFormat : gostring -> bool) {St : Type}
        (h : @handlers.UserHandler St) (n a e r : gostring) (st : St) :
  let req := {| handlers.Nombre := n; handlers.Apellido := a;
                handlers.Email := e; handlers.Reparto := r |} in
  let answer := handlers.CreateUser emailFormat h
                  (POST_usuarios (createBody n a e r)) st in
  (forall f,
      handlers.get f req = [] ->
      (forall g, g <> f -> handlers.get g req <> []) ->
      (f <> handlers.fEmail -> emailFormat e = true) ->
      answer
      = ({| Status := 400;
            Payload :=
              H "error"
                (go "Key: 'createUserRequest." ++ handlers.goName f
                 ++ go "' Error:Field validation for '" ++ handlers.goName f
                 ++ go "' failed on the 'required' tag") |}, st))
  /\ ((forall g, handlers.get g req <> []) -> emailFormat e = false ->
      answer
      = ({| Status := 400;
            Payload :=
              H "error"
                (go "Key: 'createUserRequest.Email' Error:Field validation for 'Email' failed on the 'email' tag") |},
         st)).
Proof.
  intros req answer. subst answer. rewrite CreateUser_cases. cbn zeta.
  cbn [Body POST_usuarios]. unfold handlers.ShouldBindJSON, createBody.
  change (handlers.Unmarshal _ handlers.zeroRequest) with (req, @None error).
  cbv beta iota. cbn [fst snd]. unfold handlers.validate. split.
  - intros f Hf Hg He.
    assert (Hreq : forall g, g <> f -> handlers.required g req = [])
      by (intros g Hne; apply required_nonempty; now apply Hg).
    destruct f;
      repeat match goal with
             | |- context [handlers.required ?g req] =>
               rewrite (Hreq g) by discriminate
             end;
      unfold handlers.required, handlers.required_email;
      try rewrite Hf; cbn [len List.length Nat.eqb app];
      try (pose proof (Hg handlers.fEmail ltac:(discriminate)) as Hne;
           cbn [handlers.get req handlers.Email] in Hne;
           destruct e as [|c t]; [congruence|];
           cbn [handlers.get req handlers.Email len List.length Nat.eqb];
           rewrite He by discriminate; cbn [app]);
      reflexivity.
  - intros Hg He.
    rewrite !required_nonempty by apply Hg.
    unfold handlers.required_email.
    pose proof (Hg handlers.fEmail) as Hne.
    cbn [handlers.get req handlers.Email] in *.
    destruct e as [|c t]; [congruence|].
    cbn [len List.length Nat.eqb]. rewrite He. reflexivity.
Qed.

(** ** The repository *)


(** ** The list as JSON *)

(** X22: the list handler writes a nil slice of its service as [null] and
    any other slice as an array with one object per user, in the order of
    the slice; with the repository of the program the slice is never nil
    when there is no error, so that a 200 answer always carries an array,
    with as many elements as the table has rows. *)
Theorem X22_list_is_an_array
        (caseLower : rune -> rune) (emailFormat : gostring -> bool)
        (formatTime : Time -> gostring) (cfg : config.Config) :
  (forall (St : Type) (svc : service.UserService St) (c : Request)
          (st st' : St) (users : slice User),
      service.GetAllUsers svc st = ((users, None), st') ->
      handlers.ListUsers formatTime (handlers.NewUserHandler svc) c st
      = ({| Status := 200;
            Payload := match users with
                       | nil_slice => JNull
                       | mk_slice l =>
                         JArray (map (handlers.User_JSON formatTime) l)
                       end |}, st'))
  /\ forall (body : RequestBody) (d d' : gorm.DB) (resp : Response),
       serve caseLower emailFormat formatTime cfg (GET_usuarios body) d
       = Some (resp, d') ->
       Status resp = 200 ->
       exists elems,
         Payload resp = JArray elems
         /\ List.length elems = List.length (gorm.users d).
Proof.
  split.
  - intros St svc c st st' users E. rewrite ListUsers_cases.
    cbn [handlers.svc handlers.NewUserHandler]. rewrite E. reflexivity.
  - intros body d d' resp E H200. rewrite serve_GET_usuarios in E.
    destruct (gorm.fault d); injection E as <- <-.
    + discriminate H200.
    + eexists. split; [reflexivity|]. apply length_map.
Qed.

(** * The further properties at work *)

Lemma withJuan_Reachable : Reachable latin1Lower hasAt noFormat devConfig withJuan.
Proof. apply Reachable_after, Reachable_new. Qed.

Lemma X1_witness :
  service.CreateUser (userSvc latin1Lower) (go "  Juan  ") (go "Pérez")
                     (go "JUAN@EXAMPLE.COM") (go "  IT  ") (db.NewDatabase 1000)
  = (None, withJuan).
Proof.
  destruct (X1_service_create_on_store latin1Lower hasAt noFormat devConfig
              (db.NewDatabase 1000) (go "  Juan  ") (go "Pérez")
              (go "JUAN@EXAMPLE.COM") (go "  IT  ")
              (Reachable_new _ _ _ _ 1000)) as (_ & _ & Hnew).
  exact (Hnew eq_refl (fun H => H)).
Defined.

Lemma X2_witness :
  serve latin1Lower hasAt noFormat devConfig
        (GET_usuarios (Unreadable (go "EOF"))) withJuan
  = Some ({| Status := 200;
             Payload :=
               JArray [ JObject [ (go "id", JNumber 1);
                                  (go "nombre", JString (go "Juan"));
                                  (go "apellido", JString (go "Pérez"));
                                  (go "email", JString (go "juan@example.com"));
                                  (go "reparto", JString (go "IT"));
                                  (go "created_at",
                                   JString (go "0001-01-01T00:00:00Z"));
                                  (go "updated_at",
                                   JString (go "0001-01-01T00:00:00Z")) ] ] |},
          withJuan).
Proof.
  destruct (X2_created_user_is_listed latin1Lower hasAt noFormat devConfig
              (db.NewDatabase 1000) withJuan (Body juan)
              {| Status := 201;
                 Payload := H "message" (go "usuario creado exitosamente") |}
              (Reachable_new _ _ _ _ 1000) eq_refl eq_refl) as [_ Hlist].
  exact (Hlist (Unreadable (go "EOF"))).
Defined.

Lemma X4_witness :
  exists row,
    gorm.users withJuan = gorm.users (db.NewDatabase 1000) ++ [row]
    /\ Email row = go "juan@example.com".
Proof.
  destruct (X4_row_inserted_iff_created latin1Lower hasAt noFormat devConfig
              juan (db.NewDatabase 1000) withJuan
              {| Status := 201;
                 Payload := H "message" (go "usuario creado exitosamente") |}
              eq_refl)
    as [[Hno _] | (_ & _ & _ & _ & row & Hrow & Hmail & _)].
  - exfalso. apply Hno. reflexivity.
  - exists row. split; [exact Hrow | exact Hmail].
Defined.

Lemma X6_witness :
  Forall (fun u => 0 < ID u <= 1) (gorm.users withJuan).
Proof.
  exact (proj1 (X6_ids_increase latin1Lower hasAt noFormat devConfig withJuan
                                withJuan_Reachable)).
Defined.

Lemma X7_witness :
  Forall (fun u =>
            Trimmed (Nombre u) /\ Trimmed (Apellido u) /\ Trimmed (Reparto u)
            /\ strings.TrimSpace (Nombre u) = Nombre u
            /\ strings.TrimSpace (Apellido u) = Apellido u
            /\ strings.TrimSpace (Reparto u) = Reparto u)
         (gorm.users withJuan).
Proof.
  exact (proj1 (X7_stored_fields_are_normal latin1Lower hasAt noFormat
                  devConfig withJuan withJuan_Reachable)).
Defined.

Lemma X8_witness :
  let later :=
    run latin1Lower hasAt noFormat devConfig withJuan
        [ Tick 2000; Serve (GET_usuarios (Unreadable (go "EOF"))) ] in
  serve latin1Lower hasAt noFormat devConfig juan later
  = Some ({| Status := 500;
             Payload := H "error" (go "no se pudo crear el usuario") |},
          later).
Proof.
  exact (X8_repeated_create_is_refused latin1Lower hasAt noFormat devConfig
           (db.NewDatabase 1000) withJuan (Body juan)
           {| Status := 201;
              Payload := H "message" (go "usuario creado exitosamente") |}
           [ Tick 2000; Serve (GET_usuarios (Unreadable (go "EOF"))) ]
           (Reachable_new _ _ _ _ 1000) eq_refl eq_refl).
Defined.

Lemma X11_witness :
  handlers.CreateUser hasAt (userHandler latin1Lower)
    (POST_usuarios
       (Document (JObject [ (go "nombre", JString (go "Juan"));
                            (go "edad", JNumber 30);
                            (go "apellido", JString (go "Pérez"));
                            (go "email", JString (go "juan@example.com"));
                            (go "reparto", JString (go "IT")) ])))
    (db.NewDatabase 1000)
  = handlers.CreateUser hasAt (userHandler latin1Lower)
      (POST_usuarios (createBody (go "Juan") (go "Pérez")
                                 (go "juan@example.com") (go "IT")))
      (db.NewDatabase 1000).
Proof.
  exact (X11_unknown_members_are_ignored hasAt (userHandler latin1Lower)
           [ (go "nombre", JString (go "Juan")) ]
           [ (go "apellido", JString (go "Pérez"));
             (go "email", JString (go "juan@example.com"));
             (go "reparto", JString (go "IT")) ]
           (go "edad") (JNumber 30) (db.NewDatabase 1000) eq_refl).
Defined.

Lemma X12_witness :
  handlers.Nombre
    (fst (handlers.ShouldBindJSON hasAt
            (Document (JObject [ (go "nombre", JString (go "Ana"));
                                 (go "NOMBRE", JString (go "Juan"));
                                 (go "nombre", JNull) ]))
            handlers.zeroRequest))
  = go "Juan".
Proof.
  apply (X12_last_member_wins hasAt handlers.fNombre
           [ (go "nombre", JString (go "Ana")) ] [ (go "nombre", JNull) ]
           (go "NOMBRE") (go "Juan") eq_refl).
  intros m [<- | []] [_ [s E]]. discriminate E.
Defined.

Lemma X19_witness :
  exists err,
    service.CreateUser (userSvc latin1Lower) (go "Juana") (go "Paz")
                       (go " JUAN@example.COM ") (go "IT") withJuan
    = (Some err, withJuan)
    /\ err = UniqueConstraintError (go "users.email").
Proof.
  assert (Ha : isASCII (go " JUAN@example.COM "))
    by (unfold isASCII; repeat (constructor; [reflexivity|]); constructor).
  destruct (X19_ascii_address_is_unique latin1Lower hasAt noFormat devConfig
              withJuan (go "Juana") (go "Paz") (go " JUAN@example.COM ")
              (go "IT") withJuan_Reachable Ha) as [_ Hdup].
  destruct (Hdup (or_introl eq_refl)) as (err & Hc & He).
  exists err. split; [exact Hc | exact (He eq_refl)].
Defined.


Lemma X9_witness :
  Forall (fun u => UpdatedAt u = CreatedAt u) (gorm.users withJuan).
Proof.
  exact (proj1 (X9_never_updated latin1Lower hasAt noFormat devConfig
                                  withJuan withJuan_Reachable)).
Defined.
